(** * fpv_energy_scan: the scan/confirm control loop of scripts/fpv_energy_scan.py

    A shallow embedding of the Python script.  Python floats are IEEE
    binary64 numbers and are modelled by Rocq's primitive floats, so every
    comparison, sum and division below is the one the interpreter performs.
    The radio, the classifier subprocess, the telemetry socket and the JSON
    decoder are outside the script: what they hand back is an input of the
    model, and what the script does to them is recorded as a trace of
    events. *)

From Stdlib Require Import Floats ZArith List String Bool Arith Lia Permutation
  Sorted.
Import ListNotations.
Set Warnings "-inexact-float,-register-all".

(** ** Module constants *)

Definition RACE_BANDS_ALL_MHZ : list Z :=
  [ 5865; 5845; 5825; 5805; 5785; 5765; 5745; 5725;
    5733; 5752; 5771; 5790; 5809; 5828; 5847; 5866;
    5705; 5685; 5665; 5645; 5885; 5905; 5925; 5945;
    5740; 5760; 5780; 5800; 5820; 5840; 5860; 5880;
    5658; 5695; 5732; 5769; 5806; 5843; 5880; 5917;
    5333; 5373; 5413; 5453; 5493; 5533; 5573; 5613;
    4990; 5020; 5050; 5080; 5110; 5140; 5170; 5200 ]%Z.

Definition EXTRA_59_MHZ : list Z := [5935; 5940; 5943; 5950]%Z.

(** [sorted(set(l))]: ascending, without repeats. *)
Fixpoint insert_center (x : Z) (l : list Z) : list Z :=
  match l with
  | [] => [x]
  | y :: r =>
      if (x <? y)%Z then x :: l
      else if (x =? y)%Z then l
      else y :: insert_center x r
  end.

Definition sorted_set (l : list Z) : list Z := fold_right insert_center [] l.

Definition ALL_CENTERS_MHZ : list Z :=
  sorted_set (RACE_BANDS_ALL_MHZ ++ EXTRA_59_MHZ).

Definition AUTO_THRESHOLD : bool := false.
Definition THRESHOLD_DB : float := (-90.0)%float.
Definition MIN_BW_HZ : float := 4.0e6%float.
Definition SETTLE_S : float := 0.12%float.
Definition DWELL_S : float := 0.4%float.
Definition WARMUP_SWEEPS : nat := 1.
Definition THRESHOLD_OFFSET_DB : float := 6.0%float.
Definition SUSCLI_BIN : string := "suscli".
Definition SUSCLI_PROFILE : string := "fpv58_race_2m".
Definition SUSCLI_BANDWIDTH : string := "1.8e6".
Definition SUSCLI_DT : string := "0.1".
Definition SUSCLI_Q : string := "10".
Definition CONFIRM_SECONDS : Z := 5.
Definition COOLDOWN_S : float := 3.0%float.
Definition REOPEN_RETRIES : nat := 5.
Definition REOPEN_DELAY_S : float := 2.0%float.
Definition ALERT_ID_PREFIX : string := "fpv-alert".

(** ** Python values, exceptions and results *)

(** What [json.loads] can return. *)
Inductive pyval : Type :=
| PyNone
| PyBool (b : bool)
| PyInt (z : Z)
| PyFloat (f : float)
| PyStr (s : string)
| PyList (l : list pyval)
| PyDict (d : list (string * pyval)).

Inductive exn : Type :=
| RuntimeError (msg : string)
| AttributeError
| TypeError
| ValueError
| OverflowError
| OtherError (name : string).

(** A call either returns a value or raises. *)
Inductive outcome (A : Type) : Type :=
| Ret (a : A)
| Raise (e : exn).
Arguments Ret {A} a.
Arguments Raise {A} e.

Definition obind {A B} (o : outcome A) (f : A -> outcome B) : outcome B :=
  match o with
  | Ret a => f a
  | Raise e => Raise e
  end.

(** [int -> float]: round to nearest even. *)
Definition Z_to_float (z : Z) : float :=
  SF2Prim (binary_normalize prec emax z 0 false).

(** [d.get(key, default)] on a decoded JSON object (keys are unique). *)
Fixpoint dict_get (d : list (string * pyval)) (key : string) (default : pyval)
  : pyval :=
  match d with
  | [] => default
  | (k, v) :: r => if String.eqb k key then v else dict_get r key default
  end.

(** [v.get(key, default)]: only a dict has the method. *)
Definition py_get (v : pyval) (key : string) (default : pyval) : outcome pyval :=
  match v with
  | PyDict d => Ret (dict_get d key default)
  | _ => Raise AttributeError
  end.

(** [isinstance(v, (int, float))]; [bool] is a subclass of [int]. *)
Definition is_int_or_float (v : pyval) : bool :=
  match v with
  | PyInt _ | PyFloat _ | PyBool _ => true
  | _ => false
  end.

(** ** The radio, the alerts and the trace *)

(** The top block: the one constructor argument the claims look at. *)
Record InspectorScan : Type := { threshold_db : float }.

(** One detected signal: (absolute frequency in Hz, bandwidth in Hz). *)
Definition signal : Type := (float * float)%type.

(** One row of the detector's [map_out] message: (frequency offset, bandwidth). *)
Definition rf_row : Type := (float * float)%type.

(** The parts of an alert, in the order [build_alert_messages] appends them.
    The id is the prefix and the frequency in MHz, which the script prints
    with three decimals. *)
Inductive alert_msg : Type :=
| BasicID (id_type : string) (id_prefix : string) (id_mhz : float)
          (description : string)
| LocationVector (latitude longitude geodetic_altitude
                  height_agl speed vert_speed : float)
| SelfID (text : string)
| FrequencyMessage (frequency : float)
| SignalInfo (source : string) (center_hz bandwidth_hz pal_conf ntsc_conf : float).

(** The argument vector of the classifier. *)
Record command : Type := {
  cmd_bin : string;
  cmd_sub : string;
  cmd_profile : string;
  cmd_frequency : float;
  cmd_bandwidth : string;
  cmd_dt : string;
  cmd_q : string;
  cmd_formatter : string
}.

(** What the script prints. *)
Inductive line_out : Type :=
| WarnConfirmDisabled (reason : string)
| WarnOpenFailed (attempt : nat) (why : string)
| DebugWarmup (threshold : float)
| SignalsLine (mhz : Z) (signals : list signal)
| NoSignalsLine (mhz : Z)
| ConfirmSkipped (hz : float)
| ConfirmLine (hz pal ntsc : float)
| DebugConfirm (hz bw pal ntsc : float).

(** What the script does to the outside world, in order. *)
Inductive event : Type :=
| EvConstruct (th : float) (ok : bool)   (* InspectorScan(...) *)
| EvStart (ok : bool)                    (* tb.start() *)
| EvStop                                 (* tb.stop() *)
| EvWait                                 (* tb.wait() *)
| EvGcCollect                            (* tb = None; gc.collect() *)
| EvSetCenter (hz : float)               (* tb.set_center(hz) *)
| EvSleep (seconds : float)              (* time.sleep(seconds) *)
| EvPrint (l : line_out)                 (* print(...) *)
| EvPublish (alert : list alert_msg)     (* pub_socket.send_string(...) *)
| EvSubprocessRun (cmd : command) (timeout : Z)  (* subprocess.run(cmd, ...) is entered *)
| EvSubprocessEnd.                       (* ... and has returned or raised *)

(** ** The store and the monad of the script

    The two module globals, and [main]'s local variable [tb]. *)
Record store : Type := mkStore {
  _last_sensor_gps : option (float * float * float);
  _confirm_disabled_reason : option string;
  tb : option InspectorScan
}.

Definition init_store : store :=
  {| _last_sensor_gps := None; _confirm_disabled_reason := None; tb := None |}.

(** A statement: from a store to a result, the new store and what happened. *)
Definition M (A : Type) : Type := store -> outcome A * store * list event.

Definition ret {A} (a : A) : M A := fun st => (Ret a, st, []).

Definition raise {A} (e : exn) : M A := fun st => (Raise e, st, []).

Definition bind {A B} (m : M A) (f : A -> M B) : M B :=
  fun st =>
    match m st with
    | (Ret a, st1, t1) =>
        match f a st1 with
        | (r, st2, t2) => (r, st2, t1 ++ t2)
        end
    | (Raise e, st1, t1) => (Raise e, st1, t1)
    end.

Notation "x <- m ;; k" := (bind m (fun x => k))
  (at level 61, m at next level, right associativity).
Notation "m ;; k" := (bind m (fun _ => k))
  (at level 61, right associativity).

Definition emit (e : event) : M unit := fun st => (Ret tt, st, [e]).

Definition get : M store := fun st => (Ret st, st, []).

Definition lift {A} (o : outcome A) : M A := fun st => (o, st, []).

Definition set_gps (fix_ : float * float * float) : M unit :=
  fun st =>
    (Ret tt,
     {| _last_sensor_gps := Some fix_;
        _confirm_disabled_reason := _confirm_disabled_reason st;
        tb := tb st |}, []).

Definition set_disabled (reason : string) : M unit :=
  fun st =>
    (Ret tt,
     {| _last_sensor_gps := _last_sensor_gps st;
        _confirm_disabled_reason := Some reason;
        tb := tb st |}, []).

Definition set_tb (t : option InspectorScan) : M unit :=
  fun st =>
    (Ret tt,
     {| _last_sensor_gps := _last_sensor_gps st;
        _confirm_disabled_reason := _confirm_disabled_reason st;
        tb := t |}, []).

(** The three components of a run. *)
Definition result_of {A} (r : outcome A * store * list event) : outcome A :=
  fst (fst r).
Definition store_of {A} (r : outcome A * store * list event) : store :=
  snd (fst r).
Definition trace_of {A} (r : outcome A * store * list event) : list event :=
  snd r.

(** ** Inputs from outside the script *)

(** One line of the classifier's standard output, as [run_confirm] sees it:
    it does not start with an opening brace, or it does and [json.loads]
    either raises [JSONDecodeError] ([None]) or returns the object. *)
Inductive out_line : Type :=
| NotBrace
| Brace (decoded : option (list (string * pyval))).

(** What [subprocess.run] does.  [unknown_command] is the test the script
    makes on the combined output: it contains 'Unknown command' or
    'unknown command'. *)
Inductive proc_outcome : Type :=
| FileNotFoundError
| TimeoutExpired (stdout : list out_line)
| CompletedProcess (returncode : Z) (stdout : list out_line)
                   (unknown_command : bool)
| SpawnError (e : exn).

(** What [recv_string] does: nothing waiting, another failure, or a message
    with what [json.loads] makes of it ([None]: [JSONDecodeError]). *)
Inductive recv_result : Type :=
| RecvAgain
| RecvFailed
| RecvMsg (decoded : option pyval).

(** One attempt to build and start the flow graph: the exception, if any,
    of the constructor and of [start]. *)
Record attempt : Type := {
  construct_exn : option exn;
  start_exn : option exn
}.

Definition attempt_ok : attempt :=
  {| construct_exn := None; start_exn := None |}.

(** The command line arguments the loop reads. *)
Record args : Type := { zmq : bool; debug : bool }.

(** What one channel visit meets: the telemetry socket, the detector's latest
    message, the classifier (if it is run) and the attempts to reopen the
    radio (numbered from 1). *)
Record visit_input : Type := {
  telemetry : recv_result;
  latest_map : option (list rf_row);
  confirm_proc : proc_outcome;
  reopen : nat -> attempt
}.

(** What start-up meets: whether the telemetry socket could be set up, the
    first open, the spectrum read at each warm-up visit (numbered from 0) and
    the attempts to reopen after the warm-up. *)
Record startup : Type := {
  mon_sub : bool;
  first_open : attempt;
  warmup_probe : nat -> list float;
  warmup_reopen : nat -> attempt
}.

(** What [run_confirm] returns: [(None, None)] or the two scores. *)
Inductive confirm_result : Type :=
| Disabled
| Scores (pal ntsc : float).

(** ** The functions of the script *)

Definition _disable_confirm (reason : string) : M unit :=
  st <- get ;;
  match _confirm_disabled_reason st with
  | None =>
      set_disabled reason ;;
      emit (EvPrint (WarnConfirmDisabled reason))
  | Some _ => ret tt
  end.

Definition center_hz_of (mhz : Z) : float := (Z_to_float mhz * 1e6)%float.

(** [parse_rf_map]: the loop over the rows, appending to [signals]. *)
Definition parse_rf_map (msg : option (list rf_row)) (center_hz : float)
  : list signal :=
  match msg with
  | None => []
  | Some rows =>
      fold_left
        (fun signals row =>
           let freq_off := fst row in
           let bw := snd row in
           let abs_hz := (center_hz + freq_off)%float in
           if (MIN_BW_HZ <=? bw)%float then signals ++ [(abs_hz, bw)]
           else signals)
        rows []
  end.

(** [InspectorScan.get_latest_map]: [msg_dbg] is the store of the message
    debug block, the messages received so far in their order. *)
Definition get_latest_map {A : Type} (msg_dbg : list A) : option A :=
  let count := List.length msg_dbg in
  if (count =? 0)%nat then None
  else nth_error msg_dbg (count - 1).

(** [sorted(data)]: a stable insertion sort on the order of the floats. *)
Fixpoint insert_sorted (x : float) (l : list float) : list float :=
  match l with
  | [] => [x]
  | y :: r => if (x <? y)%float then x :: l else y :: insert_sorted x r
  end.

Definition sorted (data : list float) : list float :=
  fold_left (fun acc x => insert_sorted x acc) data [].

(** [statistics.median]; [None] is [StatisticsError]. *)
Definition median (data : list float) : option float :=
  let data := sorted data in
  let n := List.length data in
  if (n =? 0)%nat then None
  else if Nat.odd n then nth_error data (n / 2)
  else
    let i := (n / 2)%nat in
    Some ((nth (i - 1) data 0 + nth i data 0) / 2)%float.

(** [max(a, b)] of Python: [b] only when [b > a]. *)
Definition py_max (a b : float) : float := if (a <? b)%float then b else a.

(** One step of [max(..., key=...)]: the later element replaces the best so
    far only when its key is strictly greater. *)
Definition pick {A : Type} (key : A -> float) (best s : A) : A :=
  if (key best <? key s)%float then s else best.

(** [max(signals, key=lambda s: s[1])] on a non-empty list: the first of the
    signals of largest bandwidth. *)
Definition max_by_bw (first : signal) (rest : list signal) : signal :=
  fold_left (pick snd) rest first.

Section Script.

(** [float(s)] on a string, [None] for [ValueError]: Python's parser of
    numerals is not part of the script. *)
Variable float_of_str : string -> option float.

(** [float(v)]. *)
Definition py_float (v : pyval) : outcome float :=
  match v with
  | PyFloat f => Ret f
  | PyInt z =>
      let f := Z_to_float z in
      if is_infinity f then Raise OverflowError else Ret f
  | PyBool b => Ret (if b then 1 else 0)%float
  | PyStr s =>
      match float_of_str s with
      | Some f => Ret f
      | None => Raise ValueError
      end
  | PyNone | PyList _ | PyDict _ => Raise TypeError
  end.

Definition is_valid_latlon (lat lon : pyval) : outcome bool :=
  if negb (is_int_or_float lat) || negb (is_int_or_float lon) then Ret false
  else
    obind (py_float lat) (fun la =>
      if ((-90.0 <=? la) && (la <=? 90.0))%float then
        obind (py_float lon) (fun lo =>
          Ret ((-180.0 <=? lo) && (lo <=? 180.0))%float)
      else Ret false).

Definition poll_monitor_for_gps (sub_sock : bool) (r : recv_result) : M unit :=
  if negb sub_sock then ret tt
  else
    match r with
    | RecvAgain => ret tt
    | RecvFailed => ret tt
    | RecvMsg None => ret tt
    | RecvMsg (Some payload) =>
        lat <- lift (py_get payload "lat" PyNone) ;;
        lon <- lift (py_get payload "lon" PyNone) ;;
        alt <- lift (py_get payload "alt" (PyFloat 0.0)) ;;
        valid <- lift (is_valid_latlon lat lon) ;;
        if valid : bool then
          la <- lift (py_float lat) ;;
          lo <- lift (py_float lon) ;;
          al <- lift (py_float alt) ;;
          set_gps (la, lo, al)
        else ret tt
    end.

Definition build_alert_messages
  (center_hz bandwidth_hz pal ntsc : float) (source : string)
  : M (list alert_msg) :=
  st <- get ;;
  let freq_mhz := (center_hz / 1e6)%float in
  let message_list :=
    [BasicID "Serial Number (ANSI/CTA-2063-A)" ALERT_ID_PREFIX freq_mhz
       "FPV Signal"] in
  let message_list :=
    match _last_sensor_gps st with
    | Some (lat, lon, alt) =>
        message_list ++ [LocationVector lat lon alt 0.0 0.0 0.0]
    | None => message_list
    end in
  let message_list :=
    message_list ++ [SelfID ("FPV alert (" ++ source ++ ")")%string] in
  let message_list := message_list ++ [FrequencyMessage center_hz] in
  let message_list :=
    message_list ++ [SignalInfo source center_hz bandwidth_hz pal ntsc] in
  ret message_list.

(** The send is wrapped in [try ... except Exception: pass]. *)
Definition publish_alert
  (center_hz bandwidth_hz pal ntsc : float) (source : string) : M unit :=
  message_list <- build_alert_messages center_hz bandwidth_hz pal ntsc source ;;
  emit (EvPublish message_list).

(** The loop of [run_confirm] over [output.splitlines()]. *)
Fixpoint scan_lines (lines : list out_line) (max_pal max_ntsc : float)
  (skip_lines : nat) : outcome (float * float) :=
  match lines with
  | [] => Ret (max_pal, max_ntsc)
  | NotBrace :: rest => scan_lines rest max_pal max_ntsc skip_lines
  | Brace decoded :: rest =>
      match skip_lines with
      | S k => scan_lines rest max_pal max_ntsc k
      | O =>
          match decoded with
          | None => scan_lines rest max_pal max_ntsc O
          | Some data =>
              let sig := dict_get data "signal" (PyDict []) in
              obind (py_get sig "pal" (PyFloat 0.0)) (fun palv =>
              obind (py_float palv) (fun pal =>
              obind (py_get sig "ntsc" (PyFloat 0.0)) (fun ntscv =>
              obind (py_float ntscv) (fun ntsc =>
              scan_lines rest (py_max max_pal pal) (py_max max_ntsc ntsc) O))))
          end
      end
  end.

Definition parse_scores (lines : list out_line) : M confirm_result :=
  pn <- lift (scan_lines lines 0.0 0.0 2) ;;
  ret (Scores (fst pn) (snd pn)).

Definition suscli_cmd (center_hz : float) : command :=
  {| cmd_bin := SUSCLI_BIN;
     cmd_sub := "fpvdet";
     cmd_profile := SUSCLI_PROFILE;
     cmd_frequency := center_hz;
     cmd_bandwidth := SUSCLI_BANDWIDTH;
     cmd_dt := SUSCLI_DT;
     cmd_q := SUSCLI_Q;
     cmd_formatter := "json" |}.

(** The [try ... except ... else ...] around [subprocess.run]: the output
    to parse, or [None] where the function returns [(None, None)] at once. *)
Definition captured_output (proc : proc_outcome)
  : M (option (list out_line)) :=
  match proc with
  | FileNotFoundError =>
      _disable_confirm (SUSCLI_BIN ++ " not found in PATH")%string ;;
      ret None
  | SpawnError e => raise e
  | TimeoutExpired output => ret (Some output)
  | CompletedProcess returncode output unknown_command =>
      if negb (returncode =? 0)%Z && unknown_command then
        _disable_confirm "suscli fpvdet command not available" ;;
        ret None
      else ret (Some output)
  end.

(** [run_confirm] from [subprocess.run] on. *)
Definition confirm_outcome (proc : proc_outcome) : M confirm_result :=
  captured <- captured_output proc ;;
  match captured with
  | None => ret Disabled
  | Some output => parse_scores output
  end.

Definition run_confirm (center_hz : float) (proc : proc_outcome)
  : M confirm_result :=
  st <- get ;;
  match _confirm_disabled_reason st with
  | Some _ => ret Disabled
  | None =>
      emit (EvSubprocessRun (suscli_cmd center_hz) CONFIRM_SECONDS) ;;
      emit EvSubprocessEnd ;;
      confirm_outcome proc
  end.

(** The [for attempt in range(1, REOPEN_RETRIES + 1)] loop, with its
    [return] from inside and the [raise] after it. *)
Fixpoint retry_loop (th : float) (outcome_of : nat -> attempt)
  (attempts : list nat) : M InspectorScan :=
  match attempts with
  | [] => raise (RuntimeError "failed to reopen SDR after retries")
  | attempt :: rest =>
      match construct_exn (outcome_of attempt) with
      | Some e => emit (EvConstruct th false) ;; raise e
      | None =>
          emit (EvConstruct th true) ;;
          match start_exn (outcome_of attempt) with
          | None => emit (EvStart true) ;; ret {| threshold_db := th |}
          | Some (RuntimeError why) =>
              emit (EvStart false) ;;
              emit EvStop ;;
              emit EvWait ;;
              emit (EvPrint (WarnOpenFailed attempt why)) ;;
              emit (EvSleep REOPEN_DELAY_S) ;;
              retry_loop th outcome_of rest
          | Some e => emit (EvStart false) ;; raise e
          end
      end
  end.

Definition start_tb_with_retry (th : float) (outcome_of : nat -> attempt)
  : M InspectorScan :=
  retry_loop th outcome_of (seq 1 REOPEN_RETRIES).

(** The body of the inner loop of [warmup_threshold], for the channels left
    in one sweep; [k] counts the visits made so far. *)
Fixpoint warmup_sweep (probe : nat -> list float) (k : nat)
  (channels : list Z) (medians : list float) : M (nat * list float) :=
  match channels with
  | [] => ret (k, medians)
  | mhz :: rest =>
      emit (EvSetCenter (center_hz_of mhz)) ;;
      emit (EvSleep SETTLE_S) ;;
      emit (EvSleep DWELL_S) ;;
      let spectrum := probe k in
      let medians :=
        match spectrum with
        | [] => medians
        | _ :: _ =>
            match median spectrum with
            | Some m => medians ++ [m]
            | None => medians
            end
        end in
      warmup_sweep probe (S k) rest medians
  end.

Fixpoint warmup_sweeps (probe : nat -> list float) (sweeps k : nat)
  (medians : list float) : M (list float) :=
  match sweeps with
  | O => ret medians
  | S n =>
      km <- warmup_sweep probe k ALL_CENTERS_MHZ medians ;;
      warmup_sweeps probe n (fst km) (snd km)
  end.

Definition warmup_threshold (probe : nat -> list float) : M float :=
  medians <- warmup_sweeps probe WARMUP_SWEEPS 0 [] ;;
  match medians with
  | [] => ret THRESHOLD_DB
  | _ :: _ =>
      match median medians with
      | Some m => ret (m + THRESHOLD_OFFSET_DB)%float
      | None => raise (OtherError "StatisticsError")
      end
  end.

(** The branch [if signals:] once the radio is released: the confirmation,
    what is printed and published of it, and the reopening. *)
Definition confirm_and_reopen (a : args) (th : float)
  (confirm_hz confirm_bw : float) (i : visit_input) : M unit :=
  r <- run_confirm confirm_hz (confirm_proc i) ;;
  match r with
  | Disabled => emit (EvPrint (ConfirmSkipped confirm_hz))
  | Scores pal ntsc =>
      emit (EvPrint (ConfirmLine confirm_hz pal ntsc)) ;;
      (if zmq a
       then publish_alert confirm_hz confirm_bw pal ntsc "confirm"
       else ret tt) ;;
      (if debug a
       then emit (EvPrint (DebugConfirm confirm_hz confirm_bw pal ntsc))
       else ret tt)
  end ;;
  emit (EvSleep COOLDOWN_S) ;;
  t <- start_tb_with_retry th (reopen i) ;;
  set_tb (Some t).

(** The body of [if signals: ... else: ...] in [main]. *)
Definition on_report (a : args) (th : float) (mhz : Z)
  (signals : list signal) (i : visit_input) : M unit :=
  match signals with
  | [] => emit (EvPrint (NoSignalsLine mhz))
  | s0 :: others =>
      let best := max_by_bw s0 others in
      let confirm_hz := fst best in
      let confirm_bw := snd best in
      emit (EvPrint (SignalsLine mhz signals)) ;;
      (if zmq a
       then publish_alert confirm_hz confirm_bw 0.0 0.0 "energy"
       else ret tt) ;;
      emit EvStop ;;
      emit EvWait ;;
      set_tb None ;;
      emit EvGcCollect ;;
      emit (EvSleep COOLDOWN_S) ;;
      confirm_and_reopen a th confirm_hz confirm_bw i
  end.

(** One turn of [for mhz in ALL_CENTERS_MHZ]. *)
Definition visit (a : args) (sub_sock : bool) (th : float) (mhz : Z)
  (i : visit_input) : M unit :=
  let center_hz := center_hz_of mhz in
  poll_monitor_for_gps sub_sock (telemetry i) ;;
  emit (EvSetCenter center_hz) ;;
  emit (EvSleep SETTLE_S) ;;
  emit (EvSleep DWELL_S) ;;
  let signals := parse_rf_map (latest_map i) center_hz in
  on_report a th mhz signals i.

(** The channel of the [k]-th visit of [while True: for mhz in ...]. *)
Definition channel (k : nat) : Z :=
  nth (k mod List.length ALL_CENTERS_MHZ) ALL_CENTERS_MHZ 0%Z.

(** The scan loop, for as many visits as inputs are given. *)
Fixpoint scan_loop (a : args) (sub_sock : bool) (th : float) (k : nat)
  (visits : list visit_input) : M unit :=
  match visits with
  | [] => ret tt
  | i :: rest =>
      visit a sub_sock th (channel k) i ;;
      scan_loop a sub_sock th (S k) rest
  end.

(** [try: body finally: cleanup] when the body raises: the cleanup runs and
    the exception goes on.  The body is a prefix of a loop that does not end,
    so its normal end is not the end of the [try]. *)
Definition finally_ {A} (body : M A) (cleanup : M unit) : M A :=
  fun st =>
    match body st with
    | (Ret a, st1, t1) => (Ret a, st1, t1)
    | (Raise e, st1, t1) =>
        match cleanup st1 with
        | (Ret _, st2, t2) => (Raise e, st2, t1 ++ t2)
        | (Raise e', st2, t2) => (Raise e', st2, t1 ++ t2)
        end
    end.

(** The first open in [main]: no [try] around it. *)
Definition open_once (th : float) (o : attempt) : M InspectorScan :=
  match construct_exn o with
  | Some e => emit (EvConstruct th false) ;; raise e
  | None =>
      emit (EvConstruct th true) ;;
      match start_exn o with
      | None => emit (EvStart true) ;; ret {| threshold_db := th |}
      | Some e => emit (EvStart false) ;; raise e
      end
  end.

(** [main] up to its [try]: the first open, the warm-up and the reopening
    with the calibrated threshold, which it returns. *)
Definition calibrate (a : args) (s : startup) : M float :=
  let threshold_db := THRESHOLD_DB in
  t <- open_once threshold_db (first_open s) ;;
  set_tb (Some t) ;;
  if (0 <? WARMUP_SWEEPS)%nat && negb AUTO_THRESHOLD then
    th <- warmup_threshold (warmup_probe s) ;;
    (if debug a then emit (EvPrint (DebugWarmup th)) else ret tt) ;;
    emit EvStop ;;
    emit EvWait ;;
    set_tb None ;;
    emit EvGcCollect ;;
    emit (EvSleep COOLDOWN_S) ;;
    t <- start_tb_with_retry th (warmup_reopen s) ;;
    set_tb (Some t) ;;
    ret th
  else ret threshold_db.

(** The [finally] clause of [main]. *)
Definition release_on_exit : M unit :=
  st <- get ;;
  match tb st with
  | Some _ => emit EvStop ;; emit EvWait
  | None => ret tt
  end.

Definition main (a : args) (s : startup) (visits : list visit_input) : M unit :=
  threshold_db <- calibrate a s ;;
  finally_ (scan_loop a (mon_sub s) threshold_db 0 visits) release_on_exit.

End Script.

(** ** What the claims speak about *)

(** *** Reasoning about a statement: store and history before, result, store
    and history after. *)
Definition sat {A} (m : M A)
  (pre : store -> list event -> Prop)
  (post : outcome A -> store -> list event -> Prop) : Prop :=
  forall st t0,
    pre st t0 ->
    post (result_of (m st)) (store_of (m st)) (t0 ++ trace_of (m st)).

(** A property of the store and the history that a statement keeps. *)
Definition preserves {A} (inv : store -> list event -> Prop) (m : M A) : Prop :=
  sat m inv (fun _ => inv).

(** The events that are neither an alert, nor a run of the classifier, nor
    the warning of the breaker. *)
Definition quiet (e : event) : bool :=
  match e with
  | EvPublish _ => false
  | EvSubprocessRun _ _ => false
  | EvPrint (WarnConfirmDisabled _) => false
  | _ => true
  end.

(** *** The radio and the classifier along a trace *)

(** The hardware session: open from the construction of a top block until
    [stop()] and [wait()] have returned, and fully closed once the reference
    is dropped and collected. *)
Inductive hw : Type := HwClosed | HwOpen | HwStopped.

Definition hw_step (h : hw) (e : event) : hw :=
  match e with
  | EvConstruct _ true => HwOpen
  | EvWait => match h with HwOpen => HwStopped | _ => h end
  | EvGcCollect => match h with HwStopped => HwClosed | _ => h end
  | _ => h
  end.

Definition hw_after (t : list event) : hw := fold_left hw_step t HwClosed.

(** A confirmation is in progress between the entry of [subprocess.run] and
    its end. *)
Definition confirm_step (c : bool) (e : event) : bool :=
  match e with
  | EvSubprocessRun _ _ => true
  | EvSubprocessEnd => false
  | _ => c
  end.

Definition confirming_after (t : list event) : bool :=
  fold_left confirm_step t false.

Definition is_subprocess_run (e : event) : bool :=
  match e with EvSubprocessRun _ _ => true | _ => false end.

Definition is_construct (e : event) : bool :=
  match e with EvConstruct _ _ => true | _ => false end.

(** The exclusivity monitor: it refuses a classifier run while the radio is
    not fully closed or another run is in progress, and a construction of the
    top block while a run is in progress. *)
Definition mon_step (mu : hw * bool) (e : event) : option (hw * bool) :=
  match e with
  | EvSubprocessRun _ _ =>
      match mu with
      | (HwClosed, false) => Some (HwClosed, true)
      | _ => None
      end
  | EvConstruct _ _ =>
      if snd mu then None else Some (hw_step (fst mu) e, false)
  | _ => Some (hw_step (fst mu) e, confirm_step (snd mu) e)
  end.

Fixpoint mon_run (mu : hw * bool) (t : list event) : option (hw * bool) :=
  match t with
  | [] => Some mu
  | e :: r =>
      match mon_step mu e with
      | Some mu' => mon_run mu' r
      | None => None
      end
  end.

(** The events the monitor does not look at. *)
Definition silent (e : event) : Prop :=
  match e with
  | EvStart _ | EvStop | EvSetCenter _ | EvSleep _ | EvPrint _
  | EvPublish _ => True
  | _ => False
  end.

(** A statement that only makes such events. *)
Definition silent_stmt {A} (m : M A) : Prop :=
  preserves (fun _ t => Forall silent t) m.

(** From the monitor state [mu] the monitor accepts what the statement does,
    and [post] holds of the result and of the state it ends in. *)
Definition accepts {A} (m : M A) (mu : hw * bool)
  (post : outcome A -> hw * bool -> Prop) : Prop :=
  forall st,
    exists mu',
      mon_run mu (trace_of (m st)) = Some mu' /\ post (result_of (m st)) mu'.

(** After a statement of the scan: no confirmation is in progress, and the
    radio is open if the statement returned. *)
Definition scanning_again {A} (r : outcome A) (mu : hw * bool) : Prop :=
  snd mu = false /\ (forall a, r = Ret a -> fst mu = HwOpen).

(** *** The breaker along a trace *)

Definition is_disable_warning (e : event) : bool :=
  match e with EvPrint (WarnConfirmDisabled _) => true | _ => false end.

Definition warnings (t : list event) : nat :=
  List.length (filter is_disable_warning t).

Definition subprocess_runs (t : list event) : nat :=
  List.length (filter is_subprocess_run t).

(** The breaker flag and the warnings printed so far agree. *)
Definition breaker_inv (st : store) (t : list event) : Prop :=
  warnings t =
  match _confirm_disabled_reason st with Some _ => 1 | None => 0 end.

(** *** Opening the radio *)

Definition attempts_made (t : list event) : nat :=
  List.length (filter is_construct t).

Definition is_reopen_delay (e : event) : bool :=
  match e with
  | EvSleep s => PrimFloat.Leibniz.eqb s REOPEN_DELAY_S
  | _ => false
  end.

Definition reopen_delays (t : list event) : nat :=
  List.length (filter is_reopen_delay t).

(** An attempt whose constructor returns and whose [start] raises
    [RuntimeError], and the text of that error. *)
Definition start_fails (o : attempt) : bool :=
  match construct_exn o, start_exn o with
  | None, Some (RuntimeError _) => true
  | _, _ => false
  end.

Definition starts (o : attempt) : bool :=
  match construct_exn o, start_exn o with
  | None, None => true
  | _, _ => false
  end.

Definition why_of (o : attempt) : string :=
  match start_exn o with
  | Some (RuntimeError why) => why
  | _ => EmptyString
  end.

(** How many of the attempts, in order, fail before one does not. *)
Fixpoint leading_failures (outcome_of : nat -> attempt) (attempts : list nat)
  : nat :=
  match attempts with
  | [] => 0
  | k :: rest =>
      if start_fails (outcome_of k)
      then S (leading_failures outcome_of rest)
      else 0
  end.

(** What one failed attempt leaves in the trace. *)
Definition failed_attempt (th : float) (outcome_of : nat -> attempt) (k : nat)
  : list event :=
  [ EvConstruct th true; EvStart false; EvStop; EvWait;
    EvPrint (WarnOpenFailed k (why_of (outcome_of k)));
    EvSleep REOPEN_DELAY_S ].

(** *** The classifier's output *)

Definition is_brace (l : out_line) : bool :=
  match l with Brace _ => true | NotBrace => false end.

(** The decoded records: the structured lines but the first two, those that
    [json.loads] accepts. *)
Definition records (lines : list out_line) : list (list (string * pyval)) :=
  flat_map
    (fun l => match l with Brace (Some data) => [data] | _ => [] end)
    (skipn 2 (filter is_brace lines)).

(** Best of run: the largest of 0.0 and the scores, in Python's order. *)
Definition best_of (scores : list float) : float :=
  fold_left py_max scores 0%float.

(** [x] is a largest element of [l]: it is one of them and none is greater. *)
Definition is_max (x : float) (l : list float) : Prop :=
  In x l /\ forall y, In y l -> (x <? y)%float = false.

(** A classifier run that is neither a success nor one of the two signals
    that disable confirmation: a time-out, or a non-zero exit status without
    the unknown-command text. *)
Definition inconclusive (p : proc_outcome) : bool :=
  match p with
  | TimeoutExpired _ => true
  | CompletedProcess returncode _ unknown_command =>
      negb (returncode =? 0)%Z && negb unknown_command
  | _ => false
  end.

Definition stdout_of (p : proc_outcome) : list out_line :=
  match p with
  | TimeoutExpired out => out
  | CompletedProcess _ out _ => out
  | _ => []
  end.

(** The process ran to an end that does not disable confirmation, so that
    its output is parsed: a time-out, or an exit that is not a non-zero
    status with the unknown-command text. *)
Definition output_is_parsed (p : proc_outcome) : bool :=
  match p with
  | TimeoutExpired _ => true
  | CompletedProcess returncode _ unknown_command =>
      negb (negb (returncode =? 0)%Z && unknown_command)
  | _ => false
  end.

(** The two scores of a decoded record, as the loop reads them. *)
Definition pal_of (float_of_str : string -> option float)
  (data : list (string * pyval)) : outcome float :=
  obind (py_get (dict_get data "signal" (PyDict [])) "pal" (PyFloat 0.0))
        (py_float float_of_str).

Definition ntsc_of (float_of_str : string -> option float)
  (data : list (string * pyval)) : outcome float :=
  obind (py_get (dict_get data "signal" (PyDict [])) "ntsc" (PyFloat 0.0))
        (py_float float_of_str).

(** A record whose signal is an object, or absent, and whose scores are
    numbers, or absent. *)
Definition well_formed_record (float_of_str : string -> option float)
  (data : list (string * pyval)) : Prop :=
  (exists p, pal_of float_of_str data = Ret p) /\
  (exists n, ntsc_of float_of_str data = Ret n).

Definition scores_with (score : list (string * pyval) -> outcome float)
  (rs : list (list (string * pyval))) : list float :=
  flat_map (fun d => match score d with Ret x => [x] | Raise _ => [] end) rs.

(** The observed scores of a run. *)
Definition pal_scores (float_of_str : string -> option float)
  (lines : list out_line) : list float :=
  scores_with (pal_of float_of_str) (records lines).

Definition ntsc_scores (float_of_str : string -> option float)
  (lines : list out_line) : list float :=
  scores_with (ntsc_of float_of_str) (records lines).

(** *** The calibration, in the words of the specification: the median of
    the recorded per-channel medians plus the offset, or the default. *)
Definition recorded_medians (spectra : list (list float)) : list float :=
  flat_map
    (fun spectrum =>
       match spectrum with
       | [] => []
       | _ :: _ => match median spectrum with Some m => [m] | None => [] end
       end)
    spectra.

Definition calibrated_threshold (spectra : list (list float)) : float :=
  match median (recorded_medians spectra) with
  | Some m => (m + 6.0)%float
  | None => (-90.0)%float
  end.

(** *** The detection report, in the words of the specification *)
Definition detection_report (rows : list rf_row) (center_hz : float)
  : list signal :=
  map (fun row => ((center_hz + fst row)%float, snd row))
      (filter (fun row => (4.0e6 <=? snd row)%float) rows).

(** *** Alerts *)

Definition published (t : list event) : list (list alert_msg) :=
  flat_map (fun e => match e with EvPublish a => [a] | _ => [] end) t.

(** The Signal Info parts of an alert. *)
Definition signal_infos (alert : list alert_msg)
  : list (string * float * float * float * float) :=
  flat_map
    (fun m =>
       match m with
       | SignalInfo source c b p n => [(source, c, b, p, n)]
       | _ => []
       end)
    alert.

(** An alert of the energy stage carries the two zero scores. *)
Definition energy_scores_zero (alert : list alert_msg) : Prop :=
  forall c b p n,
    In ("energy"%string, c, b, p, n) (signal_infos alert) ->
    p = 0%float /\ n = 0%float.

(** An alert about one signal, from one stage. *)
Definition alert_about (s : signal) (alert : list alert_msg) : Prop :=
  exists source p n,
    signal_infos alert = [(source, fst s, snd s, p, n)].

(** An event that acts on a signal acts on [s]: a run of the classifier is
    on its frequency, an alert is about it. *)
Definition acts_on (s : signal) (e : event) : Prop :=
  match e with
  | EvSubprocessRun cmd _ => cmd = suscli_cmd (fst s)
  | EvPublish alert => alert_about s alert
  | _ => True
  end.

(** ** What the further properties speak about *)

(** *** The position *)

(** A latitude and a longitude in their ranges. *)
Definition in_range (la lo : float) : bool :=
  (((-90.0 <=? la) && (la <=? 90.0)) &&
   ((-180.0 <=? lo) && (lo <=? 180.0)))%float.

(** An integer too large for a float: [float] raises [OverflowError] on it. *)
Definition overflows (v : pyval) : bool :=
  match v with
  | PyInt z => is_infinity (Z_to_float z)
  | _ => false
  end.

(** *** The classifier run *)

(** The loop of [run_confirm] on the decoded records alone. *)
Fixpoint scan_records (float_of_str : string -> option float)
  (rs : list (list (string * pyval))) (max_pal max_ntsc : float)
  : outcome (float * float) :=
  match rs with
  | [] => Ret (max_pal, max_ntsc)
  | data :: rest =>
      obind (pal_of float_of_str data) (fun pal =>
      obind (ntsc_of float_of_str data) (fun ntsc =>
      scan_records float_of_str rest
        (py_max max_pal pal) (py_max max_ntsc ntsc)))
  end.

(** The exception that a record makes the loop raise, if any: of its PAL
    score first, then of its NTSC score. *)
Definition record_error (float_of_str : string -> option float)
  (data : list (string * pyval)) : option exn :=
  match pal_of float_of_str data with
  | Raise e => Some e
  | Ret _ =>
      match ntsc_of float_of_str data with
      | Raise e => Some e
      | Ret _ => None
      end
  end.

(** The conditions on which [run_confirm] disables confirmation. *)
Definition trips_breaker (proc : proc_outcome) : bool :=
  match proc with
  | FileNotFoundError => true
  | CompletedProcess returncode _ unknown_command =>
      negb (returncode =? 0)%Z && unknown_command
  | _ => false
  end.

(** *** The sweeps and the reopening *)

(** What one stop of a sweep does to the radio: tune, settle, dwell. *)
Definition tune_and_wait (mhz : Z) : list event :=
  [EvSetCenter (center_hz_of mhz); EvSleep SETTLE_S; EvSleep DWELL_S].

(** An attempt that ends the reopening with an exception of its own: the
    constructor raises, or [start] raises something else than
    [RuntimeError].  With the exception, what the attempt leaves in the
    trace. *)
Definition gives_up (th : float) (o : attempt) : option (exn * list event) :=
  match construct_exn o with
  | Some e => Some (e, [EvConstruct th false])
  | None =>
      match start_exn o with
      | None => None
      | Some (RuntimeError _) => None
      | Some e => Some (e, [EvConstruct th true; EvStart false])
      end
  end.

(** The frequencies that the radio was tuned to, in order. *)
Definition tuned (t : list event) : list float :=
  flat_map (fun e => match e with EvSetCenter hz => [hz] | _ => [] end) t.

(** The frequencies of the warm-up. *)
Definition warmup_plan : list float :=
  map center_hz_of (List.concat (repeat ALL_CENTERS_MHZ WARMUP_SWEEPS)).

(** The frequencies of the visits [k], ..., [k + n - 1] of the scan loop. *)
Definition scan_plan (k n : nat) : list float :=
  map (fun j => center_hz_of (channel j)) (seq k n).

(** *** The threshold of the detector *)

(** The thresholds that the top blocks were built with, in order. *)
Definition built_with (t : list event) : list float :=
  flat_map (fun e => match e with EvConstruct th _ => [th] | _ => [] end) t.

(** The first top block was built with the default threshold and the later
    ones with [th]. *)
Definition calibrated_from (th : float) (_ : store) (t : list event) : Prop :=
  exists later, built_with t = THRESHOLD_DB :: later /\ Forall (eq th) later.

(** *** The lines and the alerts *)

(** The debug lines. *)
Definition is_debug_line (l : line_out) : bool :=
  match l with
  | DebugWarmup _ | DebugConfirm _ _ _ _ => true
  | _ => false
  end.

(** The Location part of an alert, if it has one: the position is one that
    passed the check, and the height and the speeds are 0.0. *)
Definition location_part_ok (loc : list alert_msg) : Prop :=
  loc = [] \/
  exists la lo al,
    loc = [LocationVector la lo al 0.0 0.0 0.0] /\ in_range la lo = true.

(** The scores of an alert, for its stage. *)
Definition scores_ok (source : string) (pal ntsc : float) : Prop :=
  (source = "energy"%string /\ pal = 0.0%float /\ ntsc = 0.0%float) \/
  (source = "confirm"%string /\
   (0 <=? pal)%float = true /\ (0 <=? ntsc)%float = true).

(** An alert as a subscriber can rely on it. *)
Definition alert_ok (alert : list alert_msg) : Prop :=
  exists loc source center_hz bandwidth_hz pal ntsc,
    alert =
      BasicID "Serial Number (ANSI/CTA-2063-A)" ALERT_ID_PREFIX
        (center_hz / 1e6) "FPV Signal"
      :: loc
      ++ [ SelfID ("FPV alert (" ++ source ++ ")");
           FrequencyMessage center_hz;
           SignalInfo source center_hz bandwidth_hz pal ntsc ] /\
    location_part_ok loc /\
    (MIN_BW_HZ <=? bandwidth_hz)%float = true /\
    scores_ok source pal ntsc.

(** The position of the sensor, if one is known, passed the check. *)
Definition position_ok (st : store) : Prop :=
  match _last_sensor_gps st with
  | Some (la, lo, _) => in_range la lo = true
  | None => True
  end.

Definition is_location (m : alert_msg) : bool :=
  match m with LocationVector _ _ _ _ _ _ => true | _ => false end.

(** The alert has a Location part. *)
Definition has_location (alert : list alert_msg) : bool :=
  existsb is_location alert.

(** An event that is not an alert; an event that is not a debug line. *)
Definition not_publish (e : event) : Prop :=
  match e with EvPublish _ => False | _ => True end.

Definition not_debug (e : event) : Prop :=
  match e with EvPrint l => is_debug_line l = false | _ => True end.

(** In a sequence of alerts, each confirm alert comes right after the energy
    alert of the same signal. *)
Definition confirm_follows_energy (alerts : list (list alert_msg)) : Prop :=
  forall before alert after c b pal ntsc,
    alerts = before ++ alert :: after ->
    signal_infos alert = [("confirm"%string, c, b, pal, ntsc)] ->
    exists before' energy,
      before = before' ++ [energy] /\
      signal_infos energy = [("energy"%string, c, b, 0.0%float, 0.0%float)].

(** The alert published last is the energy alert of the signal [s]. *)
Definition energy_is_last (s : signal) (alerts : list (list alert_msg))
  : Prop :=
  exists before energy,
    alerts = before ++ [energy] /\
    signal_infos energy
    = [("energy"%string, fst s, snd s, 0.0%float, 0.0%float)].

(** The history is in order, and its last alert is the energy alert of [s]. *)
Definition awaiting (s : signal) (_ : store) (t : list event) : Prop :=
  confirm_follows_energy (published t) /\ energy_is_last s (published t).

Definition in_order (_ : store) (t : list event) : Prop :=
  confirm_follows_energy (published t).

(** *** The life cycle of the flow graph

    A top block is built and started while none runs; the radio is tuned
    while one runs; a running block is stopped, then waited for; the
    reference is dropped and collected when none runs.  [stop] and [wait] on
    a block that did not start change nothing. *)
Inductive phase : Type := Idle | Running | Stopping.

Definition life_step (q : phase) (e : event) : option phase :=
  match e with
  | EvConstruct _ _ =>
      match q with Idle => Some Idle | _ => None end
  | EvStart ok =>
      match q with
      | Idle => Some (if ok then Running else Idle)
      | _ => None
      end
  | EvSetCenter _ =>
      match q with Running => Some Running | _ => None end
  | EvStop =>
      match q with
      | Running => Some Stopping
      | Idle => Some Idle
      | Stopping => None
      end
  | EvWait =>
      match q with
      | Stopping => Some Idle
      | Idle => Some Idle
      | Running => None
      end
  | EvGcCollect =>
      match q with Idle => Some Idle | _ => None end
  | _ => Some q
  end.

Fixpoint life_run (q : phase) (t : list event) : option phase :=
  match t with
  | [] => Some q
  | e :: r =>
      match life_step q e with
      | Some q' => life_run q' r
      | None => None
      end
  end.

(** The history is one of the life cycle and has led to the phase [q], and
    [tb] is as [p] says. *)
Definition in_phase (q : phase) (p : option InspectorScan -> Prop)
  (st : store) (t : list event) : Prop :=
  life_run Idle t = Some q /\ p (tb st).

(** Opening the radio: from no block running to a running block, or to none
    if the opening raises. *)
Definition opened {A} (p : option InspectorScan -> Prop) (r : outcome A)
  (st : store) (t : list event) : Prop :=
  match r with
  | Ret _ => in_phase Running p st t
  | Raise _ => in_phase Idle p st t
  end.

(** After a visit of the scan loop: the radio runs and [tb] holds it, or, if
    the visit raised, no block runs and [tb] holds none. *)
Definition scanning_or_released {A} (r : outcome A) (st : store)
  (t : list event) : Prop :=
  match r with
  | Ret _ => in_phase Running (fun o => o <> None) st t
  | Raise _ =>
      in_phase Running (fun o => o <> None) st t \/
      in_phase Idle (fun o => o = None) st t
  end.

(** After the radio was released for a confirmation: it runs again and [tb]
    holds it, or no block runs and [tb] holds none. *)
Definition reopened {A} (r : outcome A) (st : store) (t : list event)
  : Prop :=
  match r with
  | Ret _ => in_phase Running (fun o => o <> None) st t
  | Raise _ => in_phase Idle (fun o => o = None) st t
  end.

(** ** Inputs used in the examples *)

(** No string is a numeral. *)
Definition no_numerals : string -> option float := fun _ => None.

(** A header line of the classifier, and a record line
    [{'signal': {'pal': pal, 'ntsc': ntsc}}]. *)
Definition header_line : out_line := Brace (Some []).

Definition record_line (pal ntsc : float) : out_line :=
  Brace (Some [("signal"%string,
                PyDict [("pal"%string, PyFloat pal);
                        ("ntsc"%string, PyFloat ntsc)])]).

(** A telemetry message [{'lat': lat, 'lon': lon, 'alt': alt}]. *)
Definition gps_message (lat lon alt : pyval) : recv_result :=
  RecvMsg (Some (PyDict [("lat"%string, lat); ("lon"%string, lon);
                         ("alt"%string, alt)])).

(** A telemetry message whose altitude is null:
    [{'lat': 45.0, 'lon': -120.0, 'alt': null}]. *)
Definition null_alt_message : recv_result :=
  gps_message (PyFloat 45.0) (PyFloat (-120.0)) PyNone.

Definition null_alt_visit : visit_input :=
  {| telemetry := null_alt_message;
     latest_map := None;
     confirm_proc := FileNotFoundError;
     reopen := fun _ => attempt_ok |}.

(** An attempt whose [start] raises [RuntimeError]. *)
Definition attempt_busy : attempt :=
  {| construct_exn := None; start_exn := Some (RuntimeError "device busy") |}.

(** The scores of the specification's example. *)
Definition example_output : list out_line :=
  [ header_line; header_line;
    record_line 0.2 0.1; record_line 0.9 0.1; record_line 0.4 0.8 ]%float.

(** A run whose only record has negative scores. *)
Definition negative_output : list out_line :=
  [ header_line; header_line; record_line (-0.5) (-0.25) ]%float.

(** The detection report of the specification's example, on 5805 MHz:
    offsets 0.2 MHz and 0.5 MHz, bandwidths 4.2 MHz and 6.0 MHz. *)
Definition example_map : list rf_row :=
  [ (0.2e6, 4.2e6); (0.5e6, 6.0e6) ]%float.

Definition example_visit : visit_input :=
  {| telemetry := gps_message (PyFloat 45.0) (PyFloat (-120.0)) (PyFloat 100.0);
     latest_map := Some example_map;
     confirm_proc := TimeoutExpired example_output;
     reopen := fun _ => attempt_ok |}.

(** A warm-up in which three channels give a spectrum, of medians -95, -93
    and -94, and the others none. *)
Definition example_probe (k : nat) : list float :=
  match k with
  | 0 => [-95.0]
  | 1 => [-93.0; -92.0; -99.0]
  | 2 => [-94.0]
  | _ => []
  end%float.

Definition example_startup : startup :=
  {| mon_sub := true;
     first_open := attempt_ok;
     warmup_probe := example_probe;
     warmup_reopen := fun _ => attempt_ok |}.

Definition example_args : args := {| zmq := true; debug := false |}.

(** A start-up at which the radio is busy. *)
Definition busy_startup : startup :=
  {| mon_sub := true;
     first_open := attempt_busy;
     warmup_probe := example_probe;
     warmup_reopen := fun _ => attempt_ok |}.

(** A radio that is busy for the first two attempts to reopen it. *)
Definition busy_twice (k : nat) : attempt :=
  if (k <=? 2)%nat then attempt_busy else attempt_ok.

(** The run of the examples: start-up, warm-up and one visit, which is of
    the first channel of the plan, 4990 MHz. *)
Definition example_trace : list event :=
  trace_of (main no_numerals example_args example_startup [example_visit]
              init_store).

(** The energy alert of that visit. *)
Definition example_energy_alert : list alert_msg :=
  [ BasicID "Serial Number (ANSI/CTA-2063-A)" ALERT_ID_PREFIX 4990.5
      "FPV Signal";
    LocationVector 45.0 (-120.0) 100.0 0.0 0.0 0.0;
    SelfID "FPV alert (energy)";
    FrequencyMessage 4990.5e6;
    SignalInfo "energy" 4990.5e6 6.0e6 0.0 0.0 ]%float.

(** A store in which the radio is open and the breaker is not set. *)
Definition scanning_store : store :=
  {| _last_sensor_gps := None;
     _confirm_disabled_reason := None;
     tb := Some {| threshold_db := (-88.0)%float |} |}.

(** A store in which the breaker is set. *)
Definition disabled_store : store :=
  {| _last_sensor_gps := None;
     _confirm_disabled_reason := Some "suscli not found in PATH"%string;
     tb := None |}.

(** A radio that is busy twice and then gone: the constructor raises. *)
Definition busy_then_gone (k : nat) : attempt :=
  if (k <=? 2)%nat then attempt_busy
  else {| construct_exn := Some (RuntimeError "no device");
          start_exn := None |}.

(** The confirm alert of the visit of the example run. *)
Definition example_confirm_alert : list alert_msg :=
  [ BasicID "Serial Number (ANSI/CTA-2063-A)" ALERT_ID_PREFIX 4990.5
      "FPV Signal";
    LocationVector 45.0 (-120.0) 100.0 0.0 0.0 0.0;
    SelfID "FPV alert (confirm)";
    FrequencyMessage 4990.5e6;
    SignalInfo "confirm" 4990.5e6 6.0e6 0.9 0.8 ]%float.

(** * Proofs *)

(** ** Running a statement *)

Lemma bind_run_ret {A B} (m : M A) (f : A -> M B) st a st1 t1 :
  m st = (Ret a, st1, t1) ->
  bind m f st =
  (result_of (f a st1), store_of (f a st1), t1 ++ trace_of (f a st1)).
Proof.
  intros H. unfold bind, result_of, store_of, trace_of. rewrite H.
  destruct (f a st1) as [[r st2] t2]. reflexivity.
Qed.

Lemma bind_run_raise {A B} (m : M A) (f : A -> M B) st e st1 t1 :
  m st = (Raise e, st1, t1) ->
  bind m f st = (Raise e, st1, t1).
Proof. intros H. unfold bind. rewrite H. reflexivity. Qed.

(** ** The detection report (parse_rf_map) *)

Lemma parse_rf_map_loop (rows : list rf_row) (center_hz : float) :
  forall acc,
    fold_left
      (fun signals row =>
         if (MIN_BW_HZ <=? snd row)%float
         then signals ++ [((center_hz + fst row)%float, snd row)]
         else signals)
      rows acc
    = acc ++ detection_report rows center_hz.
Proof.
  induction rows as [|row rows IH]; intros acc; simpl.
  - now rewrite app_nil_r.
  - rewrite IH. unfold detection_report. simpl.
    change 4.0e6%float with MIN_BW_HZ.
    destruct (MIN_BW_HZ <=? snd row)%float; simpl.
    + now rewrite <- app_assoc.
    + reflexivity.
Qed.

Lemma parse_rf_map_some (rows : list rf_row) (center_hz : float) :
  parse_rf_map (Some rows) center_hz = detection_report rows center_hz.
Proof. unfold parse_rf_map. now rewrite parse_rf_map_loop. Qed.

Lemma in_detection_report rows center_hz hz bw :
  In (hz, bw) (detection_report rows center_hz) <->
  exists off,
    In (off, bw) rows /\ hz = (center_hz + off)%float /\
    (MIN_BW_HZ <=? bw)%float = true.
Proof.
  unfold detection_report. rewrite in_map_iff. split.
  - intros [[off bw'] [Heq Hin]]. simpl in Heq. inversion Heq; subst.
    apply filter_In in Hin. destruct Hin as [Hin Hbw]. exists off. auto.
  - intros [off [Hin [Hhz Hbw]]]. exists (off, bw). split.
    + simpl. now subst.
    + apply filter_In. auto.
Qed.

Lemma detection_report_bandwidth msg center_hz s :
  In s (parse_rf_map msg center_hz) -> (MIN_BW_HZ <=? snd s)%float = true.
Proof.
  destruct msg as [rows|]; [|intros []].
  rewrite parse_rf_map_some. destruct s as [hz bw].
  rewrite in_detection_report. intros [off [_ [_ H]]]. exact H.
Qed.

(** C8.  The report that [parse_rf_map] returns holds exactly the reported
    pairs whose bandwidth is at least the minimum of 4 MHz, in their order,
    each with the channel centre added to its offset: a pair below the
    minimum is never returned, and with no message from the detector the
    report is empty.  The function is total: it never raises. *)
Theorem parse_rf_map_filters_and_shifts :
  forall (msg : option (list rf_row)) (center_hz : float),
    MIN_BW_HZ = 4.0e6%float /\
    parse_rf_map None center_hz = [] /\
    (forall rows,
        parse_rf_map (Some rows) center_hz = detection_report rows center_hz) /\
    (forall hz bw,
        In (hz, bw) (parse_rf_map msg center_hz) <->
        exists rows off,
          msg = Some rows /\ In (off, bw) rows /\
          hz = (center_hz + off)%float /\ (MIN_BW_HZ <=? bw)%float = true) /\
    (forall s,
        In s (parse_rf_map msg center_hz) ->
        (MIN_BW_HZ <=? snd s)%float = true).
Proof.
  intros msg center_hz.
  assert (Hiff : forall hz bw,
             In (hz, bw) (parse_rf_map msg center_hz) <->
             exists rows off,
               msg = Some rows /\ In (off, bw) rows /\
               hz = (center_hz + off)%float /\
               (MIN_BW_HZ <=? bw)%float = true).
  { intros hz bw. destruct msg as [rows|].
    - rewrite parse_rf_map_some, in_detection_report. split.
      + intros [off H]. exists rows, off. tauto.
      + intros [rows' [off [Heq H]]]. inversion Heq; subst. exists off. tauto.
    - simpl. split; [tauto|]. intros [rows [off [Heq _]]]. discriminate. }
  repeat split.
  - intros rows. apply parse_rf_map_some.
  - apply Hiff.
  - apply Hiff.
  - intros [hz bw] Hin. apply Hiff in Hin.
    destruct Hin as [rows [off [_ [_ [_ Hbw]]]]]. exact Hbw.
Qed.

(** ** The median and the calibration (warmup_threshold) *)

Lemma insert_sorted_length x l :
  List.length (insert_sorted x l) = S (List.length l).
Proof.
  induction l as [|y r IH]; simpl; [reflexivity|].
  destruct (x <? y)%float; simpl; [reflexivity|]. now rewrite IH.
Qed.

Lemma sorted_loop_length data :
  forall acc,
    List.length (fold_left (fun acc x => insert_sorted x acc) data acc)
    = (List.length data + List.length acc)%nat.
Proof.
  induction data as [|x data IH]; intros acc; simpl; [reflexivity|].
  rewrite IH, insert_sorted_length. lia.
Qed.

Lemma sorted_length data : List.length (sorted data) = List.length data.
Proof. unfold sorted. rewrite sorted_loop_length. simpl. lia. Qed.

Lemma insert_sorted_perm x l : Permutation (x :: l) (insert_sorted x l).
Proof.
  induction l as [|y r IH]; simpl; [reflexivity|].
  destruct (x <? y)%float; [reflexivity|].
  rewrite perm_swap. now apply perm_skip.
Qed.

Lemma sorted_loop_perm data :
  forall acc,
    Permutation (data ++ acc)
                (fold_left (fun acc x => insert_sorted x acc) data acc).
Proof.
  induction data as [|x data IH]; intros acc; simpl; [reflexivity|].
  rewrite <- IH. rewrite <- insert_sorted_perm.
  apply Permutation_middle.
Qed.

(** The sort keeps the elements. *)
Lemma sorted_perm data : Permutation data (sorted data).
Proof.
  unfold sorted. rewrite <- sorted_loop_perm. now rewrite app_nil_r.
Qed.

Lemma median_nil : median [] = None.
Proof. reflexivity. Qed.

(** On a non-empty list the median is defined. *)
Lemma median_defined data :
  data <> [] -> exists m, median data = Some m.
Proof.
  intros Hne. unfold median.
  pose proof (sorted_length data) as Hlen.
  destruct data as [|x data]; [congruence|].
  set (s := sorted (x :: data)) in *.
  simpl in Hlen.
  destruct (List.length s =? 0)%nat eqn:Hz.
  - apply Nat.eqb_eq in Hz. lia.
  - destruct (Nat.odd (List.length s)).
    + destruct (nth_error s (List.length s / 2)) eqn:Hn; [eauto|].
      apply nth_error_None in Hn.
      assert (List.length s / 2 < List.length s)%nat
        by (apply Nat.div_lt; lia).
      lia.
    + eauto.
Qed.

Lemma warmup_sweep_run (probe : nat -> list float) :
  forall chans k medians st,
    warmup_sweep probe k chans medians st =
    (Ret ((k + List.length chans)%nat,
          medians ++ recorded_medians (map probe (seq k (List.length chans)))),
     st,
     flat_map
       (fun mhz =>
          [EvSetCenter (center_hz_of mhz); EvSleep SETTLE_S; EvSleep DWELL_S])
       chans).
Proof.
  induction chans as [|mhz rest IH]; intros k medians st.
  - simpl. unfold ret. now rewrite Nat.add_0_r, app_nil_r.
  - cbn [warmup_sweep List.length seq map flat_map].
    unfold bind at 1 2 3. unfold emit. rewrite IH.
    cbn [app]. rewrite Nat.add_succ_r. cbn [Nat.add].
    do 3 f_equal.
    unfold recorded_medians at 2. cbn [flat_map].
    fold (recorded_medians (map probe (seq (S k) (List.length rest)))).
    destruct (probe k) as [|x xs]; [reflexivity|].
    destruct (median (x :: xs)); [|reflexivity].
    now rewrite <- app_assoc.
Qed.

Lemma recorded_medians_app l1 l2 :
  recorded_medians (l1 ++ l2) = recorded_medians l1 ++ recorded_medians l2.
Proof. unfold recorded_medians. apply flat_map_app. Qed.

Lemma warmup_sweeps_run (probe : nat -> list float) (n : nat) :
  n = List.length ALL_CENTERS_MHZ ->
  forall sweeps k medians st,
    result_of (warmup_sweeps probe sweeps k medians st) =
      Ret (medians ++ recorded_medians (map probe (seq k (sweeps * n)))) /\
    store_of (warmup_sweeps probe sweeps k medians st) = st.
Proof.
  intros Hn.
  induction sweeps as [|sweeps IH]; intros k medians st.
  - simpl. now rewrite app_nil_r.
  - cbn [warmup_sweeps].
    rewrite (bind_run_ret _ _ _ _ _ _ (warmup_sweep_run probe _ _ _ _)).
    cbn [result_of store_of fst snd]. rewrite <- Hn.
    destruct (IH (k + n)%nat
                 (medians ++ recorded_medians (map probe (seq k n))) st)
      as [Hr Hs].
    split; [|exact Hs].
    rewrite Hr.
    replace (S sweeps * n)%nat with (n + sweeps * n)%nat by lia.
    rewrite seq_app, map_app, recorded_medians_app, app_assoc.
    reflexivity.
Qed.

Lemma warmup_threshold_run (probe : nat -> list float) (st : store) :
  let spectra :=
    map probe (seq 0 (WARMUP_SWEEPS * List.length ALL_CENTERS_MHZ)) in
  result_of (warmup_threshold probe st) = Ret (calibrated_threshold spectra) /\
  store_of (warmup_threshold probe st) = st.
Proof.
  intros spectra. unfold warmup_threshold.
  destruct (warmup_sweeps_run probe _ eq_refl WARMUP_SWEEPS 0 [] st)
    as [Hr Hs].
  change ([] ++ ?x) with x in Hr. fold spectra in Hr.
  unfold bind.
  destruct (warmup_sweeps probe WARMUP_SWEEPS 0 [] st) as [[r st1] t1].
  unfold result_of, store_of in *. cbn [fst snd] in *. subst.
  unfold calibrated_threshold.
  destruct (recorded_medians spectra) as [|m ms] eqn:Hm.
  - rewrite median_nil. split; reflexivity.
  - destruct (median_defined (m :: ms)) as [x Hx]; [discriminate|].
    rewrite Hx. split; reflexivity.
Qed.

(** C6.  The threshold that the warm-up returns is the median of the
    recorded per-channel medians plus 6.0 dB, a channel whose spectrum is
    empty being left out, and the default of -90.0 dB when no median was
    recorded; medians -95, -93 and -94 give -88.0.  The spectra are those
    read at the visits of the warm-up sweeps, in order. *)
Theorem warmup_threshold_is_median_plus_offset :
  forall (probe : nat -> list float) (st : store),
    let spectra :=
      map probe (seq 0 (WARMUP_SWEEPS * List.length ALL_CENTERS_MHZ)) in
    let medians := recorded_medians spectra in
    result_of (warmup_threshold probe st) = Ret (calibrated_threshold spectra) /\
    store_of (warmup_threshold probe st) = st /\
    THRESHOLD_OFFSET_DB = 6.0%float /\
    THRESHOLD_DB = (-90.0)%float /\
    (medians = [] -> calibrated_threshold spectra = (-90.0)%float) /\
    (medians <> [] ->
     exists m, median medians = Some m /\
               calibrated_threshold spectra = (m + 6.0)%float) /\
    median [-95.0; -93.0; -94.0]%float = Some (-94.0)%float /\
    recorded_medians (map example_probe (seq 0 3))
      = [-95.0; -93.0; -94.0]%float /\
    result_of (warmup_threshold example_probe st) = Ret (-88.0)%float.
Proof.
  intros probe st spectra medians.
  destruct (warmup_threshold_run probe st) as [Hr Hs].
  split; [exact Hr|]. split; [exact Hs|].
  split; [reflexivity|]. split; [reflexivity|].
  split; [|split; [|split; [|split]]].
  - intros Hm. unfold calibrated_threshold. fold medians. now rewrite Hm.
  - intros Hm. destruct (median_defined medians Hm) as [m Hmed].
    exists m. split; [assumption|].
    unfold calibrated_threshold. fold medians. now rewrite Hmed.
  - vm_compute. reflexivity.
  - vm_compute. reflexivity.
  - destruct (warmup_threshold_run example_probe st) as [Hr' _].
    rewrite Hr'. vm_compute. reflexivity.
Qed.

(** ** The order of the floats

    [x <? y] is the comparison of the interpreter; it is irreflexive and
    transitive on all floats, NaN included (which is below and above
    nothing). *)

Lemma SFcompare_not_lt_refl x : SFcompare x x <> Some Lt.
Proof.
  destruct x as [s|s| |s m e]; simpl; try destruct s; try discriminate;
    rewrite Z.compare_refl;
    change (PosDef.Pos.compare_cont Eq m m) with (Pos.compare m m);
    rewrite Pos.compare_refl; discriminate.
Qed.

Lemma SFcompare_lt_trans x y z :
  SFcompare x y = Some Lt -> SFcompare y z = Some Lt ->
  SFcompare x z = Some Lt.
Proof.
  destruct x as [sx|sx| |sx mx ex], y as [sy|sy| |sy my ey],
           z as [sz|sz| |sz mz ez];
    simpl; try discriminate;
    try destruct sx; try destruct sy; try destruct sz;
    try discriminate; try reflexivity.
  all: change (PosDef.Pos.compare_cont Eq mx my) with (Pos.compare mx my);
       change (PosDef.Pos.compare_cont Eq my mz) with (Pos.compare my mz);
       change (PosDef.Pos.compare_cont Eq mx mz) with (Pos.compare mx mz).
  all: destruct (Z.compare_spec ex ey), (Z.compare_spec ey ez);
       try discriminate;
       destruct (Z.compare_spec ex ez); try lia; try reflexivity.
  all: destruct (Pos.compare_spec mx my), (Pos.compare_spec my mz);
       cbn [CompOpp]; try discriminate;
       destruct (Pos.compare_spec mx mz); cbn [CompOpp];
       try reflexivity; intros _ _; lia.
Qed.

Lemma SFcompare_antisym x y :
  SFcompare y x = option_map CompOpp (SFcompare x y).
Proof.
  destruct x as [sx|sx| |sx mx ex], y as [sy|sy| |sy my ey];
    simpl; try destruct sx; try destruct sy; try reflexivity.
  all: change (PosDef.Pos.compare_cont Eq mx my) with (Pos.compare mx my);
       change (PosDef.Pos.compare_cont Eq my mx) with (Pos.compare my mx).
  all: rewrite (Z.compare_antisym ex ey), (Pos.compare_antisym mx my).
  all: destruct (ex ?= ey)%Z, (mx ?= my)%positive; reflexivity.
Qed.

Lemma SFcompare_defined x y c :
  SFcompare x y = Some c -> x <> S754_nan /\ y <> S754_nan.
Proof.
  destruct x, y; simpl; intros H; try discriminate; split; discriminate.
Qed.

Lemma SFcompare_total x y :
  x <> S754_nan -> y <> S754_nan -> exists c, SFcompare x y = Some c.
Proof.
  destruct x, y; simpl; intros Hx Hy; try congruence; eauto.
Qed.

Lemma ltb_irrefl x : (x <? x)%float = false.
Proof.
  rewrite ltb_spec. unfold SFltb.
  pose proof (SFcompare_not_lt_refl (Prim2SF x)) as H.
  destruct (SFcompare (Prim2SF x) (Prim2SF x)) as [[]|]; congruence.
Qed.

Lemma ltb_trans x y z :
  (x <? y)%float = true -> (y <? z)%float = true -> (x <? z)%float = true.
Proof.
  rewrite !ltb_spec. unfold SFltb. intros H1 H2.
  rewrite (SFcompare_lt_trans (Prim2SF x) (Prim2SF y) (Prim2SF z)); auto.
  - destruct (SFcompare (Prim2SF x) (Prim2SF y)) as [[]|]; congruence.
  - destruct (SFcompare (Prim2SF y) (Prim2SF z)) as [[]|]; congruence.
Qed.

(** Among floats that some float is below or equal to (so none is NaN),
    [not (y < x)] is [x <= y]. *)
Lemma leb_of_not_ltb a x y :
  (a <=? x)%float = true -> (a <=? y)%float = true ->
  (y <? x)%float = false -> (x <=? y)%float = true.
Proof.
  rewrite !leb_spec, ltb_spec. unfold SFleb, SFltb. intros Hx Hy Hlt.
  assert (Nx : Prim2SF x <> S754_nan).
  { destruct (SFcompare (Prim2SF a) (Prim2SF x)) eqn:E; [|discriminate].
    now apply SFcompare_defined in E. }
  assert (Ny : Prim2SF y <> S754_nan).
  { destruct (SFcompare (Prim2SF a) (Prim2SF y)) eqn:E; [|discriminate].
    now apply SFcompare_defined in E. }
  destruct (SFcompare_total _ _ Nx Ny) as [c Hc].
  rewrite (SFcompare_antisym (Prim2SF x) (Prim2SF y)), Hc in Hlt.
  rewrite Hc. destruct c; simpl in *; congruence.
Qed.

(** ** Taking the largest, as Python's [max] does *)

Section MaxByKey.

Variable A : Type.
Variable key : A -> float.

Lemma fold_pick_in (l : list A) :
  forall a, In (fold_left (pick key) l a) (a :: l).
Proof.
  induction l as [|x l IH]; intros a; simpl; [now left|].
  destruct (IH (pick key a x)) as [H|H]; [|auto].
  rewrite <- H. unfold pick. destruct (key a <? key x)%float; auto.
Qed.

Lemma fold_pick_upper (l : list A) :
  forall a seen,
    (forall y, In y seen -> (key a <? key y)%float = false) ->
    forall y, In y (seen ++ l) ->
              (key (fold_left (pick key) l a) <? key y)%float = false.
Proof.
  induction l as [|x l IH]; intros a seen Hseen y Hy; simpl.
  - rewrite app_nil_r in Hy. auto.
  - apply (IH (pick key a x) (seen ++ [x])).
    + intros z Hz. apply in_app_or in Hz. unfold pick.
      destruct (key a <? key x)%float eqn:Hax.
      * destruct Hz as [Hz|[Hz|[]]].
        -- destruct (key x <? key z)%float eqn:Hxz; [|reflexivity].
           rewrite <- (Hseen z Hz). symmetry.
           now apply ltb_trans with (y := key x).
        -- subst. apply ltb_irrefl.
      * destruct Hz as [Hz|[Hz|[]]]; [auto|now subst].
    + now rewrite <- app_assoc.
Qed.

(** The pick is one of the elements and none has a greater key. *)
Lemma fold_pick_max (l : list A) (a : A) :
  In (fold_left (pick key) l a) (a :: l) /\
  forall y, In y (a :: l) ->
            (key (fold_left (pick key) l a) <? key y)%float = false.
Proof.
  split; [apply fold_pick_in|].
  apply (fold_pick_upper l a [a]).
  intros y [Hy|[]]. subst. apply ltb_irrefl.
Qed.

End MaxByKey.

Lemma max_by_bw_max (first : signal) (rest : list signal) :
  In (max_by_bw first rest) (first :: rest) /\
  forall s, In s (first :: rest) ->
            (snd (max_by_bw first rest) <? snd s)%float = false.
Proof. exact (fold_pick_max signal snd rest first). Qed.

Lemma best_of_max (scores : list float) :
  is_max (best_of scores) (0%float :: scores).
Proof. exact (fold_pick_max float (fun x => x) scores 0%float). Qed.

(** ** Rules for [sat] and [preserves] *)

Lemma sat_bind {A B} (m : M A) (f : A -> M B)
  (P : store -> list event -> Prop)
  (Q : outcome A -> store -> list event -> Prop)
  (R : outcome B -> store -> list event -> Prop) :
  sat m P Q ->
  (forall a, sat (f a) (Q (Ret a)) R) ->
  (forall e st t, Q (Raise e) st t -> R (Raise e) st t) ->
  sat (bind m f) P R.
Proof.
  intros Hm Hf Hraise st t0 Hp. specialize (Hm st t0 Hp).
  destruct (m st) as [[[a|e] st1] t1] eqn:E.
  - rewrite (bind_run_ret _ _ _ _ _ _ E).
    cbn [result_of store_of trace_of fst snd] in *.
    rewrite app_assoc. now apply Hf.
  - rewrite (bind_run_raise _ _ _ _ _ _ E).
    cbn [result_of store_of trace_of fst snd] in *. now apply Hraise.
Qed.

Section Invariants.

Variable inv : store -> list event -> Prop.

Lemma preserves_bind {A B} (m : M A) (f : A -> M B) :
  preserves inv m -> (forall a, preserves inv (f a)) ->
  preserves inv (bind m f).
Proof.
  intros Hm Hf. apply sat_bind with (Q := fun _ => inv); auto.
Qed.

Lemma preserves_ret {A} (a : A) : preserves inv (ret a).
Proof. intros st t0 Hp. cbn. now rewrite app_nil_r. Qed.

Lemma preserves_raise {A} (e : exn) : preserves inv (@raise A e).
Proof. intros st t0 Hp. cbn. now rewrite app_nil_r. Qed.

Lemma preserves_get : preserves inv get.
Proof. intros st t0 Hp. cbn. now rewrite app_nil_r. Qed.

Lemma preserves_lift {A} (o : outcome A) : preserves inv (lift o).
Proof. intros st t0 Hp. cbn. now rewrite app_nil_r. Qed.

Lemma preserves_emit (e : event) :
  (forall st t, inv st t -> inv st (t ++ [e])) -> preserves inv (emit e).
Proof. intros H st t0 Hp. cbn. auto. Qed.

Lemma preserves_finally {A} (body : M A) (cleanup : M unit) :
  preserves inv body -> preserves inv cleanup ->
  preserves inv (finally_ body cleanup).
Proof.
  intros Hb Hc st t0 Hp. specialize (Hb st t0 Hp). unfold finally_.
  destruct (body st) as [[[a|e] st1] t1]; cbn in *; [assumption|].
  specialize (Hc st1 _ Hb).
  destruct (cleanup st1) as [[[u|e'] st2] t2]; cbn in *;
    now rewrite app_assoc.
Qed.

End Invariants.

(** ** Running [run_confirm] *)

Lemma run_confirm_disabled float_of_str center_hz proc st reason :
  _confirm_disabled_reason st = Some reason ->
  run_confirm float_of_str center_hz proc st = (Ret Disabled, st, []).
Proof.
  intros H. unfold run_confirm, bind, get. rewrite H. reflexivity.
Qed.

Lemma run_confirm_enabled float_of_str center_hz proc st :
  _confirm_disabled_reason st = None ->
  run_confirm float_of_str center_hz proc st =
  (result_of (confirm_outcome float_of_str proc st),
   store_of (confirm_outcome float_of_str proc st),
   EvSubprocessRun (suscli_cmd center_hz) CONFIRM_SECONDS
     :: EvSubprocessEnd :: trace_of (confirm_outcome float_of_str proc st)).
Proof.
  intros H. unfold run_confirm, bind at 1, get. rewrite H.
  unfold bind at 1 2, emit.
  destruct (confirm_outcome float_of_str proc st) as [[r st'] t].
  reflexivity.
Qed.

(** ** What every statement of the script keeps

    A property that the quiet events and the writes of the location and of
    [tb] keep, that [_disable_confirm] keeps, and that the alerts and the
    classifier runs for the chosen signals keep, is kept by the whole
    script. *)

Lemma publish_alert_run center_hz bandwidth_hz pal ntsc source st :
  exists alert,
    publish_alert center_hz bandwidth_hz pal ntsc source st
      = (Ret tt, st, [EvPublish alert]) /\
    signal_infos alert = [(source, center_hz, bandwidth_hz, pal, ntsc)].
Proof.
  unfold publish_alert, build_alert_messages, bind, get, ret, emit.
  destruct (_last_sensor_gps st) as [[[lat lon] alt]|];
    eexists; split; reflexivity.
Qed.

Section Background.

Variable float_of_str : string -> option float.
Variable inv : store -> list event -> Prop.
Variable chosen : signal -> Prop.

Hypothesis inv_quiet :
  forall e st t, quiet e = true -> inv st t -> inv st (t ++ [e]).
Hypothesis inv_gps :
  forall fix_ st t, inv st t -> inv (store_of (set_gps fix_ st)) t.
Hypothesis inv_tb :
  forall o st t, inv st t -> inv (store_of (set_tb o st)) t.
Hypothesis inv_disable :
  forall reason, preserves inv (_disable_confirm reason).
Hypothesis inv_run :
  forall s st t,
    chosen s -> _confirm_disabled_reason st = None -> inv st t ->
    inv st (t ++ [EvSubprocessRun (suscli_cmd (fst s)) CONFIRM_SECONDS]).
Hypothesis inv_energy :
  forall s, chosen s ->
    preserves inv (publish_alert (fst s) (snd s) 0.0 0.0 "energy").
Hypothesis inv_confirm :
  forall s pal ntsc, chosen s ->
    preserves inv (publish_alert (fst s) (snd s) pal ntsc "confirm").

Lemma preserves_set_gps fix_ : preserves inv (set_gps fix_).
Proof.
  intros st t0 H. cbn [trace_of set_gps snd]. rewrite app_nil_r.
  now apply inv_gps.
Qed.

Lemma preserves_set_tb o : preserves inv (set_tb o).
Proof.
  intros st t0 H. cbn [trace_of set_tb snd]. rewrite app_nil_r.
  now apply inv_tb.
Qed.

Ltac inv_leaf :=
  lazymatch goal with
  | |- preserves _ (ret _) => apply preserves_ret
  | |- preserves _ (raise _) => apply preserves_raise
  | |- preserves _ get => apply preserves_get
  | |- preserves _ (lift _) => apply preserves_lift
  | |- preserves _ (set_gps _) => apply preserves_set_gps
  | |- preserves _ (set_tb _) => apply preserves_set_tb
  | |- preserves _ (_disable_confirm _) => apply inv_disable
  | |- preserves _ (emit _) =>
      apply preserves_emit; intros; apply inv_quiet; [reflexivity|assumption]
  end.

Ltac inv_step :=
  lazymatch goal with
  | |- preserves _ (bind _ _) =>
      apply preserves_bind; [try solve [inv_leaf]|intros ?]
  | |- preserves _ (match ?x with _ => _ end) => destruct x
  | |- _ => inv_leaf
  end.

Lemma preserves_retry_loop th outcome_of :
  forall attempts, preserves inv (retry_loop th outcome_of attempts).
Proof.
  induction attempts as [|k rest IH]; cbn [retry_loop];
    repeat inv_step; apply IH.
Qed.

Lemma preserves_start_tb_with_retry th outcome_of :
  preserves inv (start_tb_with_retry th outcome_of).
Proof. apply preserves_retry_loop. Qed.

Lemma preserves_open_once th o : preserves inv (open_once th o).
Proof. unfold open_once. repeat inv_step. Qed.

Lemma preserves_warmup_sweep probe :
  forall channels k medians,
    preserves inv (warmup_sweep probe k channels medians).
Proof.
  induction channels as [|mhz rest IH]; intros k medians;
    cbn [warmup_sweep]; repeat inv_step; apply IH.
Qed.

Lemma preserves_warmup_sweeps probe :
  forall sweeps k medians,
    preserves inv (warmup_sweeps probe sweeps k medians).
Proof.
  induction sweeps as [|n IH]; intros k medians; cbn [warmup_sweeps];
    repeat inv_step; [apply preserves_warmup_sweep|apply IH].
Qed.

Lemma preserves_warmup_threshold probe :
  preserves inv (warmup_threshold probe).
Proof.
  unfold warmup_threshold.
  apply preserves_bind; [apply preserves_warmup_sweeps|intros ms].
  repeat inv_step.
Qed.

Lemma preserves_poll_monitor_for_gps sub_sock r :
  preserves inv (poll_monitor_for_gps float_of_str sub_sock r).
Proof. unfold poll_monitor_for_gps. repeat inv_step. Qed.

Lemma preserves_parse_scores lines :
  preserves inv (parse_scores float_of_str lines).
Proof. unfold parse_scores. repeat inv_step. Qed.

Lemma preserves_confirm_outcome proc :
  preserves inv (confirm_outcome float_of_str proc).
Proof.
  unfold confirm_outcome, captured_output.
  apply preserves_bind.
  - destruct proc as [|out|rc out unk|e]; repeat inv_step.
  - intros [out|]; [apply preserves_parse_scores|inv_step].
Qed.

Lemma preserves_run_confirm s proc :
  chosen s -> preserves inv (run_confirm float_of_str (fst s) proc).
Proof.
  intros Hs st t0 Hinv.
  destruct (_confirm_disabled_reason st) as [r|] eqn:Hflag.
  - rewrite (run_confirm_disabled _ _ _ _ _ Hflag). cbn.
    now rewrite app_nil_r.
  - rewrite (run_confirm_enabled _ _ _ _ Hflag).
    cbn [result_of store_of trace_of fst snd].
    change (t0 ++ ?e1 :: ?e2 :: ?t) with (t0 ++ [e1] ++ [e2] ++ t).
    rewrite !app_assoc.
    apply preserves_confirm_outcome.
    apply inv_quiet; [reflexivity|]. now apply inv_run.
Qed.

Lemma preserves_confirm_and_reopen a th s i :
  chosen s ->
  preserves inv (confirm_and_reopen float_of_str a th (fst s) (snd s) i).
Proof.
  intros Hs. unfold confirm_and_reopen.
  apply preserves_bind; [now apply preserves_run_confirm|intros r].
  repeat inv_step;
    first [now apply inv_confirm | apply preserves_start_tb_with_retry].
Qed.

Lemma preserves_on_report a th mhz signals i :
  (forall s0 others, signals = s0 :: others -> chosen (max_by_bw s0 others)) ->
  preserves inv (on_report float_of_str a th mhz signals i).
Proof.
  intros Hch. unfold on_report. destruct signals as [|s0 others].
  - inv_step.
  - specialize (Hch s0 others eq_refl).
    repeat inv_step;
      first [now apply inv_energy | now apply preserves_confirm_and_reopen].
Qed.

Hypothesis all_chosen : forall s, chosen s.

Lemma preserves_visit a sub_sock th mhz i :
  preserves inv (visit float_of_str a sub_sock th mhz i).
Proof.
  unfold visit.
  apply preserves_bind; [apply preserves_poll_monitor_for_gps|intros _].
  repeat inv_step. apply preserves_on_report. intros; apply all_chosen.
Qed.

Lemma preserves_scan_loop a sub_sock th :
  forall visits k, preserves inv (scan_loop float_of_str a sub_sock th k visits).
Proof.
  induction visits as [|i rest IH]; intros k; cbn [scan_loop];
    repeat inv_step; [apply preserves_visit|apply IH].
Qed.

Lemma preserves_calibrate a s : preserves inv (calibrate a s).
Proof.
  unfold calibrate.
  apply preserves_bind; [apply preserves_open_once|intros t].
  apply preserves_bind; [inv_leaf|intros _].
  cbn [WARMUP_SWEEPS Nat.ltb Nat.leb AUTO_THRESHOLD negb andb].
  apply preserves_bind; [apply preserves_warmup_threshold|intros th].
  repeat inv_step. apply preserves_start_tb_with_retry.
Qed.

Lemma preserves_release_on_exit : preserves inv release_on_exit.
Proof. unfold release_on_exit. repeat inv_step. Qed.

Lemma preserves_main a s visits :
  preserves inv (main float_of_str a s visits).
Proof.
  unfold main.
  apply preserves_bind; [apply preserves_calibrate|intros th].
  apply preserves_finally;
    [apply preserves_scan_loop|apply preserves_release_on_exit].
Qed.

End Background.

(** ** Counting along a trace *)

Lemma published_app t1 t2 : published (t1 ++ t2) = published t1 ++ published t2.
Proof. unfold published. apply flat_map_app. Qed.

Lemma warnings_app t1 t2 : warnings (t1 ++ t2) = (warnings t1 + warnings t2)%nat.
Proof. unfold warnings. now rewrite filter_app, length_app. Qed.

Lemma subprocess_runs_app t1 t2 :
  subprocess_runs (t1 ++ t2) = (subprocess_runs t1 + subprocess_runs t2)%nat.
Proof. unfold subprocess_runs. now rewrite filter_app, length_app. Qed.

Lemma published_quiet e : quiet e = true -> published [e] = [].
Proof. destruct e; simpl; intros H; try reflexivity; discriminate. Qed.

Lemma warnings_quiet e : quiet e = true -> warnings [e] = 0.
Proof.
  destruct e as [| | | | | | |l| | |]; simpl; intros H; try reflexivity.
  destruct l; try reflexivity; discriminate.
Qed.

Lemma subprocess_runs_quiet e : quiet e = true -> subprocess_runs [e] = 0.
Proof. destruct e; simpl; intros H; try reflexivity; discriminate. Qed.

Lemma in_published alert t : In alert (published t) <-> In (EvPublish alert) t.
Proof.
  unfold published. rewrite in_flat_map. split.
  - intros [e [He Ha]]. destruct e; simpl in Ha; try tauto.
    destruct Ha as [Ha|[]]. now subst.
  - intros H. exists (EvPublish alert). split; [assumption|now left].
Qed.

Lemma in_signal_infos source c b p n alert :
  In (source, c, b, p, n) (signal_infos alert) <->
  In (SignalInfo source c b p n) alert.
Proof.
  unfold signal_infos. rewrite in_flat_map. split.
  - intros [m [Hm Hi]]. destruct m; simpl in Hi; try tauto.
    destruct Hi as [Hi|[]]. now inversion Hi; subst.
  - intros H. exists (SignalInfo source c b p n). split; [assumption|now left].
Qed.

(** ** Running [_disable_confirm] *)

Lemma _disable_confirm_set reason st old :
  _confirm_disabled_reason st = Some old ->
  _disable_confirm reason st = (Ret tt, st, []).
Proof. intros H. unfold _disable_confirm, bind, get. now rewrite H. Qed.

Lemma _disable_confirm_unset reason st :
  _confirm_disabled_reason st = None ->
  _disable_confirm reason st =
  (Ret tt, store_of (set_disabled reason st),
   [EvPrint (WarnConfirmDisabled reason)]).
Proof. intros H. unfold _disable_confirm, bind, get. now rewrite H. Qed.

(** ** The scores of the energy alerts (C10) *)

Lemma energy_zero_kept float_of_str a s visits :
  preserves (fun _ t => Forall energy_scores_zero (published t))
            (main float_of_str a s visits).
Proof.
  apply preserves_main with (chosen := fun _ => True); auto.
  - intros e st t Hq H. rewrite published_app, (published_quiet e Hq).
    now rewrite app_nil_r.
  - intros reason st t0 H.
    destruct (_confirm_disabled_reason st) as [old|] eqn:Hf.
    + rewrite (_disable_confirm_set _ _ _ Hf). cbn. now rewrite app_nil_r.
    + rewrite (_disable_confirm_unset _ _ Hf). cbn.
      rewrite published_app. cbn. now rewrite app_nil_r.
  - intros ss st t _ _ H. rewrite published_app. cbn. now rewrite app_nil_r.
  - intros ss _ st t0 H.
    destruct (publish_alert_run (fst ss) (snd ss) 0.0 0.0 "energy" st)
      as [alert [E Hsi]].
    rewrite E. cbn. rewrite published_app. cbn.
    apply Forall_app. split; [assumption|].
    constructor; [|constructor].
    intros c b p n Hin. rewrite Hsi in Hin.
    destruct Hin as [Hin|[]]. inversion Hin; subst. auto.
  - intros ss pal ntsc _ st t0 H.
    destruct (publish_alert_run (fst ss) (snd ss) pal ntsc "confirm" st)
      as [alert [E Hsi]].
    rewrite E. cbn. rewrite published_app. cbn.
    apply Forall_app. split; [assumption|].
    constructor; [|constructor].
    intros c b p n Hin. rewrite Hsi in Hin.
    destruct Hin as [Hin|[]]. discriminate.
Qed.

(** C10.  Every alert that a run of the script publishes at the energy
    stage carries pal_conf = 0.0 and ntsc_conf = 0.0 in its Signal Info
    part. *)
Theorem energy_alerts_carry_zero_scores :
  forall float_of_str a s visits alert c b p n,
    In (EvPublish alert)
       (trace_of (main float_of_str a s visits init_store)) ->
    In (SignalInfo "energy" c b p n) alert ->
    p = 0.0%float /\ n = 0.0%float.
Proof.
  intros fos a s visits alert c b p n Hpub Hsi.
  pose proof (energy_zero_kept fos a s visits init_store []) as H.
  cbn [app] in H. specialize (H (Forall_nil _)).
  rewrite Forall_forall in H.
  apply (H alert (proj2 (in_published alert _) Hpub) c b).
  now apply in_signal_infos.
Qed.

(** ** The breaker (C2) *)

Lemma breaker_inv_kept float_of_str a s visits :
  preserves breaker_inv (main float_of_str a s visits).
Proof.
  unfold breaker_inv.
  apply preserves_main with (chosen := fun _ => True); auto.
  - intros e st t Hq H. rewrite warnings_app, (warnings_quiet e Hq). lia.
  - intros reason st t0 H.
    destruct (_confirm_disabled_reason st) as [old|] eqn:Hf.
    + rewrite (_disable_confirm_set _ _ _ Hf). cbn.
      now rewrite app_nil_r, Hf.
    + rewrite (_disable_confirm_unset _ _ Hf). cbn.
      rewrite warnings_app, H. reflexivity.
  - intros ss st t _ _ H. rewrite warnings_app, H. cbn. lia.
  - intros ss _ st t0 H.
    destruct (publish_alert_run (fst ss) (snd ss) 0.0 0.0 "energy" st)
      as [alert [E _]].
    rewrite E. cbn. rewrite warnings_app, H. cbn. lia.
  - intros ss pal ntsc _ st t0 H.
    destruct (publish_alert_run (fst ss) (snd ss) pal ntsc "confirm" st)
      as [alert [E _]].
    rewrite E. cbn. rewrite warnings_app, H. cbn. lia.
Qed.

Lemma breaker_set_kept float_of_str reason a sub_sock th visits k :
  preserves
    (fun st t =>
       _confirm_disabled_reason st = Some reason /\
       warnings t = 0 /\ subprocess_runs t = 0)
    (scan_loop float_of_str a sub_sock th k visits).
Proof.
  apply preserves_scan_loop with (chosen := fun _ => True); auto.
  - intros e st t Hq [Hf [Hw Hr]].
    rewrite warnings_app, subprocess_runs_app,
      (warnings_quiet e Hq), (subprocess_runs_quiet e Hq), Hw, Hr. auto.
  - intros r' st t0 [Hf [Hw Hr]].
    rewrite (_disable_confirm_set _ _ _ Hf). cbn. now rewrite app_nil_r.
  - intros ss st t _ Hnone [Hf _]. congruence.
  - intros ss _ st t0 [Hf [Hw Hr]].
    destruct (publish_alert_run (fst ss) (snd ss) 0.0 0.0 "energy" st)
      as [alert [E _]].
    rewrite E. cbn. rewrite warnings_app, subprocess_runs_app, Hw, Hr. auto.
  - intros ss pal ntsc _ st t0 [Hf [Hw Hr]].
    destruct (publish_alert_run (fst ss) (snd ss) pal ntsc "confirm" st)
      as [alert [E _]].
    rewrite E. cbn. rewrite warnings_app, subprocess_runs_app, Hw, Hr. auto.
Qed.

(** C2.  Once [_confirm_disabled_reason] is set, a further
    [_disable_confirm] changes nothing and prints nothing (the first reason
    stays), [run_confirm] returns [(None, None)] at once with no subprocess
    and no change of the store, and the scan loop, for any number of visits
    and whatever the classifier would have done, keeps the reason, prints no
    further warning and runs no subprocess.  In a whole run of [main] the
    warning is printed once if the breaker ends set and never otherwise. *)
Theorem breaker_is_sticky :
  forall float_of_str reason st,
    _confirm_disabled_reason st = Some reason ->
    (forall reason', _disable_confirm reason' st = (Ret tt, st, [])) /\
    (forall center_hz proc,
        run_confirm float_of_str center_hz proc st = (Ret Disabled, st, [])) /\
    (forall a sub_sock th k visits,
        let r := scan_loop float_of_str a sub_sock th k visits st in
        _confirm_disabled_reason (store_of r) = Some reason /\
        warnings (trace_of r) = 0 /\
        subprocess_runs (trace_of r) = 0) /\
    (forall a s visits,
        let r := main float_of_str a s visits init_store in
        warnings (trace_of r) =
        match _confirm_disabled_reason (store_of r) with
        | Some _ => 1
        | None => 0
        end).
Proof.
  intros fos reason st Hset. repeat split.
  - intros reason'. now apply _disable_confirm_set with (old := reason).
  - intros hz proc. now apply run_confirm_disabled with (reason := reason).
  - apply (breaker_set_kept fos reason a sub_sock th visits k st []).
    cbn. auto.
  - apply (breaker_set_kept fos reason a sub_sock th visits k st []).
    cbn. auto.
  - apply (breaker_set_kept fos reason a sub_sock th visits k st []).
    cbn. auto.
  - intros a s visits.
    apply (breaker_inv_kept fos a s visits init_store []). reflexivity.
Qed.

(** ** The confirmation candidate (C7) *)

Lemma on_report_run float_of_str a th mhz s0 others i st :
  let best := max_by_bw s0 others in
  let st1 := store_of (set_tb None st) in
  let k := confirm_and_reopen float_of_str a th (fst best) (snd best) i in
  exists alert,
    signal_infos alert = [("energy"%string, fst best, snd best,
                           0.0%float, 0.0%float)] /\
    on_report float_of_str a th mhz (s0 :: others) i st =
    (result_of (k st1), store_of (k st1),
     EvPrint (SignalsLine mhz (s0 :: others))
       :: (if zmq a then [EvPublish alert] else [])
       ++ [EvStop; EvWait; EvGcCollect; EvSleep COOLDOWN_S]
       ++ trace_of (k st1)).
Proof.
  intros best st1 k.
  destruct (publish_alert_run (fst best) (snd best) 0.0 0.0 "energy" st)
    as [alert [E Hsi]].
  exists alert. split; [exact Hsi|].
  unfold on_report. cbv zeta. fold best. fold k.
  unfold bind, emit.
  destruct (zmq a).
  - rewrite E. unfold set_tb. fold (set_tb None st). fold st1.
    cbn [store_of fst snd] in st1.
    destruct (k st1) as [[r st2] t2] eqn:Ek.
    subst st1. cbn [store_of set_tb fst snd] in Ek. rewrite Ek.
    reflexivity.
  - unfold ret, set_tb. fold (set_tb None st). fold st1.
    destruct (k st1) as [[r st2] t2] eqn:Ek.
    subst st1. cbn [store_of set_tb fst snd] in Ek. rewrite Ek.
    reflexivity.
Qed.

Lemma acts_on_quiet best e : quiet e = true -> acts_on best e.
Proof.
  destruct e; simpl; intros H; try exact I; discriminate.
Qed.

Lemma acts_on_kept float_of_str a th best i :
  preserves (fun _ t => Forall (acts_on best) t)
    (confirm_and_reopen float_of_str a th (fst best) (snd best) i).
Proof.
  apply preserves_confirm_and_reopen with (chosen := fun s => s = best);
    auto.
  - intros e st t Hq H. apply Forall_app. split; [assumption|].
    constructor; [now apply acts_on_quiet|constructor].
  - intros reason st t0 H.
    destruct (_confirm_disabled_reason st) as [old|] eqn:Hf.
    + rewrite (_disable_confirm_set _ _ _ Hf). cbn. now rewrite app_nil_r.
    + rewrite (_disable_confirm_unset _ _ Hf). cbn.
      apply Forall_app. split; [assumption|]. repeat constructor.
  - intros s st t Hs _ H. subst s. apply Forall_app. split; [assumption|].
    repeat constructor.
  - intros s pal ntsc Hs st t0 H. subst s.
    destruct (publish_alert_run (fst best) (snd best) pal ntsc "confirm" st)
      as [alert [E Hsi]].
    rewrite E. cbn. apply Forall_app. split; [assumption|].
    constructor; [|constructor]. cbn. unfold alert_about. eauto.
Qed.

(** One visit runs the classifier at most once. *)
Lemma confirm_and_reopen_runs float_of_str a th hz bw i st :
  subprocess_runs
    (trace_of (confirm_and_reopen float_of_str a th hz bw i st)) <= 1.
Proof.
  assert (Hq : forall e (st : store) t,
             quiet e = true -> subprocess_runs t = 0 ->
             subprocess_runs (t ++ [e]) = 0).
  { intros e _ t He Ht.
    now rewrite subprocess_runs_app, (subprocess_runs_quiet e He), Ht. }
  assert (Hd : forall reason,
             preserves (fun _ t => subprocess_runs t = 0)
                       (_disable_confirm reason)).
  { intros reason s0 t0 H.
    destruct (_confirm_disabled_reason s0) as [old|] eqn:Hf.
    - rewrite (_disable_confirm_set _ _ _ Hf). cbn. now rewrite app_nil_r.
    - rewrite (_disable_confirm_unset _ _ Hf). cbn.
      now rewrite subprocess_runs_app, H. }
  assert (Hp : forall c b p n src,
             preserves (fun _ t => subprocess_runs t = 0)
                       (publish_alert c b p n src)).
  { intros c b p n src s0 t0 H.
    destruct (publish_alert_run c b p n src s0) as [alert [E _]].
    rewrite E. cbn. now rewrite subprocess_runs_app, H. }
  unfold confirm_and_reopen.
  set (k := fun r : confirm_result => _).
  assert (Hk : forall r, preserves (fun _ t => subprocess_runs t = 0) (k r)).
  { intros r. subst k. cbv beta.
    apply preserves_bind.
    - destruct r as [|pal ntsc].
      + apply preserves_emit. intros; now apply Hq.
      + apply preserves_bind; [apply preserves_emit; intros; now apply Hq|].
        intros _. apply preserves_bind.
        * destruct (zmq a); [apply Hp|apply preserves_ret].
        * intros _. destruct (debug a);
            [apply preserves_emit; intros; now apply Hq|apply preserves_ret].
    - intros _.
      apply preserves_bind; [apply preserves_emit; intros; now apply Hq|].
      intros _. apply preserves_bind.
      + apply preserves_start_tb_with_retry. exact Hq.
      + intros t s0 t0 H. cbn. now rewrite app_nil_r. }
  assert (Hrun : forall s0,
             subprocess_runs
               (trace_of (run_confirm float_of_str hz (confirm_proc i) s0))
             <= 1).
  { intros s0. destruct (_confirm_disabled_reason s0) as [old|] eqn:Hf.
    - rewrite (run_confirm_disabled _ _ _ _ _ Hf). cbn. lia.
    - rewrite (run_confirm_enabled _ _ _ _ Hf).
      cbn [trace_of snd].
      change (?e1 :: ?e2 :: ?t) with ([e1; e2] ++ t).
      rewrite subprocess_runs_app.
      assert (H0 : subprocess_runs
                     (trace_of (confirm_outcome float_of_str
                                  (confirm_proc i) s0)) = 0).
      { exact (preserves_confirm_outcome float_of_str
                 (fun _ t => subprocess_runs t = 0) Hd
                 (confirm_proc i) s0 [] eq_refl). }
      rewrite H0. cbn. lia. }
  specialize (Hrun st).
  destruct (run_confirm float_of_str hz (confirm_proc i) st)
    as [[[r|e] st1] t1] eqn:E.
  - rewrite (bind_run_ret _ _ _ _ _ _ E). cbn [trace_of snd] in *.
    rewrite subprocess_runs_app.
    pose proof (Hk r st1 [] eq_refl) as H0. cbn [app] in H0.
    rewrite H0. lia.
  - rewrite (bind_run_raise _ _ _ _ _ _ E). exact Hrun.
Qed.

(** C7.  On a non-empty detection report the script picks one pair, one of
    largest bandwidth; it prints the whole report, publishes, when
    publishing is enabled, an energy alert about that pair, and only then
    releases the radio and goes on to the confirmation.  In what follows the
    classifier is run at most once, on the frequency of that pair, and every
    alert is about that pair: the other pairs are printed and nothing else.
    In the example of the specification the second pair is picked. *)
Theorem candidate_is_widest_signal :
  forall float_of_str a th mhz msg i st,
    let signals := parse_rf_map msg (center_hz_of mhz) in
    signals <> [] ->
    (exists best alert tail,
        In best signals /\
        (forall s, In s signals -> (snd s <=? snd best)%float = true) /\
        signal_infos alert =
          [("energy"%string, fst best, snd best, 0.0%float, 0.0%float)] /\
        trace_of (on_report float_of_str a th mhz signals i st) =
          EvPrint (SignalsLine mhz signals)
            :: (if zmq a then [EvPublish alert] else [])
            ++ [EvStop; EvWait; EvGcCollect; EvSleep COOLDOWN_S]
            ++ tail /\
        Forall (acts_on best) tail /\
        subprocess_runs tail <= 1) /\
    max_by_bw (5805.2e6, 4.2e6)%float [(5805.5e6, 6.0e6)%float]
      = (5805.5e6, 6.0e6)%float.
Proof.
  intros fos a th mhz msg i st signals Hne.
  split; [|vm_compute; reflexivity].
  destruct signals as [|s0 others] eqn:Hsig; [congruence|].
  set (best := max_by_bw s0 others).
  destruct (on_report_run fos a th mhz s0 others i st) as [alert [Hsi Hrun]].
  fold best in Hsi, Hrun.
  destruct (max_by_bw_max s0 others) as [Hin Hmax]. fold best in Hin, Hmax.
  assert (Hbw : forall s, In s (s0 :: others) ->
                          (MIN_BW_HZ <=? snd s)%float = true).
  { intros s Hs. rewrite <- Hsig in Hs. subst signals.
    now apply (detection_report_bandwidth msg (center_hz_of mhz)). }
  exists best, alert. eexists. split; [exact Hin|].
  split.
  { intros s Hs. apply leb_of_not_ltb with (a := MIN_BW_HZ); auto. }
  split; [exact Hsi|].
  split; [rewrite Hrun; reflexivity|].
  split.
  - apply (acts_on_kept fos a th best i _ []). constructor.
  - apply confirm_and_reopen_runs.
Qed.

(** ** Reopening the radio (C3) *)

Lemma result_bind {A B} (m : M A) (f : A -> M B) st :
  result_of (bind m f st) =
  match result_of (m st) with
  | Ret a => result_of (f a (store_of (m st)))
  | Raise e => Raise e
  end.
Proof.
  unfold bind, result_of, store_of.
  destruct (m st) as [[[a|e] st1] t1]; cbn; [|reflexivity].
  destruct (f a st1) as [[r st2] t2]. reflexivity.
Qed.

Lemma retry_loop_run th outcome_of st :
  forall attempts,
    (forall k, In k attempts ->
               start_fails (outcome_of k) = true \/
               starts (outcome_of k) = true) ->
    let n := leading_failures outcome_of attempts in
    retry_loop th outcome_of attempts st =
    (if (n <? List.length attempts)%nat
     then Ret {| threshold_db := th |}
     else Raise (RuntimeError "failed to reopen SDR after retries"),
     st,
     flat_map (failed_attempt th outcome_of) (firstn n attempts)
     ++ (if (n <? List.length attempts)%nat
         then [EvConstruct th true; EvStart true]
         else [])).
Proof.
  induction attempts as [|k rest IH]; intros Hok n; [reflexivity|].
  subst n. cbn [retry_loop leading_failures List.length].
  assert (Hrest : forall j, In j rest ->
                    start_fails (outcome_of j) = true \/
                    starts (outcome_of j) = true)
    by (intros j Hj; apply Hok; now right).
  specialize (IH Hrest). cbv zeta in IH.
  destruct (Hok k (or_introl eq_refl)) as [Hf|Hs].
  - rewrite Hf. unfold start_fails in Hf.
    destruct (construct_exn (outcome_of k)); [discriminate|].
    destruct (start_exn (outcome_of k)) as [[why| | | | |]|] eqn:Hs;
      try discriminate.
    unfold bind at 1 2 3 4 5 6. unfold emit. rewrite IH.
    cbn [firstn flat_map app].
    change (S ?a <? S ?b)%nat with (a <? b)%nat.
    replace (failed_attempt th outcome_of k)
      with [EvConstruct th true; EvStart false; EvStop; EvWait;
            EvPrint (WarnOpenFailed k why); EvSleep REOPEN_DELAY_S]
      by (unfold failed_attempt, why_of; now rewrite Hs).
    reflexivity.
  - assert (Hnf : start_fails (outcome_of k) = false).
    { unfold starts in Hs. unfold start_fails.
      destruct (construct_exn (outcome_of k)); [discriminate|].
      destruct (start_exn (outcome_of k)); [discriminate|reflexivity]. }
    rewrite Hnf. unfold starts in Hs.
    destruct (construct_exn (outcome_of k)); [discriminate|].
    destruct (start_exn (outcome_of k)); [discriminate|].
    reflexivity.
Qed.

Lemma leading_failures_le outcome_of attempts :
  leading_failures outcome_of attempts <= List.length attempts.
Proof.
  induction attempts as [|k rest IH]; simpl; [lia|].
  destruct (start_fails (outcome_of k)); lia.
Qed.

Lemma attempts_made_failed th outcome_of ks :
  attempts_made (flat_map (failed_attempt th outcome_of) ks) = List.length ks.
Proof.
  induction ks as [|k ks IH]; [reflexivity|].
  cbn [flat_map]. unfold attempts_made in *.
  rewrite filter_app, length_app, IH. reflexivity.
Qed.

Lemma reopen_delays_failed th outcome_of ks :
  reopen_delays (flat_map (failed_attempt th outcome_of) ks) = List.length ks.
Proof.
  induction ks as [|k ks IH]; [reflexivity|].
  cbn [flat_map]. unfold reopen_delays in *.
  rewrite filter_app, length_app, IH. reflexivity.
Qed.

Lemma firstn_seq n start len :
  n <= len -> firstn n (seq start len) = seq start n.
Proof.
  revert start len. induction n as [|n IH]; intros start len H;
    [reflexivity|].
  destruct len as [|len]; [lia|]. cbn. f_equal. apply IH. lia.
Qed.

(** A visit that raises ends the loop: no later visit is made. *)
Lemma scan_loop_stops float_of_str a sub_sock th k i rest st e :
  result_of (visit float_of_str a sub_sock th (channel k) i st) = Raise e ->
  scan_loop float_of_str a sub_sock th k (i :: rest) st =
  visit float_of_str a sub_sock th (channel k) i st.
Proof.
  intros H. cbn [scan_loop].
  destruct (visit float_of_str a sub_sock th (channel k) i st)
    as [[r st1] t1] eqn:E.
  cbn in H. subst r. now rewrite (bind_run_raise _ _ _ _ _ _ E).
Qed.

(** When no attempt to reopen starts, the visit of a non-empty report
    raises, and the radio is left closed. *)
Lemma on_report_fatal float_of_str a th mhz s0 others i st :
  (forall k, 1 <= k <= REOPEN_RETRIES -> start_fails (reopen i k) = true) ->
  exists e,
    result_of (on_report float_of_str a th mhz (s0 :: others) i st) = Raise e /\
    tb (store_of (on_report float_of_str a th mhz (s0 :: others) i st)) = None.
Proof.
  intros Hall.
  destruct (on_report_run float_of_str a th mhz s0 others i st)
    as [alert [_ Hrun]].
  rewrite Hrun. cbn [result_of store_of fst snd].
  set (best := max_by_bw s0 others).
  set (st1 := {| _last_sensor_gps := _last_sensor_gps st;
                 _confirm_disabled_reason := _confirm_disabled_reason st;
                 tb := None |}).
  assert (Hretry : forall s,
             start_tb_with_retry th (reopen i) s =
             (Raise (RuntimeError "failed to reopen SDR after retries"), s,
              flat_map (failed_attempt th (reopen i)) (seq 1 REOPEN_RETRIES))).
  { intros s. unfold start_tb_with_retry.
    rewrite retry_loop_run.
    - assert (Hn : leading_failures (reopen i) (seq 1 REOPEN_RETRIES)
                   = REOPEN_RETRIES).
      { cbn. rewrite !Hall by (unfold REOPEN_RETRIES; lia). reflexivity. }
      rewrite Hn. cbn. reflexivity.
    - intros k Hk. left. apply Hall. apply in_seq in Hk. lia. }
  unfold confirm_and_reopen.
  assert (Hkeep : forall hz proc s,
             tb s = None ->
             tb (store_of (run_confirm float_of_str hz proc s)) = None).
  { intros hz proc s Hs.
    apply (preserves_run_confirm float_of_str
             (fun s' _ => tb s' = None) (fun _ => True)) with
      (s := (hz, 0%float)) (t0 := []); auto.
    intros reason s' t0 H'.
    destruct (_confirm_disabled_reason s') as [old|] eqn:Hf.
    - now rewrite (_disable_confirm_set _ _ _ Hf).
    - now rewrite (_disable_confirm_unset _ _ Hf). }
  specialize (Hkeep (fst best) (confirm_proc i) st1 eq_refl).
  destruct (run_confirm float_of_str (fst best) (confirm_proc i) st1)
    as [[[r|e] st2] t2] eqn:E.
  2:{ rewrite (bind_run_raise _ _ _ _ _ _ E). cbn. eauto. }
  rewrite (bind_run_ret _ _ _ _ _ _ E). cbn [fst snd].
  cbn [store_of fst snd] in Hkeep.
  set (report := match r with Disabled => _ | Scores _ _ => _ end).
  assert (Hrep : exists t3, report st2 = (Ret tt, st2, t3)).
  { subst report. destruct r as [|pal ntsc].
    - eexists; reflexivity.
    - unfold bind, emit, ret.
      destruct (zmq a).
      + destruct (publish_alert_run (fst best) (snd best) pal ntsc
                    "confirm" st2) as [al [Ea _]].
        rewrite Ea. destruct (debug a); eexists; reflexivity.
      + destruct (debug a); eexists; reflexivity. }
  destruct Hrep as [t3 Hrep].
  rewrite (bind_run_ret _ _ _ _ _ _ Hrep). cbn [result_of store_of fst snd].
  rewrite (bind_run_ret (emit _) _ st2 tt st2 [_]) by reflexivity.
  cbn [result_of store_of fst snd].
  rewrite (bind_run_raise _ _ _ _ _ _ (Hretry st2)).
  cbn. eauto.
Qed.

Lemma leading_failures_all outcome_of attempts :
  leading_failures outcome_of attempts = List.length attempts ->
  forall k, In k attempts -> start_fails (outcome_of k) = true.
Proof.
  induction attempts as [|j rest IH]; intros H k Hk; [destruct Hk|].
  cbn in H. destruct (start_fails (outcome_of j)) eqn:Hj; [|discriminate].
  destruct Hk as [Hk|Hk]; [now subst|]. apply IH; [lia|assumption].
Qed.

Lemma bind_assoc {A B C} (m : M A) (f : A -> M B) (g : B -> M C) st :
  bind (bind m f) g st = bind m (fun a => bind (f a) g) st.
Proof.
  unfold bind. destruct (m st) as [[[a|e] st1] t1]; [|reflexivity].
  destruct (f a st1) as [[[b|e] st2] t2]; [|reflexivity].
  destruct (g b st2) as [[r st3] t3]. now rewrite app_assoc.
Qed.

Lemma bind_ext {A B} (m : M A) (f g : A -> M B) st :
  (forall a st', f a st' = g a st') -> bind m f st = bind m g st.
Proof.
  intros H. unfold bind. destruct (m st) as [[[a|e] st1] t1]; [|reflexivity].
  now rewrite H.
Qed.

Lemma scan_loop_app float_of_str a sub_sock th visits1 :
  forall k visits2 st,
    scan_loop float_of_str a sub_sock th k (visits1 ++ visits2) st =
    bind (scan_loop float_of_str a sub_sock th k visits1)
         (fun _ => scan_loop float_of_str a sub_sock th
                     (k + List.length visits1) visits2) st.
Proof.
  induction visits1 as [|i rest IH]; intros k visits2 st.
  - cbn [app scan_loop List.length]. rewrite Nat.add_0_r.
    unfold bind, ret.
    destruct (scan_loop float_of_str a sub_sock th k visits2 st)
      as [[r st1] t1].
    reflexivity.
  - cbn [app scan_loop List.length]. rewrite bind_assoc.
    apply bind_ext. intros _ st'. rewrite IH.
    replace (k + S (List.length rest))%nat
      with (S k + List.length rest)%nat by lia.
    reflexivity.
Qed.

Lemma release_on_exit_run st :
  exists t, release_on_exit st = (Ret tt, st, t).
Proof.
  unfold release_on_exit, bind, get, emit, ret.
  destruct (tb st); eexists; reflexivity.
Qed.

Lemma finally_release_result {A} (body : M A) st :
  result_of (finally_ body release_on_exit st) = result_of (body st).
Proof.
  unfold finally_. destruct (body st) as [[[x|e] st1] t1]; [reflexivity|].
  destruct (release_on_exit_run st1) as [t E]. now rewrite E.
Qed.

(** A report that is not empty and a radio that does not reopen: the run
    ends in an exception at that visit, whatever visits would follow. *)
Lemma main_fatal float_of_str a s visits i rest :
  result_of (main float_of_str a s visits init_store) = Ret tt ->
  (forall k, 1 <= k <= REOPEN_RETRIES -> start_fails (reopen i k) = true) ->
  parse_rf_map (latest_map i)
    (center_hz_of (channel (List.length visits))) <> [] ->
  (exists e,
      result_of (main float_of_str a s (visits ++ i :: rest) init_store)
      = Raise e) /\
  main float_of_str a s (visits ++ i :: rest) init_store =
  main float_of_str a s (visits ++ [i]) init_store.
Proof.
  intros Hret Hall Hsig. unfold main in *.
  destruct (calibrate a s init_store) as [[[th|e0] st0] t0] eqn:Ec.
  2:{ rewrite (bind_run_raise _ _ _ _ _ _ Ec) in Hret. discriminate. }
  rewrite (bind_run_ret _ _ _ _ _ _ Ec) in Hret.
  rewrite !(bind_run_ret _ _ _ _ _ _ Ec).
  cbn [result_of fst] in Hret. fold (result_of (A := unit)) in Hret.
  change (result_of
            (finally_ (scan_loop float_of_str a (mon_sub s) th 0 visits)
                      release_on_exit st0) = Ret tt) in Hret.
  rewrite finally_release_result in Hret.
  assert (Hloop : forall more,
             exists e st2 t2,
               scan_loop float_of_str a (mon_sub s) th 0
                 (visits ++ i :: more) st0 = (Raise e, st2, t2) /\
               scan_loop float_of_str a (mon_sub s) th 0
                 (visits ++ [i]) st0 = (Raise e, st2, t2)).
  { destruct (scan_loop float_of_str a (mon_sub s) th 0 visits st0)
      as [[r1 st1] t1] eqn:E1.
    cbn in Hret. subst r1.
    assert (Hv : exists e,
               result_of (visit float_of_str a (mon_sub s) th
                            (channel (List.length visits)) i st1) = Raise e).
    { unfold visit. rewrite result_bind.
      destruct (result_of (poll_monitor_for_gps float_of_str (mon_sub s)
                             (telemetry i) st1)); [|eauto].
      rewrite result_bind. cbn [emit result_of store_of fst snd].
      rewrite result_bind. cbn [emit result_of store_of fst snd].
      rewrite result_bind. cbn [emit result_of store_of fst snd].
      destruct (parse_rf_map (latest_map i)
                  (center_hz_of (channel (List.length visits))))
        as [|s0 others]; [congruence|].
      match goal with
      | |- exists e, result_of (on_report _ _ _ ?mhz _ _ ?st) = _ =>
          destruct (on_report_fatal float_of_str a th mhz s0 others i st Hall)
            as [e [He _]]
      end.
      eauto. }
    destruct Hv as [e Hv]. intros more.
    rewrite !scan_loop_app.
    rewrite !(bind_run_ret _ _ _ _ _ _ E1). cbn [Nat.add].
    rewrite (scan_loop_stops _ _ _ _ _ _ more _ _ Hv).
    rewrite (scan_loop_stops _ _ _ _ _ _ [] _ _ Hv).
    destruct (visit float_of_str a (mon_sub s) th
                (channel (List.length visits)) i st1) as [[r st2] t2].
    cbn in Hv. subst r. cbn. eauto. }
  destruct (Hloop rest) as [e [st2 [t2 [H1 H2]]]].
  cbn [result_of store_of trace_of fst snd].
  unfold finally_. rewrite H1, H2.
  destruct (release_on_exit_run st2) as [t E]. rewrite E.
  split; [exists e; reflexivity|reflexivity].
Qed.

(** C3, as the script has it.  Reopening the radio ([start_tb_with_retry],
    after the warm-up and after each confirmation) makes at most 5 attempts.
    An attempt whose [start] raises [RuntimeError] is followed by
    [stop], [wait], a warning and a delay of 2 seconds, and then by the next
    attempt; the first attempt that starts ends the function.  When all 5
    fail it raises a [RuntimeError] that says so, which nothing catches: the
    visit raises, the radio stays closed, no later visit is made and [main]
    ends in the exception.  The first open at start-up is one attempt, with
    no delay.  (Attempts are taken to construct the top block, and to fail,
    if they do, with [RuntimeError].) *)
Theorem reopen_retries_are_bounded :
  forall th outcome_of st,
    (forall k, 1 <= k <= REOPEN_RETRIES ->
               start_fails (outcome_of k) = true \/
               starts (outcome_of k) = true) ->
    let n := leading_failures outcome_of (seq 1 REOPEN_RETRIES) in
    let r := start_tb_with_retry th outcome_of st in
    REOPEN_RETRIES = 5 /\ REOPEN_DELAY_S = 2.0%float /\ n <= 5 /\
    store_of r = st /\
    trace_of r =
      flat_map (failed_attempt th outcome_of) (seq 1 n)
      ++ (if (n <? 5)%nat then [EvConstruct th true; EvStart true] else []) /\
    result_of r =
      (if (n <? 5)%nat then Ret {| threshold_db := th |}
       else Raise (RuntimeError "failed to reopen SDR after retries")) /\
    attempts_made (trace_of r) = (if (n <? 5)%nat then S n else 5) /\
    reopen_delays (trace_of r) = n /\
    (n = 5 ->
     forall float_of_str a s visits i rest,
       reopen i = outcome_of ->
       result_of (main float_of_str a s visits init_store) = Ret tt ->
       parse_rf_map (latest_map i)
         (center_hz_of (channel (List.length visits))) <> [] ->
       (exists e,
           result_of (main float_of_str a s (visits ++ i :: rest) init_store)
           = Raise e) /\
       main float_of_str a s (visits ++ i :: rest) init_store =
       main float_of_str a s (visits ++ [i]) init_store) /\
    (forall o,
        attempts_made (trace_of (open_once th o st)) = 1 /\
        reopen_delays (trace_of (open_once th o st)) = 0).
Proof.
  intros th outcome_of st Hok n r.
  assert (Hdef : n = leading_failures outcome_of (seq 1 REOPEN_RETRIES))
    by reflexivity.
  clearbody n.
  assert (Hn : n <= 5).
  { subst n. pose proof (leading_failures_le outcome_of (seq 1 REOPEN_RETRIES))
      as H. now rewrite length_seq in H. }
  assert (Hrun := retry_loop_run th outcome_of st (seq 1 REOPEN_RETRIES)).
  cbv zeta in Hrun. rewrite <- Hdef, length_seq in Hrun.
  assert (Hok' : forall k, In k (seq 1 REOPEN_RETRIES) ->
                   start_fails (outcome_of k) = true \/
                   starts (outcome_of k) = true).
  { intros k Hk. apply Hok. apply in_seq in Hk. lia. }
  specialize (Hrun Hok').
  rewrite (firstn_seq n 1 REOPEN_RETRIES Hn) in Hrun.
  subst r. unfold start_tb_with_retry. rewrite Hrun.
  change REOPEN_RETRIES with 5 in *.
  cbn [store_of trace_of result_of fst snd].
  split; [reflexivity|]. split; [reflexivity|]. split; [exact Hn|].
  split; [reflexivity|]. split; [reflexivity|]. split; [reflexivity|].
  split.
  { unfold attempts_made. rewrite filter_app, length_app.
    fold (attempts_made (flat_map (failed_attempt th outcome_of) (seq 1 n))).
    rewrite attempts_made_failed, length_seq.
    destruct (n <? 5)%nat eqn:Hlt; cbn.
    - lia.
    - apply Nat.ltb_ge in Hlt. lia. }
  split.
  { unfold reopen_delays. rewrite filter_app, length_app.
    fold (reopen_delays (flat_map (failed_attempt th outcome_of) (seq 1 n))).
    rewrite reopen_delays_failed, length_seq.
    destruct (n <? 5)%nat; cbn; lia. }
  split.
  { intros Hn5 fos a s visits i rest Hi Hret Hsig.
    apply main_fatal; auto.
    intros k Hk. rewrite Hi.
    apply (leading_failures_all outcome_of (seq 1 5)).
    - rewrite <- Hdef. now rewrite length_seq.
    - apply in_seq. unfold REOPEN_RETRIES in Hk. lia. }
  intros o. unfold open_once.
  destruct (construct_exn o); [split; reflexivity|].
  destruct (start_exn o); split; reflexivity.
Qed.

(** ** The best of a classifier run (C5) *)

Lemma skipn_nil_any {A} n : skipn n (@nil A) = [].
Proof. now destruct n. Qed.

Lemma scan_lines_run float_of_str :
  forall lines max_pal max_ntsc skip_lines,
    let rs :=
      flat_map
        (fun l => match l with Brace (Some data) => [data] | _ => [] end)
        (skipn skip_lines (filter is_brace lines)) in
    Forall (well_formed_record float_of_str) rs ->
    scan_lines float_of_str lines max_pal max_ntsc skip_lines =
    Ret (fold_left py_max (scores_with (pal_of float_of_str) rs) max_pal,
         fold_left py_max (scores_with (ntsc_of float_of_str) rs) max_ntsc).
Proof.
  induction lines as [|line rest IH]; intros mp mn skip rs Hwf.
  - subst rs. cbn [filter]. rewrite skipn_nil_any. reflexivity.
  - destruct line as [|decoded].
    + cbn [scan_lines]. apply IH. exact Hwf.
    + subst rs. cbn [filter is_brace] in *.
      destruct skip as [|k].
      * cbn [skipn flat_map] in *.
        destruct decoded as [data|].
        -- cbn [app] in *. inversion Hwf as [|d l Hd Hl]; subst.
           destruct Hd as [[p Hp] [n Hn]].
           cbn [scan_lines]. unfold pal_of in Hp. unfold ntsc_of in Hn.
           destruct (py_get (dict_get data "signal" (PyDict [])) "pal"
                       (PyFloat 0.0)) as [palv|] eqn:Epal;
             [|discriminate].
           cbn [obind] in Hp |- *. rewrite Hp. cbn [obind].
           destruct (py_get (dict_get data "signal" (PyDict [])) "ntsc"
                       (PyFloat 0.0)) as [ntscv|] eqn:Entsc;
             [|discriminate].
           cbn [obind] in Hn |- *. rewrite Hn. cbn [obind].
           rewrite (IH _ _ 0 Hl).
           unfold scores_with. cbn [flat_map].
           unfold pal_of at 2, ntsc_of at 2.
           rewrite Epal, Entsc. cbn [obind]. rewrite Hp, Hn.
           reflexivity.
        -- cbn [app scan_lines] in *. apply (IH _ _ 0). exact Hwf.
      * cbn [skipn scan_lines] in *. apply IH. exact Hwf.
Qed.

Lemma parse_scores_run float_of_str lines st :
  parse_scores float_of_str lines st =
  (match scan_lines float_of_str lines 0.0 0.0 2 with
   | Ret pn => Ret (Scores (fst pn) (snd pn))
   | Raise e => Raise e
   end, st, []).
Proof.
  unfold parse_scores, bind, lift, ret.
  destruct (scan_lines float_of_str lines 0.0 0.0 2); reflexivity.
Qed.

(** The runs whose output is parsed return what the loop finds, and change
    nothing. *)
Lemma run_confirm_parsed float_of_str center_hz proc st :
  _confirm_disabled_reason st = None ->
  output_is_parsed proc = true ->
  run_confirm float_of_str center_hz proc st =
  (match scan_lines float_of_str (stdout_of proc) 0.0 0.0 2 with
   | Ret pn => Ret (Scores (fst pn) (snd pn))
   | Raise e => Raise e
   end, st,
   [EvSubprocessRun (suscli_cmd center_hz) CONFIRM_SECONDS; EvSubprocessEnd]).
Proof.
  intros Hf Hp. rewrite (run_confirm_enabled _ _ _ _ Hf).
  assert (E : confirm_outcome float_of_str proc st =
              parse_scores float_of_str (stdout_of proc) st).
  { unfold confirm_outcome, captured_output.
    destruct proc as [|out|rc out unk|e]; try discriminate.
    - unfold bind at 1, ret. cbn [stdout_of].
      destruct (parse_scores float_of_str out st) as [[r s'] t'].
      reflexivity.
    - cbn [output_is_parsed] in Hp. apply negb_true_iff in Hp. rewrite Hp.
      unfold bind at 1, ret. cbn [stdout_of].
      destruct (parse_scores float_of_str out st) as [[r s'] t'].
      reflexivity. }
  rewrite E, parse_scores_run. reflexivity.
Qed.

(** C5, as the script has it.  [run_confirm] skips the first two lines that
    start with a brace, passes over the lines that do not start with one and
    those that do not decode, and returns, for PAL and for NTSC, the largest
    of 0.0 and the scores of the decoded records, a missing score counting
    as 0.0: the result is 0.0 or one of the scores, and no score is greater.
    So the scores 0.2, 0.9, 0.4 and 0.1, 0.1, 0.8 give 0.9 and 0.8.  (The
    decoded records are taken to hold numbers where they hold scores.) *)
Theorem best_of_run_from_zero :
  forall float_of_str lines,
    Forall (well_formed_record float_of_str) (records lines) ->
    let pals := pal_scores float_of_str lines in
    let ntscs := ntsc_scores float_of_str lines in
    scan_lines float_of_str lines 0.0 0.0 2
      = Ret (best_of pals, best_of ntscs) /\
    is_max (best_of pals) (0.0%float :: pals) /\
    is_max (best_of ntscs) (0.0%float :: ntscs) /\
    (forall center_hz returncode st,
        _confirm_disabled_reason st = None ->
        result_of (run_confirm float_of_str center_hz
                     (CompletedProcess returncode lines false) st)
        = Ret (Scores (best_of pals) (best_of ntscs))) /\
    (forall center_hz st,
        _confirm_disabled_reason st = None ->
        result_of (run_confirm float_of_str center_hz (TimeoutExpired lines) st)
        = Ret (Scores (best_of pals) (best_of ntscs))) /\
    scan_lines float_of_str example_output 0.0 0.0 2
      = Ret (0.9, 0.8)%float.
Proof.
  intros fos lines Hwf pals ntscs.
  assert (Hscan : scan_lines fos lines 0.0 0.0 2
                  = Ret (best_of pals, best_of ntscs)).
  { exact (scan_lines_run fos lines 0.0%float 0.0%float 2 Hwf). }
  split; [exact Hscan|].
  split; [apply best_of_max|]. split; [apply best_of_max|].
  split; [|split].
  - intros hz rc st Hf. rewrite run_confirm_parsed; auto.
    + cbn [result_of fst stdout_of]. now rewrite Hscan.
    + cbn. now rewrite andb_false_r.
  - intros hz st Hf. rewrite run_confirm_parsed; auto.
    cbn [result_of fst stdout_of]. now rewrite Hscan.
  - reflexivity.
Qed.

(** ** An inconclusive classifier run (C4) *)

Lemma start_tb_first_try th outcome_of st :
  starts (outcome_of 1) = true ->
  start_tb_with_retry th outcome_of st =
  (Ret {| threshold_db := th |}, st, [EvConstruct th true; EvStart true]).
Proof.
  intros H. unfold start_tb_with_retry. cbn [REOPEN_RETRIES seq retry_loop].
  unfold starts in H.
  destruct (construct_exn (outcome_of 1)); [discriminate|].
  destruct (start_exn (outcome_of 1)); [discriminate|]. reflexivity.
Qed.

Lemma confirm_and_reopen_scores float_of_str a th hz bw i st pal ntsc t1 :
  run_confirm float_of_str hz (confirm_proc i) st
    = (Ret (Scores pal ntsc), st, t1) ->
  exists alert,
    signal_infos alert = [("confirm"%string, hz, bw, pal, ntsc)] /\
    trace_of (confirm_and_reopen float_of_str a th hz bw i st) =
      t1 ++ [EvPrint (ConfirmLine hz pal ntsc)]
         ++ (if zmq a then [EvPublish alert] else [])
         ++ (if debug a then [EvPrint (DebugConfirm hz bw pal ntsc)] else [])
         ++ EvSleep COOLDOWN_S
         :: trace_of (start_tb_with_retry th (reopen i) st) /\
    (starts (reopen i 1) = true ->
     result_of (confirm_and_reopen float_of_str a th hz bw i st) = Ret tt /\
     store_of (confirm_and_reopen float_of_str a th hz bw i st) =
       store_of (set_tb (Some {| threshold_db := th |}) st)).
Proof.
  intros Hrun.
  destruct (publish_alert_run hz bw pal ntsc "confirm" st)
    as [alert [E Hsi]].
  exists alert. split; [exact Hsi|].
  unfold confirm_and_reopen.
  rewrite (bind_run_ret _ _ _ _ _ _ Hrun).
  cbn [result_of store_of trace_of fst snd].
  set (report := bind (emit (EvPrint (ConfirmLine hz pal ntsc))) _).
  assert (Hrep : report st =
                 (Ret tt, st,
                  [EvPrint (ConfirmLine hz pal ntsc)]
                    ++ (if zmq a then [EvPublish alert] else [])
                    ++ (if debug a
                        then [EvPrint (DebugConfirm hz bw pal ntsc)]
                        else []))).
  { subst report. unfold bind, emit, ret.
    destruct (zmq a); [rewrite E|]; destruct (debug a); reflexivity. }
  rewrite (bind_run_ret _ _ _ _ _ _ Hrep).
  cbn [result_of store_of trace_of fst snd].
  rewrite (bind_run_ret (emit _) _ st tt st [_]) by reflexivity.
  cbn [result_of store_of trace_of fst snd].
  split.
  - destruct (start_tb_with_retry th (reopen i) st) as [[[t|e] st2] t2] eqn:Es.
    + rewrite (bind_run_ret _ _ _ _ _ _ Es). cbn.
      rewrite app_nil_r, <- !app_assoc. reflexivity.
    + rewrite (bind_run_raise _ _ _ _ _ _ Es). cbn.
      rewrite <- !app_assoc. reflexivity.
  - intros Hs.
    rewrite (bind_run_ret _ _ _ _ _ _ (start_tb_first_try th _ st Hs)).
    cbn. split; reflexivity.
Qed.

(** C4, as the script has it.  A classifier that exits with a non-zero
    status without the unknown-command text, or that times out, does not
    disable confirmation: the breaker and the store are as before and no
    warning is printed.  Its captured output is parsed all the same, and
    [run_confirm] returns the scores found there, never [(None, None)]; so
    the loop prints them, publishes a confirm alert that carries them when
    publishing is enabled, waits, reopens the radio and, when the radio
    starts, goes on scanning.  (A record that does not hold numbers where
    scores should be makes the parse raise.) *)
Theorem inconclusive_run_still_scores :
  forall float_of_str center_hz proc st,
    _confirm_disabled_reason st = None ->
    inconclusive proc = true ->
    let r := run_confirm float_of_str center_hz proc st in
    store_of r = st /\
    trace_of r =
      [EvSubprocessRun (suscli_cmd center_hz) CONFIRM_SECONDS;
       EvSubprocessEnd] /\
    result_of r =
      match scan_lines float_of_str (stdout_of proc) 0.0 0.0 2 with
      | Ret pn => Ret (Scores (fst pn) (snd pn))
      | Raise e => Raise e
      end /\
    result_of r <> Ret Disabled /\
    (forall a th bw i pal ntsc,
        confirm_proc i = proc ->
        scan_lines float_of_str (stdout_of proc) 0.0 0.0 2 = Ret (pal, ntsc) ->
        exists alert,
          signal_infos alert = [("confirm"%string, center_hz, bw, pal, ntsc)] /\
          trace_of (confirm_and_reopen float_of_str a th center_hz bw i st) =
            [EvSubprocessRun (suscli_cmd center_hz) CONFIRM_SECONDS;
             EvSubprocessEnd;
             EvPrint (ConfirmLine center_hz pal ntsc)]
            ++ (if zmq a then [EvPublish alert] else [])
            ++ (if debug a
                then [EvPrint (DebugConfirm center_hz bw pal ntsc)]
                else [])
            ++ EvSleep COOLDOWN_S
            :: trace_of (start_tb_with_retry th (reopen i) st) /\
          (starts (reopen i 1) = true ->
           result_of (confirm_and_reopen float_of_str a th center_hz bw i st)
             = Ret tt /\
           store_of (confirm_and_reopen float_of_str a th center_hz bw i st)
             = store_of (set_tb (Some {| threshold_db := th |}) st))).
Proof.
  intros fos hz proc st Hf Hinc r.
  assert (Hp : output_is_parsed proc = true).
  { destruct proc as [|out|rc out unk|e]; try discriminate; [reflexivity|].
    cbn in *. apply andb_true_iff in Hinc. destruct Hinc as [_ Hu].
    apply negb_true_iff in Hu. rewrite Hu. now rewrite andb_false_r. }
  subst r. rewrite (run_confirm_parsed fos hz proc st Hf Hp).
  cbn [result_of store_of trace_of fst snd].
  split; [reflexivity|]. split; [reflexivity|]. split; [reflexivity|].
  split.
  { destruct (scan_lines fos (stdout_of proc) 0.0 0.0 2); discriminate. }
  intros a th bw i pal ntsc Hi Hscan.
  assert (Hrun : run_confirm fos hz (confirm_proc i) st =
                 (Ret (Scores pal ntsc), st,
                  [EvSubprocessRun (suscli_cmd hz) CONFIRM_SECONDS;
                   EvSubprocessEnd])).
  { rewrite Hi, (run_confirm_parsed fos hz proc st Hf Hp), Hscan.
    reflexivity. }
  destruct (confirm_and_reopen_scores fos a th hz bw i st pal ntsc _ Hrun)
    as [alert [Hsi [Htr Hok]]].
  exists alert. split; [exact Hsi|]. split; [exact Htr|exact Hok].
Qed.

(** ** The location poll (C9) *)

Lemma poll_keeps_or_stores float_of_str sub_sock r st :
  let res := poll_monitor_for_gps float_of_str sub_sock r st in
  trace_of res = [] /\
  (store_of res = st \/
   exists fix_, result_of res = Ret tt /\
                store_of res = store_of (set_gps fix_ st)).
Proof.
  unfold poll_monitor_for_gps.
  destruct sub_sock; [|cbn; auto].
  destruct r as [| |[payload|]]; try (cbn; now auto).
  cbn [negb]. unfold bind, lift, ret, set_gps.
  destruct (py_get payload "lat" PyNone) as [lat|]; [|cbn; auto].
  destruct (py_get payload "lon" PyNone) as [lon|]; [|cbn; auto].
  destruct (py_get payload "alt" (PyFloat 0.0)) as [alt|]; [|cbn; auto].
  destruct (is_valid_latlon float_of_str lat lon) as [[|]|]; try (cbn; now auto).
  destruct (py_float float_of_str lat); [|cbn; auto].
  destruct (py_float float_of_str lon); [|cbn; auto].
  destruct (py_float float_of_str alt); [|cbn; auto].
  cbn. split; [reflexivity|]. right. eauto.
Qed.

(** The two examples of the specification, and the messages that the poll
    passes over. *)
Lemma poll_examples float_of_str st :
  store_of (poll_monitor_for_gps float_of_str true
              (gps_message (PyFloat 95.0) (PyFloat (-120.0)) (PyFloat 100.0))
              st) = st /\
  _last_sensor_gps
    (store_of (poll_monitor_for_gps float_of_str true
                 (gps_message (PyFloat 45.0) (PyFloat (-120.0))
                    (PyFloat 100.0)) st))
    = Some (45.0, -120.0, 100.0)%float /\
  poll_monitor_for_gps float_of_str true (RecvMsg None) st = (Ret tt, st, []) /\
  poll_monitor_for_gps float_of_str true RecvAgain st = (Ret tt, st, []) /\
  poll_monitor_for_gps float_of_str true RecvFailed st = (Ret tt, st, []) /\
  poll_monitor_for_gps float_of_str true (RecvMsg (Some (PyDict []))) st
    = (Ret tt, st, []) /\
  poll_monitor_for_gps float_of_str true
    (gps_message (PyStr "north") (PyFloat 0.0) (PyFloat 0.0)) st
    = (Ret tt, st, []).
Proof. repeat split. Qed.

(** C9, where the script departs from it.  A telemetry message with a valid
    latitude and longitude and a null altitude makes the poll raise
    [TypeError]: only the latitude and the longitude are checked to be
    numbers before [float] is applied to the three fields.  The exception is
    caught nowhere: the visit and the scan loop end with it.  A message that
    decodes to something else than an object raises [AttributeError] in the
    same way. *)
Theorem poll_raises_on_null_altitude :
  forall float_of_str a th k rest st,
    poll_monitor_for_gps float_of_str true null_alt_message st
      = (Raise TypeError, st, []) /\
    scan_loop float_of_str a true th k (null_alt_visit :: rest) st
      = (Raise TypeError, st, []) /\
    poll_monitor_for_gps float_of_str true (RecvMsg (Some (PyList []))) st
      = (Raise AttributeError, st, []).
Proof.
  intros fos a th k rest st.
  split; [reflexivity|]. split; [|reflexivity].
  rewrite (scan_loop_stops fos a true th k null_alt_visit rest st TypeError);
    reflexivity.
Qed.

(** ** The radio and the classifier never overlap (C1) *)

Lemma mon_run_app mu t1 t2 :
  mon_run mu (t1 ++ t2) =
  match mon_run mu t1 with
  | Some mu' => mon_run mu' t2
  | None => None
  end.
Proof.
  revert mu. induction t1 as [|e t1 IH]; intros mu; [reflexivity|].
  cbn [app mon_run]. destruct (mon_step mu e); [apply IH|reflexivity].
Qed.

Lemma mon_step_silent mu e : silent e -> mon_step mu e = Some mu.
Proof. destruct mu, e; simpl; intros H; try destruct H; reflexivity. Qed.

Lemma mon_run_silent mu t : Forall silent t -> mon_run mu t = Some mu.
Proof.
  induction 1 as [|e t He _ IH]; [reflexivity|].
  cbn [mon_run]. now rewrite (mon_step_silent mu e He).
Qed.

(** What the monitor has accepted, it has followed. *)
Lemma mon_step_follows mu e mu' :
  mon_step mu e = Some mu' ->
  mu' = (hw_step (fst mu) e, confirm_step (snd mu) e).
Proof.
  destruct mu as [h c]. destruct e; cbn; intros H;
    try (inversion H; reflexivity).
  - destruct c; [discriminate|]. now inversion H.
  - destruct h, c; try discriminate; now inversion H.
Qed.

Lemma mon_run_follows t :
  forall mu mu',
    mon_run mu t = Some mu' ->
    mu' = (fold_left hw_step t (fst mu), fold_left confirm_step t (snd mu)).
Proof.
  induction t as [|e t IH]; intros mu mu' H; cbn in *.
  - inversion H. now destruct mu'.
  - destruct (mon_step mu e) as [mu1|] eqn:E; [|discriminate].
    apply mon_step_follows in E. subst mu1.
    apply IH in H. exact H.
Qed.

Lemma mon_run_sound t mu :
  mon_run (HwClosed, false) t = Some mu ->
  forall pre e post,
    t = pre ++ e :: post ->
    (is_subprocess_run e = true ->
     hw_after pre = HwClosed /\ confirming_after pre = false) /\
    (is_construct e = true -> confirming_after pre = false).
Proof.
  intros H pre e post Ht. subst t. rewrite mon_run_app in H.
  destruct (mon_run (HwClosed, false) pre) as [mu1|] eqn:E1; [|discriminate].
  apply mon_run_follows in E1. cbn [fst snd] in E1.
  fold (hw_after pre) in E1. fold (confirming_after pre) in E1.
  cbn [mon_run] in H.
  destruct (mon_step mu1 e) as [mu2|] eqn:E2; [|discriminate].
  subst mu1. clear H.
  destruct e; cbn in E2 |- *; split; intros He; try discriminate.
  - now destruct (confirming_after pre).
  - destruct (hw_after pre), (confirming_after pre);
      try discriminate; auto.
Qed.

(** *** Statements that the monitor does not look at *)

Lemma silent_bind {A B} (m : M A) (f : A -> M B) :
  silent_stmt m -> (forall a, silent_stmt (f a)) -> silent_stmt (bind m f).
Proof. apply preserves_bind. Qed.

Lemma silent_emit e : silent e -> silent_stmt (emit e).
Proof.
  intros He. apply preserves_emit. intros _ t H.
  apply Forall_app. split; [assumption|]. now constructor.
Qed.

Lemma silent_nothing {A} (m : M A) :
  (forall st, trace_of (m st) = []) -> silent_stmt m.
Proof. intros H st t0 Ht. rewrite H. now rewrite app_nil_r. Qed.

Lemma silent_trace {A} (m : M A) st :
  silent_stmt m -> Forall silent (trace_of (m st)).
Proof. intros H. exact (H st [] (Forall_nil _)). Qed.

Lemma silent_poll float_of_str sub_sock r :
  silent_stmt (poll_monitor_for_gps float_of_str sub_sock r).
Proof.
  apply silent_nothing. intros st.
  apply (poll_keeps_or_stores float_of_str sub_sock r st).
Qed.

Lemma silent_publish c b p n src : silent_stmt (publish_alert c b p n src).
Proof.
  intros st t0 H. destruct (publish_alert_run c b p n src st) as [al [E _]].
  rewrite E. cbn. apply Forall_app. split; [assumption|].
  repeat constructor.
Qed.

Lemma silent_disable reason : silent_stmt (_disable_confirm reason).
Proof.
  intros st t0 H. destruct (_confirm_disabled_reason st) as [old|] eqn:Hf.
  - rewrite (_disable_confirm_set _ _ _ Hf). cbn. now rewrite app_nil_r.
  - rewrite (_disable_confirm_unset _ _ Hf). cbn.
    apply Forall_app. split; [assumption|]. repeat constructor.
Qed.

Lemma silent_confirm_outcome float_of_str proc :
  silent_stmt (confirm_outcome float_of_str proc).
Proof. apply preserves_confirm_outcome. apply silent_disable. Qed.

Lemma silent_warmup_sweep probe :
  forall channels k medians,
    silent_stmt (warmup_sweep probe k channels medians).
Proof.
  induction channels as [|mhz rest IH]; intros k medians;
    cbn [warmup_sweep].
  - apply preserves_ret.
  - repeat (apply silent_bind; [apply silent_emit; exact I|intros _]).
    apply IH.
Qed.

Lemma silent_warmup_threshold probe : silent_stmt (warmup_threshold probe).
Proof.
  unfold warmup_threshold. apply silent_bind.
  - generalize 0 at 1. generalize (@nil float).
    induction WARMUP_SWEEPS as [|n IH]; intros medians k;
      cbn [warmup_sweeps].
    + apply preserves_ret.
    + apply silent_bind; [apply silent_warmup_sweep|intros km; apply IH].
  - intros [|m ms]; [apply preserves_ret|].
    destruct (median (m :: ms)); [apply preserves_ret|apply preserves_raise].
Qed.

(** *** Rules for [accepts] *)

Lemma accepts_bind {A B} (m : M A) (f : A -> M B) mu
  (Q : outcome A -> hw * bool -> Prop)
  (R : outcome B -> hw * bool -> Prop) :
  accepts m mu Q ->
  (forall a mu', Q (Ret a) mu' -> accepts (f a) mu' R) ->
  (forall e mu', Q (Raise e) mu' -> R (Raise e) mu') ->
  accepts (bind m f) mu R.
Proof.
  intros Hm Hf Hraise st. destruct (Hm st) as [mu1 [H1 HQ]].
  destruct (m st) as [[[a|e] st1] t1] eqn:E.
  - rewrite (bind_run_ret _ _ _ _ _ _ E).
    cbn [result_of store_of trace_of fst snd] in *.
    destruct (Hf a mu1 HQ st1) as [mu2 [H2 HR]].
    exists mu2. rewrite mon_run_app, H1. auto.
  - rewrite (bind_run_raise _ _ _ _ _ _ E).
    cbn [result_of store_of trace_of fst snd] in *. eauto.
Qed.

Lemma accepts_silent {A} (m : M A) mu :
  silent_stmt m -> accepts m mu (fun _ mu' => mu' = mu).
Proof.
  intros H st. exists mu. split; [|reflexivity].
  apply mon_run_silent. now apply silent_trace.
Qed.

Lemma accepts_silent_bind {A B} (m : M A) (f : A -> M B) mu
  (R : outcome B -> hw * bool -> Prop) :
  silent_stmt m ->
  (forall a, accepts (f a) mu R) ->
  (forall e, R (Raise e) mu) ->
  accepts (bind m f) mu R.
Proof.
  intros Hm Hf Hraise.
  apply accepts_bind with (Q := fun _ mu' => mu' = mu).
  - now apply accepts_silent.
  - intros a mu' ->. apply Hf.
  - intros e mu' ->. apply Hraise.
Qed.

Lemma accepts_emit_bind {B} (e : event) (k : M B) mu mu'
  (R : outcome B -> hw * bool -> Prop) :
  mon_step mu e = Some mu' ->
  accepts k mu' R ->
  accepts (bind (emit e) (fun _ => k)) mu R.
Proof.
  intros He Hk st. destruct (Hk st) as [mu2 [H2 HR]].
  rewrite (bind_run_ret (emit e) _ st tt st [e]) by reflexivity.
  cbn [result_of store_of trace_of fst snd app mon_run].
  rewrite He. eauto.
Qed.

Lemma accepts_set_tb_bind {B} o (k : M B) mu
  (R : outcome B -> hw * bool -> Prop) :
  accepts k mu R -> accepts (bind (set_tb o) (fun _ => k)) mu R.
Proof.
  intros Hk st.
  rewrite (bind_run_ret (set_tb o) _ st tt _ []) by reflexivity.
  cbn [result_of store_of trace_of fst snd app]. apply Hk.
Qed.

Lemma accepts_ret {A} (a : A) mu (R : outcome A -> hw * bool -> Prop) :
  R (Ret a) mu -> accepts (ret a) mu R.
Proof. intros H st. exists mu. auto. Qed.

Lemma accepts_raise {A} (e : exn) mu (R : outcome A -> hw * bool -> Prop) :
  R (Raise e) mu -> accepts (@raise A e) mu R.
Proof. intros H st. exists mu. auto. Qed.

Lemma accepts_set_tb o mu (R : outcome unit -> hw * bool -> Prop) :
  R (Ret tt) mu -> accepts (set_tb o) mu R.
Proof. intros H st. exists mu. auto. Qed.

(** *** The statements of the script *)

Lemma accepts_retry_loop th outcome_of :
  forall attempts h,
    accepts (retry_loop th outcome_of attempts) (h, false) scanning_again.
Proof.
  induction attempts as [|k rest IH]; intros h; cbn [retry_loop].
  - apply accepts_raise. split; [reflexivity|discriminate].
  - destruct (construct_exn (outcome_of k)) as [e|].
    + eapply accepts_emit_bind; [reflexivity|].
      apply accepts_raise. split; [reflexivity|discriminate].
    + eapply accepts_emit_bind; [reflexivity|]. cbn [hw_step fst].
      destruct (start_exn (outcome_of k)) as [[why| | | | |]|];
        try (eapply accepts_emit_bind; [reflexivity|];
             apply accepts_raise; split; [reflexivity|discriminate]).
      * repeat (eapply accepts_emit_bind; [reflexivity|]).
        cbn [hw_step confirm_step fst snd]. apply IH.
      * eapply accepts_emit_bind; [reflexivity|].
        apply accepts_ret. split; [reflexivity|reflexivity].
Qed.

Lemma accepts_open_once th o h :
  accepts (open_once th o) (h, false) scanning_again.
Proof.
  unfold open_once. destruct (construct_exn o) as [e|].
  - eapply accepts_emit_bind; [reflexivity|].
    apply accepts_raise. split; [reflexivity|discriminate].
  - eapply accepts_emit_bind; [reflexivity|]. cbn [hw_step fst].
    destruct (start_exn o) as [e|];
      (eapply accepts_emit_bind; [reflexivity|]).
    + apply accepts_raise. split; [reflexivity|discriminate].
    + apply accepts_ret. split; reflexivity.
Qed.

Lemma accepts_run_confirm float_of_str hz proc :
  accepts (run_confirm float_of_str hz proc) (HwClosed, false)
          (fun _ mu' => mu' = (HwClosed, false)).
Proof.
  intros st. exists (HwClosed, false). split; [|reflexivity].
  destruct (_confirm_disabled_reason st) as [old|] eqn:Hf.
  - now rewrite (run_confirm_disabled _ _ _ _ _ Hf).
  - rewrite (run_confirm_enabled _ _ _ _ Hf). cbn [trace_of snd mon_run].
    cbn [mon_step hw_step confirm_step fst snd].
    apply mon_run_silent. apply silent_trace. apply silent_confirm_outcome.
Qed.

Lemma accepts_confirm_and_reopen float_of_str a th hz bw i :
  accepts (confirm_and_reopen float_of_str a th hz bw i) (HwClosed, false)
          scanning_again.
Proof.
  unfold confirm_and_reopen.
  apply accepts_bind with (Q := fun _ mu' => mu' = (HwClosed, false)).
  - apply accepts_run_confirm.
  - intros r mu' ->.
    apply accepts_silent_bind.
    + destruct r as [|pal ntsc]; [apply silent_emit; exact I|].
      apply silent_bind; [apply silent_emit; exact I|intros _].
      apply silent_bind.
      * destruct (zmq a); [apply silent_publish|apply preserves_ret].
      * intros _. destruct (debug a);
          [apply silent_emit; exact I|apply preserves_ret].
    + intros _. eapply accepts_emit_bind; [reflexivity|].
      cbn [hw_step confirm_step fst snd].
      apply accepts_bind with (Q := scanning_again).
      * apply accepts_retry_loop.
      * intros t mu' [Hc Ho]. apply accepts_set_tb.
        split; [exact Hc|]. intros _ _. now apply (Ho t).
      * intros e mu' [Hc _]. split; [exact Hc|discriminate].
    + intros e. split; [reflexivity|discriminate].
  - intros e mu' ->. split; [reflexivity|discriminate].
Qed.

Lemma accepts_on_report float_of_str a th mhz signals i :
  accepts (on_report float_of_str a th mhz signals i) (HwOpen, false)
          scanning_again.
Proof.
  unfold on_report. destruct signals as [|s0 others].
  - intros st. exists (HwOpen, false). cbn. split; [reflexivity|].
    split; reflexivity.
  - eapply accepts_emit_bind; [reflexivity|].
    cbn [hw_step confirm_step fst snd].
    apply accepts_silent_bind.
    + destruct (zmq a); [apply silent_publish|apply preserves_ret].
    + intros _.
      eapply accepts_emit_bind; [reflexivity|].
      eapply accepts_emit_bind; [reflexivity|].
      apply accepts_set_tb_bind.
      eapply accepts_emit_bind; [reflexivity|].
      eapply accepts_emit_bind; [reflexivity|].
      cbn [hw_step confirm_step fst snd].
      apply accepts_confirm_and_reopen.
    + intros e. split; [reflexivity|discriminate].
Qed.

Lemma accepts_visit float_of_str a sub_sock th mhz i :
  accepts (visit float_of_str a sub_sock th mhz i) (HwOpen, false)
          scanning_again.
Proof.
  unfold visit. apply accepts_silent_bind.
  - apply silent_poll.
  - intros _. repeat (eapply accepts_emit_bind; [reflexivity|]).
    cbn [hw_step confirm_step fst snd]. apply accepts_on_report.
  - intros e. split; [reflexivity|discriminate].
Qed.

Lemma accepts_scan_loop float_of_str a sub_sock th :
  forall visits k,
    accepts (scan_loop float_of_str a sub_sock th k visits) (HwOpen, false)
            scanning_again.
Proof.
  induction visits as [|i rest IH]; intros k; cbn [scan_loop].
  - apply accepts_ret. split; reflexivity.
  - apply accepts_bind with (Q := scanning_again).
    + apply accepts_visit.
    + intros u [h c] [Hc Ho]. cbn in Hc, Ho. subst c.
      rewrite (Ho u eq_refl). apply IH.
    + intros e mu' [Hc _]. split; [exact Hc|discriminate].
Qed.

Lemma accepts_calibrate a s :
  accepts (calibrate a s) (HwClosed, false) scanning_again.
Proof.
  unfold calibrate.
  apply accepts_bind with (Q := scanning_again).
  - apply accepts_open_once.
  - intros t [h c] [Hc Ho]. cbn in Hc, Ho. subst c.
    rewrite (Ho t eq_refl). apply accepts_set_tb_bind.
    cbn [WARMUP_SWEEPS Nat.ltb Nat.leb AUTO_THRESHOLD negb andb].
    apply accepts_silent_bind.
    + apply silent_warmup_threshold.
    + intros th. apply accepts_silent_bind.
      * destruct (debug a); [apply silent_emit; exact I|apply preserves_ret].
      * intros _.
        eapply accepts_emit_bind; [reflexivity|].
        eapply accepts_emit_bind; [reflexivity|].
        apply accepts_set_tb_bind.
        eapply accepts_emit_bind; [reflexivity|].
        eapply accepts_emit_bind; [reflexivity|].
        cbn [hw_step confirm_step fst snd].
        apply accepts_bind with (Q := scanning_again).
        -- apply accepts_retry_loop.
        -- intros t' mu' [Hc Ho']. apply accepts_set_tb_bind.
           apply accepts_ret. split; [exact Hc|].
           intros _ _. now apply (Ho' t').
        -- intros e mu' [Hc _]. split; [exact Hc|discriminate].
      * intros e. split; [reflexivity|discriminate].
    + intros e. split; [reflexivity|discriminate].
  - intros e mu' [Hc _]. split; [exact Hc|discriminate].
Qed.

Lemma accepts_main float_of_str a s visits st :
  exists mu,
    mon_run (HwClosed, false) (trace_of (main float_of_str a s visits st))
    = Some mu.
Proof.
  assert (H : accepts (main float_of_str a s visits) (HwClosed, false)
                      (fun _ _ => True)).
  { unfold main. apply accepts_bind with (Q := scanning_again).
    - apply accepts_calibrate.
    - intros th [h c] [Hc Ho]. cbn in Hc, Ho. subst c.
      rewrite (Ho th eq_refl). intros st0.
      destruct (accepts_scan_loop float_of_str a (mon_sub s) th visits 0 st0)
        as [mu1 [H1 [Hc1 _]]].
      unfold finally_.
      destruct (scan_loop float_of_str a (mon_sub s) th 0 visits st0)
        as [[[u|e] st1] t1]; cbn [trace_of snd] in *; [eauto|].
      destruct (release_on_exit st1) as [[r2 st2] t2] eqn:E2.
      assert (H2 : exists mu2, mon_run mu1 t2 = Some mu2).
      { unfold release_on_exit, bind, get, emit, ret in E2.
        destruct (tb st1); inversion E2; subst; cbn.
        - destruct mu1 as [h1 c1]. cbn in Hc1. subst c1. cbn. eauto.
        - eauto. }
      destruct H2 as [mu2 H2].
      exists mu2. split; [|exact I].
      destruct r2; cbn [trace_of snd]; now rewrite mon_run_app, H1.
    - intros; exact I. }
  destruct (H st) as [mu [Hmu _]]. eauto.
Qed.

(** C1.  In every run of [main], for any number of channel visits and
    whatever the radio, the classifier and the telemetry do: at each entry
    of [subprocess.run] the hardware session is fully closed (the top block
    was stopped, waited for, dropped and collected, and none was built
    since) and no other confirmation is in progress; and no top block is
    built while a confirmation is in progress. *)
Theorem confirm_excludes_radio :
  forall float_of_str a s visits pre e post,
    trace_of (main float_of_str a s visits init_store) = pre ++ e :: post ->
    (is_subprocess_run e = true ->
     hw_after pre = HwClosed /\ confirming_after pre = false) /\
    (is_construct e = true -> confirming_after pre = false).
Proof.
  intros fos a s visits pre e post Ht.
  destruct (accepts_main fos a s visits init_store) as [mu Hmu].
  exact (mon_run_sound _ mu Hmu pre e post Ht).
Qed.

(** * The claims on the examples *)

(** C1 on the example run: its 195th event is the entry of the classifier,
    and the radio is closed then. *)
Lemma confirm_excludes_radio_witness :
  example_trace =
    firstn 194 example_trace
    ++ EvSubprocessRun (suscli_cmd 4990.5e6%float) CONFIRM_SECONDS
    :: skipn 195 example_trace /\
  hw_after (firstn 194 example_trace) = HwClosed /\
  confirming_after (firstn 194 example_trace) = false.
Proof.
  assert (H : example_trace =
              firstn 194 example_trace
              ++ EvSubprocessRun (suscli_cmd 4990.5e6%float) CONFIRM_SECONDS
              :: skipn 195 example_trace)
    by (vm_compute; reflexivity).
  split; [exact H|].
  exact (proj1 (confirm_excludes_radio no_numerals example_args
                  example_startup [example_visit] _ _ _ H) eq_refl).
Defined.

(** C2 on a store whose breaker is set. *)
Lemma breaker_is_sticky_witness :
  _confirm_disabled_reason disabled_store
    = Some "suscli not found in PATH"%string /\
  run_confirm no_numerals 5805.5e6%float (TimeoutExpired example_output)
    disabled_store = (Ret Disabled, disabled_store, []).
Proof.
  split; [reflexivity|].
  exact (proj1 (proj2 (breaker_is_sticky no_numerals _ disabled_store eq_refl))
           5805.5e6%float (TimeoutExpired example_output)).
Defined.

(** C3 on a radio that is busy twice: the third attempt starts. *)
Lemma reopen_retries_are_bounded_witness :
  (forall k, 1 <= k <= REOPEN_RETRIES ->
             start_fails (busy_twice k) = true \/
             starts (busy_twice k) = true) /\
  attempts_made
    (trace_of (start_tb_with_retry (-88.0)%float busy_twice init_store)) = 3 /\
  reopen_delays
    (trace_of (start_tb_with_retry (-88.0)%float busy_twice init_store)) = 2.
Proof.
  assert (H : forall k, 1 <= k <= REOPEN_RETRIES ->
                        start_fails (busy_twice k) = true \/
                        starts (busy_twice k) = true).
  { intros k _. unfold busy_twice.
    destruct (k <=? 2)%nat; [left|right]; reflexivity. }
  split; [exact H|].
  pose proof (reopen_retries_are_bounded (-88.0)%float busy_twice
                init_store H) as T.
  cbv zeta in T.
  destruct T as [_ [_ [_ [_ [_ [_ [Ha [Hd _]]]]]]]].
  split; [exact Ha|exact Hd].
Defined.

(** C3 as stated fails at start-up: the first open is not retried.  With a
    radio that is busy when [main] starts, there is one attempt, no delay,
    and the run ends in the error of that attempt. *)
Lemma first_open_is_not_retried :
  let r := main no_numerals example_args busy_startup [example_visit]
             init_store in
  start_exn (first_open busy_startup) = Some (RuntimeError "device busy") /\
  result_of r = Raise (RuntimeError "device busy") /\
  trace_of r = [EvConstruct THRESHOLD_DB true; EvStart false] /\
  attempts_made (trace_of r) = 1 /\
  attempts_made (trace_of r) <> 5 /\
  reopen_delays (trace_of r) = 0.
Proof.
  cbv zeta. split; [reflexivity|]. split; [reflexivity|].
  split; [reflexivity|]. split; [reflexivity|].
  split; [|reflexivity].
  vm_compute. discriminate.
Qed.

(** C4 on a classifier that times out after the example output. *)
Lemma inconclusive_run_still_scores_witness :
  _confirm_disabled_reason scanning_store = None /\
  inconclusive (TimeoutExpired example_output) = true /\
  result_of (run_confirm no_numerals 5805.5e6%float
               (TimeoutExpired example_output) scanning_store)
    = Ret (Scores 0.9 0.8)%float.
Proof.
  split; [reflexivity|]. split; [reflexivity|].
  exact (proj1 (proj2 (proj2
           (inconclusive_run_still_scores no_numerals 5805.5e6%float
              (TimeoutExpired example_output) scanning_store
              eq_refl eq_refl)))).
Defined.

(** C4 as stated fails: a time-out, and an exit with status 1 and no
    unknown-command text, both return scores, and the loop publishes a
    confirm alert that carries them. *)
Lemma inconclusive_run_returns_scores :
  inconclusive (TimeoutExpired example_output) = true /\
  inconclusive (CompletedProcess 1 example_output false) = true /\
  run_confirm no_numerals 5805.5e6%float (TimeoutExpired example_output)
    scanning_store
    = (Ret (Scores 0.9 0.8)%float, scanning_store,
       [EvSubprocessRun (suscli_cmd 5805.5e6%float) CONFIRM_SECONDS;
        EvSubprocessEnd]) /\
  run_confirm no_numerals 5805.5e6%float
    (CompletedProcess 1 example_output false) scanning_store
    = (Ret (Scores 0.9 0.8)%float, scanning_store,
       [EvSubprocessRun (suscli_cmd 5805.5e6%float) CONFIRM_SECONDS;
        EvSubprocessEnd]) /\
  In (EvPublish
        [ BasicID "Serial Number (ANSI/CTA-2063-A)" ALERT_ID_PREFIX 5805.5
            "FPV Signal";
          SelfID "FPV alert (confirm)";
          FrequencyMessage 5805.5e6;
          SignalInfo "confirm" 5805.5e6 6.0e6 0.9 0.8 ]%float)
     (trace_of (confirm_and_reopen no_numerals example_args (-88.0)%float
                  5805.5e6%float 6.0e6%float example_visit scanning_store)).
Proof.
  split; [reflexivity|]. split; [reflexivity|].
  split; [reflexivity|]. split; [reflexivity|].
  vm_compute. right. right. right. left. reflexivity.
Qed.

(** C5 on the example of the specification. *)
Lemma best_of_run_from_zero_witness :
  Forall (well_formed_record no_numerals) (records example_output) /\
  scan_lines no_numerals example_output 0.0 0.0 2 = Ret (0.9, 0.8)%float.
Proof.
  assert (H : Forall (well_formed_record no_numerals) (records example_output)).
  { repeat constructor; eexists; reflexivity. }
  split; [exact H|].
  exact (proj1 (best_of_run_from_zero no_numerals example_output H)).
Defined.

Lemma float_neq_by_sign (x y : float) :
  (x <? 0)%float <> (y <? 0)%float -> x <> y.
Proof. intros H E. apply H. now rewrite E. Qed.

(** C5 as stated fails: when the only record has the scores -0.5 and -0.25,
    [run_confirm] returns 0.0 and 0.0, which are not observed scores, and
    not the greatest observed, -0.5 and -0.25. *)
Lemma best_of_run_is_not_the_maximum :
  scan_lines no_numerals negative_output 0.0 0.0 2 = Ret (0.0, 0.0)%float /\
  result_of (run_confirm no_numerals 5805.5e6%float
               (CompletedProcess 0 negative_output false) scanning_store)
    = Ret (Scores 0.0 0.0)%float /\
  pal_scores no_numerals negative_output = [(-0.5)%float] /\
  ntsc_scores no_numerals negative_output = [(-0.25)%float] /\
  ~ is_max 0.0%float (pal_scores no_numerals negative_output) /\
  ~ is_max 0.0%float (ntsc_scores no_numerals negative_output).
Proof.
  split; [reflexivity|]. split; [reflexivity|].
  split; [reflexivity|]. split; [reflexivity|].
  split; intros [[H|[]] _]; revert H; apply float_neq_by_sign;
    vm_compute; discriminate.
Qed.

(** C7 on the report of the specification's example, on 5805 MHz. *)
Lemma candidate_is_widest_signal_witness :
  parse_rf_map (Some example_map) (center_hz_of 5805) <> [] /\
  max_by_bw (5805.2e6, 4.2e6)%float [(5805.5e6, 6.0e6)%float]
    = (5805.5e6, 6.0e6)%float.
Proof.
  assert (H : parse_rf_map (Some example_map) (center_hz_of 5805) <> [])
    by (vm_compute; discriminate).
  split; [exact H|].
  exact (proj2 (candidate_is_widest_signal no_numerals example_args
                  (-88.0)%float 5805 (Some example_map) example_visit
                  scanning_store H)).
Defined.

(** C10 on the example run: its energy alert. *)
Lemma energy_alerts_carry_zero_scores_witness :
  In (EvPublish example_energy_alert) example_trace /\
  In (SignalInfo "energy" 4990.5e6 6.0e6 0.0 0.0)%float
     example_energy_alert /\
  (0.0 = 0.0 /\ 0.0 = 0.0)%float.
Proof.
  assert (H1 : In (EvPublish example_energy_alert) example_trace).
  { apply (nth_error_In example_trace 189). vm_compute. reflexivity. }
  assert (H2 : In (SignalInfo "energy" 4990.5e6 6.0e6 0.0 0.0)%float
                  example_energy_alert).
  { do 4 right. left. reflexivity. }
  split; [exact H1|]. split; [exact H2|].
  exact (energy_alerts_carry_zero_scores no_numerals example_args
           example_startup [example_visit] example_energy_alert
           _ _ _ _ H1 H2).
Defined.

(** * Further properties of the script *)

(** ** The channel plan *)

Lemma insert_center_in x y l :
  In x (insert_center y l) <-> x = y \/ In x l.
Proof.
  induction l as [|z r IH]; simpl.
  - intuition.
  - destruct (y <? z)%Z eqn:Hlt; [simpl; intuition|].
    destruct (y =? z)%Z eqn:Heq.
    + apply Z.eqb_eq in Heq. subst. simpl. intuition.
    + simpl. rewrite IH. intuition.
Qed.

Lemma insert_center_sorted y l :
  StronglySorted Z.lt l -> StronglySorted Z.lt (insert_center y l).
Proof.
  induction l as [|z r IH]; intros Hs; simpl.
  - repeat constructor.
  - inversion Hs as [|? ? Hr Hz]; subst.
    destruct (y <? z)%Z eqn:Hlt.
    + apply Z.ltb_lt in Hlt. constructor; [assumption|].
      constructor; [assumption|].
      rewrite Forall_forall in *. intros w Hw. specialize (Hz w Hw). lia.
    + destruct (y =? z)%Z eqn:Heq; [assumption|].
      apply Z.ltb_ge in Hlt. apply Z.eqb_neq in Heq.
      constructor; [now apply IH|].
      rewrite Forall_forall in *. intros w Hw.
      apply insert_center_in in Hw. destruct Hw as [Hw|Hw]; [lia|auto].
Qed.

Lemma sorted_set_in x l : In x (sorted_set l) <-> In x l.
Proof.
  induction l as [|y r IH]; simpl; [tauto|].
  rewrite insert_center_in, IH. intuition.
Qed.

Lemma sorted_set_sorted l : StronglySorted Z.lt (sorted_set l).
Proof.
  induction l as [|y r IH]; simpl; [constructor|].
  now apply insert_center_sorted.
Qed.

Lemma plan_length : List.length ALL_CENTERS_MHZ = 59.
Proof. vm_compute. reflexivity. Qed.

Lemma channel_in_plan k : In (channel k) ALL_CENTERS_MHZ.
Proof.
  unfold channel. apply nth_In. rewrite plan_length.
  apply Nat.mod_upper_bound. discriminate.
Qed.

Lemma StronglySorted_nth l :
  StronglySorted Z.lt l ->
  forall i j, i < j < List.length l -> (nth i l 0 < nth j l 0)%Z.
Proof.
  induction 1 as [|x l Hs IH Hx]; intros i j Hij; simpl in Hij; [lia|].
  destruct j as [|j]; [lia|]. destruct i as [|i]; simpl.
  - rewrite Forall_forall in Hx. apply Hx, nth_In. lia.
  - apply IH. lia.
Qed.

(** The plan of the sweep: [sorted(set(...))] is strictly ascending and holds
    the listed frequencies and no other, whatever the list; the plan has 59
    channels; the visits of the scan loop go through it in ascending order
    and start again after the last. *)
Theorem channel_plan_is_ascending :
  (forall l,
      StronglySorted Z.lt (sorted_set l) /\
      forall mhz, In mhz (sorted_set l) <-> In mhz l) /\
  List.length ALL_CENTERS_MHZ = 59 /\
  (forall k, In (channel k) (RACE_BANDS_ALL_MHZ ++ EXTRA_59_MHZ)) /\
  (forall mhz, In mhz (RACE_BANDS_ALL_MHZ ++ EXTRA_59_MHZ) ->
               exists k, k < 59 /\ channel k = mhz) /\
  (forall k, channel (k + 59) = channel k) /\
  (forall i j, i < j < 59 -> (channel i < channel j)%Z).
Proof.
  split; [intros l; split; [apply sorted_set_sorted|intros; apply sorted_set_in]|].
  split; [exact plan_length|].
  split.
  { intros k. apply sorted_set_in. apply channel_in_plan. }
  split.
  { intros mhz Hin. apply sorted_set_in in Hin.
    fold ALL_CENTERS_MHZ in Hin.
    destruct (In_nth _ _ 0%Z Hin) as [k [Hk Hnth]].
    rewrite plan_length in Hk. exists k. split; [assumption|].
    unfold channel. rewrite plan_length, Nat.mod_small; assumption. }
  split.
  { intros k. unfold channel. rewrite plan_length.
    replace (k + 59) with (k + 1 * 59) by lia.
    now rewrite Nat.Div0.mod_add. }
  intros i j Hij. unfold channel. rewrite plan_length.
  rewrite !Nat.mod_small by lia.
  apply StronglySorted_nth; [apply sorted_set_sorted|].
  rewrite plan_length. exact Hij.
Qed.

(** ** The latest message of the detector *)

(** [get_latest_map] returns the message stored last, and [None] exactly when
    none is stored; then the report is empty, and the visit says so and
    leaves the radio as it is. *)
Theorem get_latest_map_is_last_stored :
  forall (msg_dbg : list (list rf_row)),
    (forall msg, get_latest_map (msg_dbg ++ [msg]) = Some msg) /\
    (get_latest_map msg_dbg = None <-> msg_dbg = []) /\
    (get_latest_map msg_dbg = None ->
     forall center_hz a th mhz float_of_str i st,
       on_report float_of_str a th mhz
         (parse_rf_map (get_latest_map msg_dbg) center_hz) i st
       = (Ret tt, st, [EvPrint (NoSignalsLine mhz)])).
Proof.
  intros msg_dbg. split; [|split].
  - intros msg. unfold get_latest_map. rewrite length_app. cbn [List.length].
    replace (List.length msg_dbg + 1 =? 0)%nat with false
      by (symmetry; apply Nat.eqb_neq; lia).
    rewrite nth_error_app2 by lia.
    replace (List.length msg_dbg + 1 - 1 - List.length msg_dbg) with 0 by lia.
    reflexivity.
  - unfold get_latest_map. split.
    + destruct msg_dbg as [|m r]; [reflexivity|].
      cbn [List.length Nat.eqb]. intros H. apply nth_error_None in H.
      simpl in H. lia.
    + intros ->. reflexivity.
  - intros H c a th mhz fos i st. rewrite H. reflexivity.
Qed.

(** ** The check of a position *)

Lemma py_float_numeric float_of_str v :
  is_int_or_float v = true ->
  (exists f, py_float float_of_str v = Ret f /\ overflows v = false) \/
  (py_float float_of_str v = Raise OverflowError /\ overflows v = true).
Proof.
  destruct v; try discriminate; intros _; cbn [py_float overflows].
  - destruct b; left; eauto.
  - destruct (is_infinity (Z_to_float z)); [right|left]; eauto.
  - left; eauto.
Qed.

Lemma is_valid_latlon_true_floats float_of_str lat lon :
  is_valid_latlon float_of_str lat lon = Ret true ->
  exists la lo,
    py_float float_of_str lat = Ret la /\
    py_float float_of_str lon = Ret lo.
Proof.
  unfold is_valid_latlon. intros H.
  destruct (negb (is_int_or_float lat) || negb (is_int_or_float lon));
    [discriminate|].
  destruct (py_float float_of_str lat) as [la|e]; [|discriminate].
  cbn [obind] in H.
  destruct ((-90.0 <=? la) && (la <=? 90.0))%float; [|discriminate].
  destruct (py_float float_of_str lon) as [lo|e]; [|discriminate].
  exists la, lo. split; reflexivity.
Qed.

Lemma is_valid_latlon_in_range float_of_str lat lon la lo :
  is_valid_latlon float_of_str lat lon = Ret true ->
  py_float float_of_str lat = Ret la ->
  py_float float_of_str lon = Ret lo ->
  in_range la lo = true.
Proof.
  unfold is_valid_latlon, in_range. intros H Ela Elo.
  destruct (negb (is_int_or_float lat) || negb (is_int_or_float lon));
    [discriminate|].
  rewrite Ela in H. cbn [obind] in H.
  destruct ((-90.0 <=? la) && (la <=? 90.0))%float; [|discriminate].
  rewrite Elo in H. cbn [obind] in H. injection H as H'.
  now rewrite H'.
Qed.

(** [is_valid_latlon] answers yes exactly when both values are numbers
    ([int], [float] or [bool]; a numeral in a string is not one) and lie in
    the ranges of a latitude and a longitude, NaN lying in none.  It raises
    only on an integer too large for a float, with [OverflowError]; a NaN
    is never accepted. *)
Theorem is_valid_latlon_checks_type_and_range :
  forall float_of_str lat lon,
    (is_valid_latlon float_of_str lat lon = Ret true <->
     is_int_or_float lat = true /\ is_int_or_float lon = true /\
     exists la lo,
       py_float float_of_str lat = Ret la /\
       py_float float_of_str lon = Ret lo /\
       in_range la lo = true) /\
    (forall e,
        is_valid_latlon float_of_str lat lon = Raise e ->
        e = OverflowError /\ (overflows lat = true \/ overflows lon = true)) /\
    (forall s, is_valid_latlon float_of_str (PyStr s) lon = Ret false) /\
    (forall s, is_valid_latlon float_of_str lat (PyStr s) = Ret false) /\
    is_valid_latlon float_of_str PyNone PyNone = Ret false /\
    is_valid_latlon float_of_str (PyFloat nan) lon = Ret false /\
    is_valid_latlon float_of_str lat (PyFloat nan) <> Ret true.
Proof.
  intros fos lat lon.
  split; [|split; [|split; [|split; [|split; [|split]]]]].
  - unfold is_valid_latlon, in_range.
    destruct (is_int_or_float lat) eqn:Hlat;
      [|cbn; split; [discriminate|intros [H _]; discriminate]].
    destruct (is_int_or_float lon) eqn:Hlon;
      [|cbn; split; [discriminate|intros [_ [H _]]; discriminate]].
    cbn [negb orb].
    destruct (py_float_numeric fos lat Hlat) as [[la [Ela _]]|[Ela _]];
      rewrite Ela; cbn [obind].
    + destruct (py_float_numeric fos lon Hlon) as [[lo [Elo _]]|[Elo _]];
        rewrite Elo.
      * destruct ((-90.0 <=? la) && (la <=? 90.0))%float eqn:Hr;
          cbn [obind].
        -- split.
           ++ intros H. injection H as H'. split; [reflexivity|].
              split; [reflexivity|]. exists la, lo.
              split; [reflexivity|]. split; [reflexivity|].
              rewrite Hr. exact H'.
           ++ intros [_ [_ [la' [lo' [E1 [E2 H]]]]]].
              inversion E1; inversion E2; subst.
              rewrite Hr in H. cbn [andb] in H. now rewrite H.
        -- split; [discriminate|].
           intros [_ [_ [la' [lo' [E1 [E2 H]]]]]].
           inversion E1; inversion E2; subst.
           rewrite Hr in H. discriminate.
      * destruct ((-90.0 <=? la) && (la <=? 90.0))%float; cbn [obind];
          (split; [discriminate|]);
          intros [_ [_ [la' [lo' [_ [E2 _]]]]]]; discriminate.
    + split; [discriminate|].
      intros [_ [_ [la' [lo' [E1 _]]]]]; discriminate.
  - intros e. unfold is_valid_latlon.
    destruct (is_int_or_float lat) eqn:Hlat; [|discriminate].
    destruct (is_int_or_float lon) eqn:Hlon; [|discriminate].
    cbn [negb orb].
    destruct (py_float_numeric fos lat Hlat) as [[la [Ela _]]|[Ela Ola]];
      rewrite Ela; cbn [obind].
    + destruct ((-90.0 <=? la) && (la <=? 90.0))%float; [|discriminate].
      destruct (py_float_numeric fos lon Hlon) as [[lo [Elo _]]|[Elo Olo]];
        rewrite Elo; cbn [obind]; [discriminate|].
      intros H; inversion H; auto.
    + intros H; inversion H; auto.
  - intros s. reflexivity.
  - intros s. unfold is_valid_latlon. cbn [is_int_or_float negb].
    now rewrite orb_true_r.
  - reflexivity.
  - unfold is_valid_latlon. cbn [is_int_or_float negb orb].
    destruct (is_int_or_float lon); reflexivity.
  - intros H. apply is_valid_latlon_true_floats in H as H'.
    destruct H' as [la [lo [Ela Elo]]].
    pose proof (is_valid_latlon_in_range fos _ _ la lo H Ela Elo) as Hr.
    cbn [py_float] in Elo. injection Elo as <-.
    unfold in_range in Hr.
    change (-180.0 <=? nan)%float with false in Hr.
    cbn [andb] in Hr. rewrite andb_false_r in Hr. discriminate.
Qed.

(** ** What the poll stores *)

Lemma dict_get_absent d key default :
  (forall v, ~ In (key, v) d) -> dict_get d key default = default.
Proof.
  induction d as [|[k v] r IH]; intros H; [reflexivity|].
  cbn [dict_get]. destruct (String.eqb k key) eqn:E.
  - apply String.eqb_eq in E. subst. exfalso. apply (H v). now left.
  - apply IH. intros w Hw. apply (H w). now right.
Qed.

(** The poll makes no event; it leaves the store as it is, or it returns
    and has stored a position that passed the check. *)
Lemma poll_footprint float_of_str sub_sock r st :
  let res := poll_monitor_for_gps float_of_str sub_sock r st in
  trace_of res = [] /\
  (store_of res = st \/
   exists la lo al,
     sub_sock = true /\ result_of res = Ret tt /\ in_range la lo = true /\
     store_of res = store_of (set_gps (la, lo, al) st)).
Proof.
  unfold poll_monitor_for_gps.
  destruct sub_sock; [|cbn; auto].
  destruct r as [| |[payload|]]; try (cbn; now auto).
  cbn [negb]. unfold bind, lift, ret, set_gps.
  destruct (py_get payload "lat" PyNone) as [lat|]; [|cbn; auto].
  destruct (py_get payload "lon" PyNone) as [lon|]; [|cbn; auto].
  destruct (py_get payload "alt" (PyFloat 0.0)) as [alt|]; [|cbn; auto].
  destruct (is_valid_latlon float_of_str lat lon) as [[|]|] eqn:Hv;
    try (cbn; now auto).
  destruct (py_float float_of_str lat) as [la|] eqn:Ela; [|cbn; auto].
  destruct (py_float float_of_str lon) as [lo|] eqn:Elo; [|cbn; auto].
  destruct (py_float float_of_str alt) as [al|]; [|cbn; auto].
  cbn. split; [reflexivity|]. right. exists la, lo, al.
  repeat split. now apply (is_valid_latlon_in_range float_of_str lat lon).
Qed.

(** The poll writes nothing but the position, and makes no event.  When it
    raises, the position is as before; when it returns, the position is as
    before or is one that passed the check: its latitude and longitude are
    in range.  Without a telemetry socket it does nothing.  A message with a
    valid latitude and longitude and no altitude stores the altitude 0.0. *)
Theorem poll_stores_only_checked_positions :
  forall float_of_str sub_sock r st,
    let res := poll_monitor_for_gps float_of_str sub_sock r st in
    trace_of res = [] /\
    _confirm_disabled_reason (store_of res) = _confirm_disabled_reason st /\
    tb (store_of res) = tb st /\
    (forall e, result_of res = Raise e -> store_of res = st) /\
    (_last_sensor_gps (store_of res) = _last_sensor_gps st \/
     exists la lo al,
       _last_sensor_gps (store_of res) = Some (la, lo, al) /\
       in_range la lo = true) /\
    (sub_sock = false -> res = (Ret tt, st, [])) /\
    (forall d,
        sub_sock = true ->
        r = RecvMsg (Some (PyDict d)) ->
        (forall v, ~ In ("alt"%string, v) d) ->
        is_valid_latlon float_of_str
          (dict_get d "lat" PyNone) (dict_get d "lon" PyNone) = Ret true ->
        exists la lo,
          py_float float_of_str (dict_get d "lat" PyNone) = Ret la /\
          py_float float_of_str (dict_get d "lon" PyNone) = Ret lo /\
          result_of res = Ret tt /\
          _last_sensor_gps (store_of res) = Some (la, lo, 0.0%float)).
Proof.
  intros fos sub r st res.
  destruct (poll_footprint fos sub r st) as [Ht Hs]. fold res in Ht, Hs.
  split; [exact Ht|].
  split; [destruct Hs as [->|[la [lo [al [_ [_ [_ ->]]]]]]]; reflexivity|].
  split; [destruct Hs as [->|[la [lo [al [_ [_ [_ ->]]]]]]]; reflexivity|].
  split.
  { intros e He. destruct Hs as [Hs|[la [lo [al [_ [Hr _]]]]]]; [exact Hs|].
    rewrite Hr in He. discriminate. }
  split.
  { destruct Hs as [->|[la [lo [al [_ [_ [Hin ->]]]]]]]; [now left|].
    right. exists la, lo, al. split; [reflexivity|exact Hin]. }
  split.
  { intros ->. reflexivity. }
  intros d -> -> Hno Hv. subst res.
  unfold poll_monitor_for_gps. cbn [negb py_get].
  rewrite (dict_get_absent d "alt" (PyFloat 0.0) Hno).
  unfold bind, lift. rewrite Hv.
  destruct (is_valid_latlon_true_floats fos _ _ Hv) as [la [lo [Ela Elo]]].
  rewrite Ela, Elo. cbn. exists la, lo. repeat split; reflexivity.
Qed.

(** ** When the breaker trips *)

Lemma confirm_outcome_trips float_of_str proc st :
  _confirm_disabled_reason st = None ->
  trips_breaker proc = true ->
  exists reason,
    confirm_outcome float_of_str proc st =
    (Ret Disabled, store_of (set_disabled reason st),
     [EvPrint (WarnConfirmDisabled reason)]).
Proof.
  intros Hf Ht. unfold confirm_outcome, captured_output.
  destruct proc as [|out|rc out unk|e]; try discriminate.
  - eexists. unfold bind at 1 2. rewrite (_disable_confirm_unset _ _ Hf).
    reflexivity.
  - cbn [trips_breaker] in Ht. rewrite Ht.
    eexists. unfold bind at 1 2. rewrite (_disable_confirm_unset _ _ Hf).
    reflexivity.
Qed.

Lemma confirm_outcome_keeps float_of_str proc st :
  trips_breaker proc = false ->
  store_of (confirm_outcome float_of_str proc st) = st /\
  trace_of (confirm_outcome float_of_str proc st) = [] /\
  result_of (confirm_outcome float_of_str proc st) <> Ret Disabled.
Proof.
  intros Ht.
  destruct proc as [|out|rc out unk|e]; try discriminate.
  - assert (E : confirm_outcome float_of_str (TimeoutExpired out) st =
                parse_scores float_of_str out st).
    { unfold confirm_outcome, captured_output, bind, ret.
      now destruct (parse_scores float_of_str out st) as [[r s'] t']. }
    rewrite E, parse_scores_run.
    split; [reflexivity|]. split; [reflexivity|].
    cbn [result_of fst].
    destruct (scan_lines float_of_str out 0.0 0.0 2); discriminate.
  - assert (E : confirm_outcome float_of_str (CompletedProcess rc out unk) st =
                parse_scores float_of_str out st).
    { unfold confirm_outcome, captured_output. cbn [trips_breaker] in Ht.
      rewrite Ht. unfold bind, ret.
      now destruct (parse_scores float_of_str out st) as [[r s'] t']. }
    rewrite E, parse_scores_run.
    split; [reflexivity|]. split; [reflexivity|].
    cbn [result_of fst].
    destruct (scan_lines float_of_str out 0.0 0.0 2); discriminate.
  - cbn. split; [reflexivity|]. split; [reflexivity|]. discriminate.
Qed.

(** With the breaker not set, [run_confirm] runs the classifier once; it sets
    the breaker, with one warning, exactly when the program is not found or
    exits with a non-zero status and the unknown-command text, and it returns
    [(None, None)] exactly then.  Nothing else of the store changes. *)
Theorem run_confirm_trips_breaker :
  forall float_of_str center_hz proc st,
    _confirm_disabled_reason st = None ->
    let res := run_confirm float_of_str center_hz proc st in
    subprocess_runs (trace_of res) = 1 /\
    (_confirm_disabled_reason (store_of res) <> None <->
     trips_breaker proc = true) /\
    (result_of res = Ret Disabled <-> trips_breaker proc = true) /\
    warnings (trace_of res) = (if trips_breaker proc then 1 else 0) /\
    _last_sensor_gps (store_of res) = _last_sensor_gps st /\
    tb (store_of res) = tb st /\
    (proc = FileNotFoundError ->
     _confirm_disabled_reason (store_of res)
     = Some "suscli not found in PATH"%string) /\
    (forall returncode out,
        proc = CompletedProcess returncode out true -> returncode <> 0%Z ->
        _confirm_disabled_reason (store_of res)
        = Some "suscli fpvdet command not available"%string).
Proof.
  intros fos hz proc st Hf res. subst res.
  rewrite (run_confirm_enabled _ _ _ _ Hf).
  cbn [result_of store_of trace_of fst snd].
  destruct (trips_breaker proc) eqn:Ht.
  - destruct (confirm_outcome_trips fos proc st Hf Ht) as [reason E].
    rewrite E. cbn [result_of store_of trace_of fst snd set_disabled
                      _confirm_disabled_reason _last_sensor_gps tb].
    split; [reflexivity|].
    split; [split; [reflexivity|discriminate]|].
    split; [split; reflexivity|].
    split; [reflexivity|]. split; [reflexivity|]. split; [reflexivity|].
    split.
    + intros ->. unfold confirm_outcome, captured_output in E.
      unfold bind at 1 2 in E.
      rewrite (_disable_confirm_unset _ _ Hf) in E.
      cbn in E. inversion E. reflexivity.
    + intros rc out -> Hrc. unfold confirm_outcome, captured_output in E.
      replace (negb (rc =? 0)%Z && true) with true in E
        by (symmetry; rewrite andb_true_r; apply negb_true_iff;
            now apply Z.eqb_neq).
      unfold bind at 1 2 in E.
      rewrite (_disable_confirm_unset _ _ Hf) in E.
      cbn in E. inversion E. reflexivity.
  - destruct (confirm_outcome_keeps fos proc st Ht) as [Hs [Htr Hr]].
    rewrite Hs, Htr.
    split; [reflexivity|].
    split; [rewrite Hf; split; [congruence|discriminate]|].
    split; [split; [intros H; contradiction|discriminate]|].
    split; [reflexivity|]. split; [reflexivity|]. split; [reflexivity|].
    split.
    + intros ->. discriminate.
    + intros rc out -> Hrc. cbn [trips_breaker] in Ht.
      rewrite andb_true_r in Ht. apply negb_false_iff in Ht.
      apply Z.eqb_eq in Ht. contradiction.
Qed.

(** ** The loop over the classifier's output reads the records only *)

Lemma scan_lines_records float_of_str :
  forall lines max_pal max_ntsc skip_lines,
    scan_lines float_of_str lines max_pal max_ntsc skip_lines =
    scan_records float_of_str
      (flat_map
         (fun l => match l with Brace (Some data) => [data] | _ => [] end)
         (skipn skip_lines (filter is_brace lines)))
      max_pal max_ntsc.
Proof.
  induction lines as [|line rest IH]; intros mp mn skip.
  - cbn [filter]. rewrite skipn_nil_any. reflexivity.
  - destruct line as [|decoded]; cbn [scan_lines filter is_brace].
    + apply IH.
    + destruct skip as [|k]; cbn [skipn].
      * cbn [flat_map]. destruct decoded as [data|]; cbn [app].
        -- cbn [scan_records]. unfold pal_of, ntsc_of.
           destruct (py_get (dict_get data "signal" (PyDict [])) "pal"
                       (PyFloat 0.0)) as [palv|]; [|reflexivity].
           cbn [obind].
           destruct (py_float float_of_str palv) as [pal|]; [|reflexivity].
           cbn [obind].
           destruct (py_get (dict_get data "signal" (PyDict [])) "ntsc"
                       (PyFloat 0.0)) as [ntscv|]; [|reflexivity].
           cbn [obind].
           destruct (py_float float_of_str ntscv) as [ntsc|]; [|reflexivity].
           cbn [obind]. apply (IH _ _ 0).
        -- apply (IH _ _ 0).
      * apply IH.
Qed.

Lemma skipn_all_le {A} n (l : list A) : List.length l <= n -> skipn n l = [].
Proof.
  revert l. induction n as [|n IH]; intros [|x l] H; simpl in *;
    try reflexivity; try lia.
  apply IH. lia.
Qed.

(** The result of the loop depends on the decoded records only: the lines
    that do not start with a brace, the first two that do, and those that do
    not decode, have no part in it, whatever they hold.  An output with at
    most two lines that start with a brace gives 0.0 and 0.0. *)
Theorem scan_lines_reads_only_the_records :
  forall float_of_str lines,
    scan_lines float_of_str lines 0.0 0.0 2
    = scan_records float_of_str (records lines) 0.0 0.0 /\
    (forall lines',
        records lines = records lines' ->
        scan_lines float_of_str lines 0.0 0.0 2
        = scan_lines float_of_str lines' 0.0 0.0 2) /\
    (List.length (filter is_brace lines) <= 2 ->
     scan_lines float_of_str lines 0.0 0.0 2 = Ret (0.0, 0.0)%float) /\
    (forall rest,
        scan_lines float_of_str (NotBrace :: rest) 0.0 0.0 2
        = scan_lines float_of_str rest 0.0 0.0 2) /\
    (forall rest,
        scan_lines float_of_str (rest ++ [Brace None]) 0.0 0.0 2
        = scan_lines float_of_str rest 0.0 0.0 2).
Proof.
  intros fos lines.
  split; [apply scan_lines_records|].
  split.
  { intros lines' H. rewrite !scan_lines_records. unfold records in H.
    now rewrite H. }
  split.
  { intros H. rewrite scan_lines_records, skipn_all_le by exact H.
    reflexivity. }
  split.
  { intros rest. reflexivity. }
  intros rest. rewrite !scan_lines_records.
  rewrite filter_app. cbn [filter is_brace].
  destruct (Nat.le_gt_cases (List.length (filter is_brace rest)) 2) as [Hle|Hgt].
  - rewrite (skipn_all_le 2 (filter is_brace rest)) by exact Hle.
    replace (skipn 2 (filter is_brace rest ++ [Brace None]))
      with (skipn (2 - List.length (filter is_brace rest)) [@Brace None]).
    + destruct (2 - List.length (filter is_brace rest)) as [|k];
        [reflexivity|]. cbn [skipn]. now rewrite skipn_nil_any.
    + rewrite skipn_app. rewrite (skipn_all_le 2 (filter is_brace rest))
        by exact Hle. reflexivity.
  - rewrite skipn_app.
    replace (2 - List.length (filter is_brace rest)) with 0 by lia.
    cbn [skipn]. rewrite flat_map_app. cbn [flat_map app].
    now rewrite app_nil_r.
Qed.

(** ** When the loop raises *)

Lemma record_error_none float_of_str data :
  record_error float_of_str data = None <->
  well_formed_record float_of_str data.
Proof.
  unfold record_error, well_formed_record. split.
  - destruct (pal_of float_of_str data) as [p|]; [|discriminate].
    destruct (ntsc_of float_of_str data) as [n|]; [|discriminate].
    eauto.
  - intros [[p Hp] [n Hn]]. now rewrite Hp, Hn.
Qed.

Lemma scan_records_raise float_of_str :
  forall rs max_pal max_ntsc e,
    scan_records float_of_str rs max_pal max_ntsc = Raise e <->
    exists good data rest,
      rs = good ++ data :: rest /\
      Forall (well_formed_record float_of_str) good /\
      record_error float_of_str data = Some e.
Proof.
  induction rs as [|d rs IH]; intros mp mn e.
  - cbn. split; [discriminate|].
    intros [good [data [rest [H _]]]]. destruct good; discriminate.
  - cbn [scan_records]. split.
    + destruct (pal_of float_of_str d) as [p|e1] eqn:Ep; cbn [obind].
      * destruct (ntsc_of float_of_str d) as [n|e2] eqn:En; cbn [obind].
        -- intros H. apply IH in H.
           destruct H as [good [data [rest [-> [Hg He]]]]].
           exists (d :: good), data, rest. split; [reflexivity|].
           split; [|exact He]. constructor; [|exact Hg].
           split; eauto.
        -- intros H. inversion H; subst. exists [], d, rs.
           split; [reflexivity|]. split; [constructor|].
           unfold record_error. now rewrite Ep, En.
      * intros H. inversion H; subst. exists [], d, rs.
        split; [reflexivity|]. split; [constructor|].
        unfold record_error. now rewrite Ep.
    + intros [good [data [rest [Heq [Hg He]]]]].
      destruct good as [|g good]; cbn [app] in Heq; inversion Heq; subst.
      * unfold record_error in He.
        destruct (pal_of float_of_str data) as [p|e1]; cbn [obind].
        -- destruct (ntsc_of float_of_str data) as [n|e2]; cbn [obind];
             [discriminate|congruence].
        -- congruence.
      * inversion Hg as [|? ? [[p Hp] [n Hn]] Hg']; subst.
        rewrite Hp, Hn. cbn [obind]. apply IH. eauto 6.
Qed.

Lemma scan_records_ret float_of_str :
  forall rs max_pal max_ntsc,
    (exists pn, scan_records float_of_str rs max_pal max_ntsc = Ret pn) <->
    Forall (well_formed_record float_of_str) rs.
Proof.
  induction rs as [|d rs IH]; intros mp mn.
  - cbn. split; [constructor|eauto].
  - cbn [scan_records]. split.
    + intros [pn H].
      destruct (pal_of float_of_str d) as [p|] eqn:Ep; [|discriminate].
      destruct (ntsc_of float_of_str d) as [n|] eqn:En; [|discriminate].
      cbn [obind] in H. constructor; [split; eauto|].
      apply (IH (py_max mp p) (py_max mn n)). eauto.
    + intros H. inversion H as [|? ? [[p Hp] [n Hn]] H']; subst.
      rewrite Hp, Hn. cbn [obind]. now apply IH.
Qed.

(** The loop returns exactly when every decoded record holds an object, or
    nothing, as its signal and numbers, or nothing, as its scores; else it
    raises the exception of the first record that does not, and so does
    [run_confirm]: a record is not passed over as a line that does not
    decode is. *)
Theorem scan_lines_raises_on_first_bad_record :
  forall float_of_str lines,
    ((exists pn, scan_lines float_of_str lines 0.0 0.0 2 = Ret pn) <->
     Forall (well_formed_record float_of_str) (records lines)) /\
    (forall e,
        scan_lines float_of_str lines 0.0 0.0 2 = Raise e <->
        exists good data rest,
          records lines = good ++ data :: rest /\
          Forall (well_formed_record float_of_str) good /\
          record_error float_of_str data = Some e) /\
    (forall e center_hz proc st,
        scan_lines float_of_str lines 0.0 0.0 2 = Raise e ->
        _confirm_disabled_reason st = None ->
        output_is_parsed proc = true ->
        stdout_of proc = lines ->
        result_of (run_confirm float_of_str center_hz proc st) = Raise e) /\
    record_error float_of_str [("signal"%string, PyNone)]
      = Some AttributeError /\
    record_error float_of_str
      [("signal"%string, PyDict [("pal"%string, PyNone)])] = Some TypeError.
Proof.
  intros fos lines.
  split; [rewrite scan_lines_records; apply scan_records_ret|].
  split; [intros e; rewrite scan_lines_records; apply scan_records_raise|].
  split; [|split; reflexivity].
  intros e hz proc st He Hf Hp Hout.
  rewrite (run_confirm_parsed fos hz proc st Hf Hp), Hout, He.
  reflexivity.
Qed.

(** ** More on the order of the floats *)

Lemma SFcompare_eq_left a x y :
  SFcompare a x = Some Eq -> SFcompare a y = SFcompare x y.
Proof.
  destruct a as [sa|sa| |sa ma ea], x as [sx|sx| |sx mx ex];
    simpl; try discriminate;
    try destruct sa; try destruct sx; try discriminate; try reflexivity.
  all: change (PosDef.Pos.compare_cont Eq ma mx) with (Pos.compare ma mx).
  all: destruct (Z.compare_spec ea ex); try discriminate.
  all: destruct (Pos.compare_spec ma mx); cbn [CompOpp]; try discriminate.
  all: intros _; subst; reflexivity.
Qed.

Lemma leb_ltb_trans a x y :
  (a <=? x)%float = true -> (x <? y)%float = true -> (a <? y)%float = true.
Proof.
  rewrite leb_spec, !ltb_spec. unfold SFleb, SFltb. intros H1 H2.
  destruct (SFcompare (Prim2SF a) (Prim2SF x)) as [[]|] eqn:E1;
    try discriminate.
  - now rewrite (SFcompare_eq_left _ _ _ E1).
  - rewrite (SFcompare_lt_trans (Prim2SF a) (Prim2SF x) (Prim2SF y));
      auto.
    destruct (SFcompare (Prim2SF x) (Prim2SF y)) as [[]|]; congruence.
Qed.

Lemma ltb_leb x y : (x <? y)%float = true -> (x <=? y)%float = true.
Proof.
  rewrite leb_spec, ltb_spec. unfold SFleb, SFltb.
  destruct (SFcompare (Prim2SF x) (Prim2SF y)) as [[]|]; congruence.
Qed.

Lemma py_max_lower a x y :
  (a <=? x)%float = true -> (a <=? py_max x y)%float = true.
Proof.
  intros H. unfold py_max. destruct (x <? y)%float eqn:E; [|exact H].
  apply ltb_leb. now apply leb_ltb_trans with (x := x).
Qed.

(** ** The scores are not below zero *)

Lemma scan_lines_lower float_of_str :
  forall lines max_pal max_ntsc skip_lines pal ntsc,
    (0 <=? max_pal)%float = true -> (0 <=? max_ntsc)%float = true ->
    scan_lines float_of_str lines max_pal max_ntsc skip_lines
      = Ret (pal, ntsc) ->
    (0 <=? pal)%float = true /\ (0 <=? ntsc)%float = true.
Proof.
  induction lines as [|line rest IH]; intros mp mn skip pal ntsc Hp Hn H.
  - cbn in H. inversion H; subst. auto.
  - destruct line as [|decoded]; cbn [scan_lines] in H.
    + eauto.
    + destruct skip as [|k]; [|eauto].
      destruct decoded as [data|]; [|eauto].
      destruct (py_get (dict_get data "signal" (PyDict [])) "pal"
                  (PyFloat 0.0)) as [palv|]; [|discriminate].
      cbn [obind] in H.
      destruct (py_float float_of_str palv) as [p|]; [|discriminate].
      cbn [obind] in H.
      destruct (py_get (dict_get data "signal" (PyDict [])) "ntsc"
                  (PyFloat 0.0)) as [ntscv|]; [|discriminate].
      cbn [obind] in H.
      destruct (py_float float_of_str ntscv) as [n|]; [|discriminate].
      cbn [obind] in H.
      apply (IH _ _ _ _ _ (py_max_lower 0 mp p Hp) (py_max_lower 0 mn n Hn) H).
Qed.

Lemma zero_leb_zero : (0 <=? 0)%float = true.
Proof. reflexivity. Qed.

Lemma parse_scores_lower float_of_str lines st pal ntsc :
  result_of (parse_scores float_of_str lines st) = Ret (Scores pal ntsc) ->
  (0 <=? pal)%float = true /\ (0 <=? ntsc)%float = true.
Proof.
  rewrite parse_scores_run. cbn [result_of fst].
  destruct (scan_lines float_of_str lines 0.0 0.0 2) as [[p n]|] eqn:E;
    [|discriminate].
  intros H. inversion H; subst.
  apply (scan_lines_lower float_of_str lines 0.0 0.0 2 _ _
           zero_leb_zero zero_leb_zero E).
Qed.

Lemma confirm_outcome_lower float_of_str proc st pal ntsc :
  result_of (confirm_outcome float_of_str proc st) = Ret (Scores pal ntsc) ->
  (0 <=? pal)%float = true /\ (0 <=? ntsc)%float = true.
Proof.
  unfold confirm_outcome. rewrite result_bind.
  destruct (captured_output proc st) as [[[[out|]|e] st1] t1];
    cbn [result_of store_of fst snd]; try discriminate.
  apply parse_scores_lower.
Qed.

Lemma run_confirm_lower float_of_str center_hz proc st pal ntsc :
  result_of (run_confirm float_of_str center_hz proc st)
    = Ret (Scores pal ntsc) ->
  (0 <=? pal)%float = true /\ (0 <=? ntsc)%float = true.
Proof.
  destruct (_confirm_disabled_reason st) as [reason|] eqn:Hf.
  - rewrite (run_confirm_disabled _ _ _ _ _ Hf). discriminate.
  - rewrite (run_confirm_enabled _ _ _ _ Hf). cbn [result_of fst].
    apply confirm_outcome_lower.
Qed.

(** ** Reopening: the failures that are not retried *)

Lemma retry_loop_after_failures th outcome_of st :
  forall failed rest,
    (forall j, In j failed -> start_fails (outcome_of j) = true) ->
    retry_loop th outcome_of (failed ++ rest) st =
    (result_of (retry_loop th outcome_of rest st),
     store_of (retry_loop th outcome_of rest st),
     flat_map (failed_attempt th outcome_of) failed
     ++ trace_of (retry_loop th outcome_of rest st)).
Proof.
  induction failed as [|k failed IH]; intros rest Hf.
  - cbn [app flat_map].
    now destruct (retry_loop th outcome_of rest st) as [[r s'] t'].
  - cbn [app retry_loop].
    assert (Hk := Hf k (or_introl eq_refl)). unfold start_fails in Hk.
    destruct (construct_exn (outcome_of k)); [discriminate|].
    destruct (start_exn (outcome_of k)) as [[why| | | | |]|] eqn:Hs;
      try discriminate.
    unfold bind at 1 2 3 4 5 6. unfold emit.
    rewrite (IH rest) by (intros j Hj; apply Hf; now right).
    cbn [flat_map app result_of store_of trace_of fst snd].
    replace (failed_attempt th outcome_of k)
      with [EvConstruct th true; EvStart false; EvStop; EvWait;
            EvPrint (WarnOpenFailed k why); EvSleep REOPEN_DELAY_S]
      by (unfold failed_attempt, why_of; now rewrite Hs).
    reflexivity.
Qed.

Lemma retry_loop_gives_up th outcome_of st k rest e t :
  gives_up th (outcome_of k) = Some (e, t) ->
  retry_loop th outcome_of (k :: rest) st = (Raise e, st, t).
Proof.
  unfold gives_up. cbn [retry_loop].
  destruct (construct_exn (outcome_of k)) as [e1|].
  - intros H. inversion H; subst. reflexivity.
  - destruct (start_exn (outcome_of k)) as [[why| | | | |]|];
      intros H; inversion H; subst; reflexivity.
Qed.

(** After failures of [start] that are retried, an attempt whose constructor
    raises, or whose [start] raises something else than [RuntimeError], ends
    the reopening with that exception: it is not retried, nothing is printed
    and there is no delay; and the top block that a failed [start] leaves is
    neither stopped nor waited for. *)
Theorem reopen_gives_up_on_other_failures :
  forall th outcome_of st k e t,
    1 <= k <= REOPEN_RETRIES ->
    (forall j, 1 <= j < k -> start_fails (outcome_of j) = true) ->
    gives_up th (outcome_of k) = Some (e, t) ->
    let r := start_tb_with_retry th outcome_of st in
    result_of r = Raise e /\
    store_of r = st /\
    trace_of r = flat_map (failed_attempt th outcome_of) (seq 1 (k - 1)) ++ t /\
    attempts_made (trace_of r) = k /\
    reopen_delays (trace_of r) = k - 1 /\
    ~ In EvStop t /\ ~ In EvWait t.
Proof.
  intros th outcome_of st k e t Hk Hfail Hg r. subst r.
  unfold start_tb_with_retry.
  replace (seq 1 REOPEN_RETRIES)
    with (seq 1 (k - 1) ++ k :: seq (S k) (REOPEN_RETRIES - k)).
  2:{ replace REOPEN_RETRIES with ((k - 1) + S (REOPEN_RETRIES - k)) at 2
        by lia.
      rewrite seq_app. cbn [seq]. replace (1 + (k - 1)) with k by lia.
      reflexivity. }
  rewrite retry_loop_after_failures.
  2:{ intros j Hj. apply in_seq in Hj. apply Hfail. lia. }
  rewrite (retry_loop_gives_up th outcome_of st k _ e t Hg).
  cbn [result_of store_of trace_of fst snd].
  split; [reflexivity|]. split; [reflexivity|]. split; [reflexivity|].
  assert (Ht : t = [EvConstruct th false] \/
               t = [EvConstruct th true; EvStart false]).
  { unfold gives_up in Hg.
    destruct (construct_exn (outcome_of k)); [inversion Hg; auto|].
    destruct (start_exn (outcome_of k)) as [[| | | | |]|];
      inversion Hg; auto. }
  split.
  { unfold attempts_made. rewrite filter_app, length_app.
    fold (attempts_made
            (flat_map (failed_attempt th outcome_of) (seq 1 (k - 1)))).
    rewrite attempts_made_failed, length_seq.
    destruct Ht as [-> | ->]; cbn; lia. }
  split.
  { unfold reopen_delays. rewrite filter_app, length_app.
    fold (reopen_delays
            (flat_map (failed_attempt th outcome_of) (seq 1 (k - 1)))).
    rewrite reopen_delays_failed, length_seq.
    destruct Ht as [-> | ->]; cbn; lia. }
  destruct Ht as [-> | ->]; split; cbn; intuition discriminate.
Qed.

(** ** The trace of the warm-up *)

Lemma warmup_sweeps_trace (probe : nat -> list float) :
  forall sweeps k medians st,
    trace_of (warmup_sweeps probe sweeps k medians st) =
    flat_map tune_and_wait (List.concat (repeat ALL_CENTERS_MHZ sweeps)).
Proof.
  induction sweeps as [|sweeps IH]; intros k medians st.
  - reflexivity.
  - cbn [warmup_sweeps repeat List.concat].
    rewrite (bind_run_ret _ _ _ _ _ _ (warmup_sweep_run probe _ _ _ _)).
    cbn [trace_of snd fst]. rewrite IH, flat_map_app. reflexivity.
Qed.

(** The warm-up goes through the plan once in each sweep, in ascending
    order: at each channel it tunes, waits the settle time and the dwell
    time, and does nothing else; it prints and publishes nothing and runs
    no classifier, and it returns. *)
Theorem warmup_tunes_every_channel_once :
  forall (probe : nat -> list float) (st : store),
    trace_of (warmup_threshold probe st) =
      flat_map tune_and_wait (List.concat (repeat ALL_CENTERS_MHZ WARMUP_SWEEPS)) /\
    List.length (trace_of (warmup_threshold probe st)) = 3 * 59 /\
    (exists th, result_of (warmup_threshold probe st) = Ret th) /\
    store_of (warmup_threshold probe st) = st.
Proof.
  intros probe st.
  assert (Ht : trace_of (warmup_threshold probe st) =
               flat_map tune_and_wait
                 (List.concat (repeat ALL_CENTERS_MHZ WARMUP_SWEEPS))).
  { unfold warmup_threshold, bind.
    pose proof (warmup_sweeps_trace probe WARMUP_SWEEPS 0 [] st) as H.
    destruct (warmup_sweeps probe WARMUP_SWEEPS 0 [] st)
      as [[[ms|e] st1] t1]; cbn [trace_of snd] in *.
    - destruct ms as [|m ms]; [cbn; now rewrite app_nil_r|].
      destruct (median (m :: ms)); cbn; now rewrite app_nil_r.
    - exact H. }
  split; [exact Ht|].
  split; [rewrite Ht; vm_compute; reflexivity|].
  destruct (warmup_threshold_run probe st) as [Hr Hs].
  split; [eauto|exact Hs].
Qed.

(** ** The first of the widest *)

Section FirstOfTheLargest.

Variable A : Type.
Variable key : A -> float.
Variable low : float.

Lemma fold_pick_first (l : list A) :
  forall best before between,
    (forall y, In y before -> (key y <? key best)%float = true) ->
    (forall y, In y between -> (key best <? key y)%float = false) ->
    (forall y, In y (before ++ best :: between ++ l) ->
               (low <=? key y)%float = true) ->
    exists before' after',
      before ++ best :: between ++ l
        = before' ++ fold_left (pick key) l best :: after' /\
      forall y, In y before' ->
                (key y <? key (fold_left (pick key) l best))%float = true.
Proof.
  induction l as [|x l IH]; intros best before between Hb Hm Hlow.
  - exists before, between. split; [now rewrite app_nil_r|exact Hb].
  - cbn [fold_left].
    replace (pick key best x)
      with (if (key best <? key x)%float then x else best) by reflexivity.
    destruct (key best <? key x)%float eqn:Hx.
    + destruct (IH x (before ++ best :: between) []) as [b' [a' [E H]]].
      * intros y Hy. apply in_app_or in Hy. destruct Hy as [Hy|[Hy|Hy]].
        -- apply ltb_trans with (y := key best); auto.
        -- now subst.
        -- apply leb_ltb_trans with (x := key best); [|exact Hx].
           apply leb_of_not_ltb with (a := low); auto.
           ++ apply Hlow. apply in_or_app. right. right.
              apply in_or_app. now left.
           ++ apply Hlow. apply in_or_app. right. now left.
      * intros y [].
      * intros y Hy. apply Hlow.
        rewrite <- app_assoc in Hy. cbn [app] in Hy.
        apply in_app_or in Hy. apply in_or_app.
        destruct Hy as [Hy|[Hy|Hy]]; [now left|right; now left|].
        right. right. apply in_or_app.
        apply in_app_or in Hy. destruct Hy as [Hy|Hy]; [now left|].
        right. exact Hy.
      * exists b', a'. split; [|exact H].
        rewrite <- E, <- app_assoc. reflexivity.
    + destruct (IH best before (between ++ [x])) as [b' [a' [E H]]].
      * exact Hb.
      * intros y Hy. apply in_app_or in Hy.
        destruct Hy as [Hy|[Hy|[]]]; [auto|now subst].
      * intros y Hy. apply Hlow. now rewrite <- app_assoc in Hy.
      * exists b', a'. split; [|exact H].
        rewrite <- E. now rewrite <- app_assoc.
Qed.

End FirstOfTheLargest.

(** Of the signals of a report that have the largest bandwidth, the
    candidate is the first: every signal before it in the report is strictly
    narrower.  (The bandwidths of a report are at least the minimum, so none
    is NaN.) *)
Theorem candidate_is_first_of_the_widest :
  forall msg center_hz s0 others,
    parse_rf_map msg center_hz = s0 :: others ->
    exists before after,
      s0 :: others = before ++ max_by_bw s0 others :: after /\
      (forall s, In s before ->
                 (snd s <? snd (max_by_bw s0 others))%float = true) /\
      (forall s, In s after ->
                 (snd s <=? snd (max_by_bw s0 others))%float = true).
Proof.
  intros msg c s0 others Hrep.
  assert (Hlow : forall s, In s (s0 :: others) ->
                           (MIN_BW_HZ <=? snd s)%float = true).
  { intros s Hs. rewrite <- Hrep in Hs.
    now apply (detection_report_bandwidth msg c). }
  destruct (fold_pick_first signal snd MIN_BW_HZ others s0 [] [])
    as [before [after [E H]]].
  - intros y [].
  - intros y [].
  - exact Hlow.
  - exists before, after. cbn [app] in E. split; [exact E|].
    split; [exact H|].
    intros s Hs. destruct (max_by_bw_max s0 others) as [Hin Hmax].
    apply leb_of_not_ltb with (a := MIN_BW_HZ).
    + apply Hlow. rewrite E. apply in_or_app. right. now right.
    + now apply Hlow.
    + apply Hmax. rewrite E. apply in_or_app. right. now right.
Qed.

(** ** Rules for [sat] *)

Lemma sat_ret {A} (a : A) (P : store -> list event -> Prop)
  (R : outcome A -> store -> list event -> Prop) :
  (forall st t, P st t -> R (Ret a) st t) -> sat (ret a) P R.
Proof. intros H st t0 Hp. cbn. rewrite app_nil_r. auto. Qed.

Lemma sat_raise {A} (e : exn) (P : store -> list event -> Prop)
  (R : outcome A -> store -> list event -> Prop) :
  (forall st t, P st t -> R (Raise e) st t) -> sat (raise e) P R.
Proof. intros H st t0 Hp. cbn. rewrite app_nil_r. auto. Qed.

Lemma sat_emit (e : event) (P : store -> list event -> Prop)
  (R : outcome unit -> store -> list event -> Prop) :
  (forall st t, P st t -> R (Ret tt) st (t ++ [e])) -> sat (emit e) P R.
Proof. intros H st t0 Hp. cbn. auto. Qed.

Lemma sat_set_tb o (P : store -> list event -> Prop)
  (R : outcome unit -> store -> list event -> Prop) :
  (forall st t, P st t -> R (Ret tt) (store_of (set_tb o st)) t) ->
  sat (set_tb o) P R.
Proof. intros H st t0 Hp. cbn. rewrite app_nil_r. now apply H. Qed.

Lemma sat_pre {A} (m : M A) (P P' : store -> list event -> Prop)
  (R : outcome A -> store -> list event -> Prop) :
  (forall st t, P st t -> P' st t) -> sat m P' R -> sat m P R.
Proof. intros H Hm st t0 Hp. apply Hm, H, Hp. Qed.

Lemma sat_post {A} (m : M A) (P : store -> list event -> Prop)
  (R R' : outcome A -> store -> list event -> Prop) :
  (forall r st t, R' r st t -> R r st t) -> sat m P R' -> sat m P R.
Proof. intros H Hm st t0 Hp. apply H, Hm, Hp. Qed.

(** A statement that keeps [P], then the rest. *)
Lemma sat_then {A B} (m : M A) (f : A -> M B)
  (P : store -> list event -> Prop)
  (R : outcome B -> store -> list event -> Prop) :
  preserves P m ->
  (forall a, sat (f a) P R) ->
  (forall e st t, P st t -> R (Raise e) st t) ->
  sat (bind m f) P R.
Proof. intros Hm Hf Hr. apply sat_bind with (Q := fun _ => P); auto. Qed.

(** An event, then the rest. *)
Lemma sat_emit_then {B} (e : event) (k : M B)
  (P P' : store -> list event -> Prop)
  (R : outcome B -> store -> list event -> Prop) :
  (forall st t, P st t -> P' st (t ++ [e])) ->
  sat k P' R ->
  sat (emit e ;; k) P R.
Proof.
  intros H Hk. apply sat_bind with (Q := fun r st t => r = Ret tt /\ P' st t).
  - apply sat_emit. auto.
  - intros []. apply sat_pre with (P' := P'); [tauto|exact Hk].
  - intros e' st t [Hd _]. discriminate.
Qed.

(** A write of [tb], then the rest. *)
Lemma sat_set_tb_then {B} o (k : M B)
  (P P' : store -> list event -> Prop)
  (R : outcome B -> store -> list event -> Prop) :
  (forall st t, P st t -> P' (store_of (set_tb o st)) t) ->
  sat k P' R ->
  sat (set_tb o ;; k) P R.
Proof.
  intros H Hk. apply sat_bind with (Q := fun r st t => r = Ret tt /\ P' st t).
  - apply sat_set_tb. auto.
  - intros []. apply sat_pre with (P' := P'); [tauto|exact Hk].
  - intros e' st t [Hd _]. discriminate.
Qed.

(** What a statement leaves true, and what its result is. *)
Lemma sat_result {A} (m : M A) (P : store -> list event -> Prop)
  (good : outcome A -> Prop) :
  preserves P m -> (forall st, good (result_of (m st))) ->
  sat m P (fun r st t => P st t /\ good r).
Proof. intros Hm Hg st t0 Hp. split; [now apply Hm|apply Hg]. Qed.

Lemma sat_finally {A} (body : M A) (cleanup : M unit)
  (P : store -> list event -> Prop)
  (Q R : outcome A -> store -> list event -> Prop) :
  sat body P Q ->
  (forall a st t, Q (Ret a) st t -> R (Ret a) st t) ->
  (forall e,
      sat cleanup (Q (Raise e))
        (fun r st t =>
           match r with Ret _ => R (Raise e) st t | Raise e' => R (Raise e') st t end)) ->
  sat (finally_ body cleanup) P R.
Proof.
  intros Hb Hret Hc st t0 Hp. specialize (Hb st t0 Hp). unfold finally_.
  destruct (body st) as [[[a|e] st1] t1]; cbn in *; [now apply Hret|].
  specialize (Hc e st1 _ Hb).
  destruct (cleanup st1) as [[[u|e'] st2] t2]; cbn in *;
    now rewrite app_assoc.
Qed.

(** ** What every statement of the script keeps, event by event

    A property of the store and the history is kept by a function of the
    script when it is kept by the events the function makes and by the
    writes it does.  The alerts are those of the reported signals, with the
    scores the classifier run gave; the position written is one that passed
    the check; the debug lines are printed with [--debug] only and the alerts
    published with [--zmq] only. *)

Section Keeps.

Variable float_of_str : string -> option float.
Variable inv : store -> list event -> Prop.
Variable a : args.
Variable sub_sock : bool.
Variable chosen : signal -> Prop.
Variable good_th : float -> Prop.

Hypothesis keep_construct :
  forall th ok st t,
    good_th th -> inv st t -> inv st (t ++ [EvConstruct th ok]).
Hypothesis keep_start :
  forall ok st t, inv st t -> inv st (t ++ [EvStart ok]).
Hypothesis keep_stop : forall st t, inv st t -> inv st (t ++ [EvStop]).
Hypothesis keep_wait : forall st t, inv st t -> inv st (t ++ [EvWait]).
Hypothesis keep_gc : forall st t, inv st t -> inv st (t ++ [EvGcCollect]).
Hypothesis keep_tune :
  forall hz st t, inv st t -> inv st (t ++ [EvSetCenter hz]).
Hypothesis keep_sleep :
  forall s st t, inv st t -> inv st (t ++ [EvSleep s]).
Hypothesis keep_print :
  forall l st t,
    is_debug_line l = false -> inv st t -> inv st (t ++ [EvPrint l]).
Hypothesis keep_debug :
  forall l st t,
    debug a = true -> is_debug_line l = true ->
    inv st t -> inv st (t ++ [EvPrint l]).
Hypothesis keep_run :
  forall s st t,
    chosen s -> _confirm_disabled_reason st = None -> inv st t ->
    inv st (t ++ [EvSubprocessRun (suscli_cmd (fst s)) CONFIRM_SECONDS]).
Hypothesis keep_end :
  forall st t, inv st t -> inv st (t ++ [EvSubprocessEnd]).
Hypothesis keep_tb :
  forall o st t, inv st t -> inv (store_of (set_tb o st)) t.
Hypothesis keep_disable :
  forall reason, preserves inv (_disable_confirm reason).
Hypothesis keep_gps :
  forall la lo al st t,
    sub_sock = true -> in_range la lo = true -> inv st t ->
    inv (store_of (set_gps (la, lo, al) st)) t.
Hypothesis keep_energy :
  forall s,
    chosen s -> zmq a = true ->
    preserves inv (publish_alert (fst s) (snd s) 0.0 0.0 "energy").
Hypothesis keep_confirm :
  forall s pal ntsc,
    chosen s -> zmq a = true ->
    (0 <=? pal)%float = true -> (0 <=? ntsc)%float = true ->
    preserves inv (publish_alert (fst s) (snd s) pal ntsc "confirm").

Lemma keeps_set_tb o : preserves inv (set_tb o).
Proof.
  intros st t0 H. cbn [trace_of set_tb snd]. rewrite app_nil_r.
  now apply keep_tb.
Qed.

Ltac keep_event e :=
  lazymatch e with
  | EvConstruct _ _ => apply keep_construct; [assumption|]
  | EvStart _ => apply keep_start
  | EvStop => apply keep_stop
  | EvWait => apply keep_wait
  | EvGcCollect => apply keep_gc
  | EvSetCenter _ => apply keep_tune
  | EvSleep _ => apply keep_sleep
  | EvSubprocessEnd => apply keep_end
  | EvPrint _ => apply keep_print; [reflexivity|]
  end.

Ltac keep_leaf :=
  lazymatch goal with
  | |- preserves _ (ret _) => apply preserves_ret
  | |- preserves _ (raise _) => apply preserves_raise
  | |- preserves _ get => apply preserves_get
  | |- preserves _ (lift _) => apply preserves_lift
  | |- preserves _ (set_tb _) => apply keeps_set_tb
  | |- preserves _ (_disable_confirm _) => apply keep_disable
  | |- preserves _ (emit ?e) =>
      apply preserves_emit; intros; keep_event e; assumption
  end.

Ltac keep_step :=
  lazymatch goal with
  | |- preserves _ (bind _ _) =>
      apply preserves_bind; [try solve [keep_leaf]|intros ?]
  | |- preserves _ (match ?x with _ => _ end) => destruct x
  | |- _ => keep_leaf
  end.

Lemma keeps_retry_loop th outcome_of :
  good_th th ->
  forall attempts, preserves inv (retry_loop th outcome_of attempts).
Proof.
  intros Hth.
  induction attempts as [|k rest IH]; cbn [retry_loop];
    repeat keep_step; apply IH.
Qed.

Lemma keeps_start_tb_with_retry th outcome_of :
  good_th th -> preserves inv (start_tb_with_retry th outcome_of).
Proof. intros Hth. now apply keeps_retry_loop. Qed.

Lemma keeps_open_once th o : good_th th -> preserves inv (open_once th o).
Proof. intros Hth. unfold open_once. repeat keep_step. Qed.

Lemma keeps_warmup_sweep probe :
  forall channels k medians,
    preserves inv (warmup_sweep probe k channels medians).
Proof.
  induction channels as [|mhz rest IH]; intros k medians;
    cbn [warmup_sweep]; repeat keep_step; apply IH.
Qed.

Lemma keeps_warmup_sweeps probe :
  forall sweeps k medians,
    preserves inv (warmup_sweeps probe sweeps k medians).
Proof.
  induction sweeps as [|n IH]; intros k medians; cbn [warmup_sweeps];
    repeat keep_step; [apply keeps_warmup_sweep|apply IH].
Qed.

Lemma keeps_warmup_threshold probe :
  preserves inv (warmup_threshold probe).
Proof.
  unfold warmup_threshold.
  apply preserves_bind; [apply keeps_warmup_sweeps|intros ms].
  repeat keep_step.
Qed.

Lemma keeps_poll r :
  preserves inv (poll_monitor_for_gps float_of_str sub_sock r).
Proof.
  intros st t0 H.
  destruct (poll_footprint float_of_str sub_sock r st)
    as [Ht [Hs|[la [lo [al [Hsub [_ [Hin Hs]]]]]]]];
    rewrite Ht, Hs, app_nil_r; [assumption|now apply keep_gps].
Qed.

Lemma keeps_parse_scores lines :
  preserves inv (parse_scores float_of_str lines).
Proof. unfold parse_scores. repeat keep_step. Qed.

Lemma keeps_confirm_outcome proc :
  preserves inv (confirm_outcome float_of_str proc).
Proof.
  unfold confirm_outcome, captured_output.
  apply preserves_bind.
  - destruct proc as [|out|rc out unk|e]; repeat keep_step.
  - intros [out|]; [apply keeps_parse_scores|keep_step].
Qed.

Lemma keeps_run_confirm s proc :
  chosen s -> preserves inv (run_confirm float_of_str (fst s) proc).
Proof.
  intros Hs st t0 Hinv.
  destruct (_confirm_disabled_reason st) as [r|] eqn:Hflag.
  - rewrite (run_confirm_disabled _ _ _ _ _ Hflag). cbn.
    now rewrite app_nil_r.
  - rewrite (run_confirm_enabled _ _ _ _ Hflag).
    cbn [result_of store_of trace_of fst snd].
    change (t0 ++ ?e1 :: ?e2 :: ?t) with (t0 ++ [e1] ++ [e2] ++ t).
    rewrite !app_assoc.
    apply keeps_confirm_outcome.
    apply keep_end. now apply keep_run.
Qed.

(** What follows the classifier run in a visit, for the result it gave. *)
Lemma keeps_after_confirm th s i r :
  good_th th ->
  chosen s ->
  (forall pal ntsc,
      r = Scores pal ntsc ->
      (0 <=? pal)%float = true /\ (0 <=? ntsc)%float = true) ->
  preserves inv
    (match r with
     | Disabled => emit (EvPrint (ConfirmSkipped (fst s)))
     | Scores pal ntsc =>
         emit (EvPrint (ConfirmLine (fst s) pal ntsc)) ;;
         (if zmq a
          then publish_alert (fst s) (snd s) pal ntsc "confirm"
          else ret tt) ;;
         (if debug a
          then emit (EvPrint (DebugConfirm (fst s) (snd s) pal ntsc))
          else ret tt)
     end ;;
     emit (EvSleep COOLDOWN_S) ;;
     t <- start_tb_with_retry th (reopen i) ;;
     set_tb (Some t)).
Proof.
  intros Hth Hs Hgood.
  apply preserves_bind.
  - destruct r as [|pal ntsc]; [keep_step|].
    destruct (Hgood pal ntsc eq_refl) as [Hp Hn].
    apply preserves_bind; [keep_leaf|intros _].
    apply preserves_bind.
    + destruct (zmq a) eqn:Hz; [now apply keep_confirm|keep_leaf].
    + intros _. destruct (debug a) eqn:Hd; [|keep_leaf].
      apply preserves_emit. intros st t H.
      now apply keep_debug.
  - intros _. repeat keep_step. now apply keeps_start_tb_with_retry.
Qed.

Lemma keeps_confirm_and_reopen th s i :
  good_th th ->
  chosen s ->
  preserves inv (confirm_and_reopen float_of_str a th (fst s) (snd s) i).
Proof.
  intros Hth Hs. unfold confirm_and_reopen.
  apply sat_bind
    with (Q := fun r st t =>
                 inv st t /\
                 forall pal ntsc,
                   r = Ret (Scores pal ntsc) ->
                   (0 <=? pal)%float = true /\ (0 <=? ntsc)%float = true).
  - apply sat_result; [now apply keeps_run_confirm|].
    intros st pal ntsc. apply run_confirm_lower.
  - intros r. apply sat_pre with (P' := fun st t =>
        inv st t /\
        forall pal ntsc, r = Scores pal ntsc ->
          (0 <=? pal)%float = true /\ (0 <=? ntsc)%float = true).
    { intros st t [H Hg]. split; [exact H|].
      intros pal ntsc ->. now apply Hg. }
    intros st t0 [H Hg].
    now apply (keeps_after_confirm th s i r Hth Hs Hg).
  - intros e st t [H _]. exact H.
Qed.

Lemma keeps_on_report th mhz signals i :
  good_th th ->
  (forall s, In s signals -> chosen s) ->
  preserves inv (on_report float_of_str a th mhz signals i).
Proof.
  intros Hth Hch. unfold on_report. destruct signals as [|s0 others].
  - keep_step.
  - assert (Hbest : chosen (max_by_bw s0 others)).
    { apply Hch. apply max_by_bw_max. }
    apply preserves_bind; [keep_leaf|intros _].
    apply preserves_bind.
    + destruct (zmq a) eqn:Hz; [now apply keep_energy|keep_leaf].
    + intros _. repeat keep_step.
      now apply keeps_confirm_and_reopen.
Qed.

Hypothesis chosen_report :
  forall msg center_hz s, In s (parse_rf_map msg center_hz) -> chosen s.

Lemma keeps_visit th mhz i :
  good_th th ->
  preserves inv (visit float_of_str a sub_sock th mhz i).
Proof.
  intros Hth. unfold visit.
  apply preserves_bind; [apply keeps_poll|intros _].
  repeat keep_step. apply keeps_on_report; [exact Hth|].
  apply chosen_report.
Qed.

Lemma keeps_scan_loop th :
  good_th th ->
  forall visits k, preserves inv (scan_loop float_of_str a sub_sock th k visits).
Proof.
  intros Hth.
  induction visits as [|i rest IH]; intros k; cbn [scan_loop];
    repeat keep_step; [now apply keeps_visit|apply IH].
Qed.

(** What follows the warm-up at start-up. *)
Lemma keeps_after_warmup s th :
  good_th th ->
  preserves inv
    ((if debug a then emit (EvPrint (DebugWarmup th)) else ret tt) ;;
     emit EvStop ;;
     emit EvWait ;;
     set_tb None ;;
     emit EvGcCollect ;;
     emit (EvSleep COOLDOWN_S) ;;
     t <- start_tb_with_retry th (warmup_reopen s) ;;
     set_tb (Some t) ;;
     ret th).
Proof.
  intros Hth. apply preserves_bind.
  - destruct (debug a) eqn:Hd; [|keep_leaf].
    apply preserves_emit. intros st t0 H. now apply keep_debug.
  - intros _. repeat keep_step. now apply keeps_start_tb_with_retry.
Qed.

Hypothesis good_any : forall th, good_th th.

Lemma keeps_calibrate s : preserves inv (calibrate a s).
Proof.
  unfold calibrate.
  apply preserves_bind; [apply keeps_open_once, good_any|intros t].
  apply preserves_bind; [keep_leaf|intros _].
  cbn [WARMUP_SWEEPS Nat.ltb Nat.leb AUTO_THRESHOLD negb andb].
  apply preserves_bind; [apply keeps_warmup_threshold|intros th].
  apply keeps_after_warmup, good_any.
Qed.

Lemma keeps_release_on_exit : preserves inv release_on_exit.
Proof. unfold release_on_exit. repeat keep_step. Qed.

Lemma keeps_main s visits :
  mon_sub s = sub_sock ->
  preserves inv (main float_of_str a s visits).
Proof.
  intros Hsub. unfold main. rewrite Hsub.
  apply preserves_bind; [apply keeps_calibrate|intros th].
  apply preserves_finally;
    [apply keeps_scan_loop, good_any|apply keeps_release_on_exit].
Qed.

End Keeps.

(** ** The alerts *)

Lemma publish_alert_builds center_hz bandwidth_hz pal ntsc source st :
  publish_alert center_hz bandwidth_hz pal ntsc source st =
  (Ret tt, st,
   [EvPublish
      (BasicID "Serial Number (ANSI/CTA-2063-A)" ALERT_ID_PREFIX
         (center_hz / 1e6) "FPV Signal"
       :: match _last_sensor_gps st with
          | Some (lat, lon, alt) => [LocationVector lat lon alt 0.0 0.0 0.0]
          | None => []
          end
       ++ [ SelfID ("FPV alert (" ++ source ++ ")");
            FrequencyMessage center_hz;
            SignalInfo source center_hz bandwidth_hz pal ntsc ])]).
Proof.
  unfold publish_alert, build_alert_messages, bind, get, ret, emit.
  destruct (_last_sensor_gps st) as [[[lat lon] alt]|]; reflexivity.
Qed.

Lemma publish_alert_ok center_hz bandwidth_hz pal ntsc source :
  (MIN_BW_HZ <=? bandwidth_hz)%float = true ->
  scores_ok source pal ntsc ->
  preserves (fun st t => position_ok st /\ Forall alert_ok (published t))
    (publish_alert center_hz bandwidth_hz pal ntsc source).
Proof.
  intros Hb Hs st t0 [Hpos Hall]. rewrite publish_alert_builds.
  cbn [store_of trace_of fst snd]. split; [exact Hpos|].
  rewrite published_app. apply Forall_app. split; [exact Hall|].
  cbn. constructor; [|constructor].
  eexists _, source, center_hz, bandwidth_hz, pal, ntsc.
  split; [reflexivity|]. split; [|split; assumption].
  unfold position_ok in Hpos.
  destruct (_last_sensor_gps st) as [[[lat lon] alt]|]; [|now left].
  right. eauto.
Qed.

Lemma alerts_ok_kept float_of_str a s visits :
  preserves (fun st t => position_ok st /\ Forall alert_ok (published t))
    (main float_of_str a s visits).
Proof.
  assert (Hq : forall e (st : store) t,
             published [e] = [] ->
             position_ok st /\ Forall alert_ok (published t) ->
             position_ok st /\ Forall alert_ok (published (t ++ [e]))).
  { intros e st t He [H1 H2]. split; [exact H1|].
    now rewrite published_app, He, app_nil_r. }
  apply keeps_main
    with (sub_sock := mon_sub s)
         (chosen := fun s => (MIN_BW_HZ <=? snd s)%float = true)
         (good_th := fun _ => True);
    try (intros; apply Hq; [reflexivity|assumption]);
    try solve [intros; exact I].
  - intros o st t H. exact H.
  - intros reason st t0 H.
    destruct (_confirm_disabled_reason st) as [old|] eqn:Hf.
    + rewrite (_disable_confirm_set _ _ _ Hf). cbn. now rewrite app_nil_r.
    + rewrite (_disable_confirm_unset _ _ Hf). cbn.
      destruct H as [H1 H2]. split; [exact H1|].
      now rewrite published_app, app_nil_r.
  - intros la lo al st t _ Hin [_ H]. split; [exact Hin|exact H].
  - intros ss Hs _. apply publish_alert_ok; [exact Hs|]. left. auto.
  - intros ss pal ntsc Hs _ Hp Hn. apply publish_alert_ok; [exact Hs|].
    right. auto.
  - intros msg c ss. apply detection_report_bandwidth.
  - reflexivity.
Qed.

(** Every alert that a run publishes has the same layout: the Basic ID with
    the frequency in MHz, the Location part if a position is known, the
    Self-ID, the Frequency and the Signal Info, with one frequency
    throughout.  Its bandwidth is at least the minimum of the detector; its
    scores are 0.0 at the energy stage and not below 0.0 (nor NaN) at the
    confirm stage; its position, if any, has a latitude and a longitude in
    range, and zero height and speeds. *)
Theorem published_alerts_are_well_formed :
  forall float_of_str a s visits st alert,
    position_ok st ->
    In (EvPublish alert) (trace_of (main float_of_str a s visits st)) ->
    alert_ok alert.
Proof.
  intros fos a s visits st alert Hpos Hin.
  destruct (alerts_ok_kept fos a s visits st [] (conj Hpos (Forall_nil _)))
    as [_ H].
  cbn [app] in H. rewrite Forall_forall in H.
  apply H. now apply in_published.
Qed.

(** ** The two switches *)

Lemma in_snoc {A} (x y : A) l : In x (l ++ [y]) <-> In x l \/ x = y.
Proof.
  split.
  - intros H. apply in_app_or in H. destruct H as [H|[H|[]]]; auto.
  - intros [H|H]; apply in_or_app; [now left|right; now left].
Qed.

Lemma not_publish_kept float_of_str a s visits :
  zmq a = false ->
  preserves (fun _ t => Forall not_publish t) (main float_of_str a s visits).
Proof.
  intros Hz.
  apply keeps_main with (sub_sock := mon_sub s) (chosen := fun _ => True)
                      (good_th := fun _ => True);
    try solve [intros; apply Forall_app; split;
               [assumption|constructor; [exact I|constructor]]];
    try solve [intros; auto]; try congruence.
  intros reason st t0 H.
  destruct (_confirm_disabled_reason st) as [old|] eqn:Hf.
  - rewrite (_disable_confirm_set _ _ _ Hf). cbn. now rewrite app_nil_r.
  - rewrite (_disable_confirm_unset _ _ Hf). cbn.
    apply Forall_app. split; [assumption|]. now repeat constructor.
Qed.

Lemma not_debug_kept float_of_str a s visits :
  debug a = false ->
  preserves (fun _ t => Forall not_debug t) (main float_of_str a s visits).
Proof.
  intros Hd.
  apply keeps_main with (sub_sock := mon_sub s) (chosen := fun _ => True)
                      (good_th := fun _ => True);
    try solve [intros; apply Forall_app; split;
               [assumption|constructor; [exact I|constructor]]];
    try solve [intros; auto]; try congruence.
  - intros l st t Hl H. apply Forall_app. split; [assumption|].
    constructor; [exact Hl|constructor].
  - intros reason st t0 H.
    destruct (_confirm_disabled_reason st) as [old|] eqn:Hf.
    + rewrite (_disable_confirm_set _ _ _ Hf). cbn. now rewrite app_nil_r.
    + rewrite (_disable_confirm_unset _ _ Hf). cbn.
      apply Forall_app. split; [assumption|]. now repeat constructor.
  - intros ss _ _ st t0 H. rewrite publish_alert_builds. cbn.
    apply Forall_app. split; [assumption|]. now repeat constructor.
  - intros ss pal ntsc _ _ _ _ st t0 H. rewrite publish_alert_builds. cbn.
    apply Forall_app. split; [assumption|]. now repeat constructor.
Qed.

(** Without [--zmq] a run publishes nothing, and without [--debug] it prints
    no debug line, whatever happens. *)
Theorem output_follows_the_switches :
  forall float_of_str a s visits st,
    (zmq a = false ->
     forall alert,
       ~ In (EvPublish alert) (trace_of (main float_of_str a s visits st))) /\
    (debug a = false ->
     forall l,
       In (EvPrint l) (trace_of (main float_of_str a s visits st)) ->
       is_debug_line l = false).
Proof.
  intros fos a s visits st. split.
  - intros Hz alert Hin.
    pose proof (not_publish_kept fos a s visits Hz st [] (Forall_nil _)) as H.
    cbn [app] in H. rewrite Forall_forall in H. exact (H _ Hin).
  - intros Hd l Hin.
    pose proof (not_debug_kept fos a s visits Hd st [] (Forall_nil _)) as H.
    cbn [app] in H. rewrite Forall_forall in H. exact (H _ Hin).
Qed.

(** ** The position in the alerts *)

Lemma has_location_publish center_hz bandwidth_hz pal ntsc source st :
  exists alert,
    publish_alert center_hz bandwidth_hz pal ntsc source st
      = (Ret tt, st, [EvPublish alert]) /\
    has_location alert =
      match _last_sensor_gps st with Some _ => true | None => false end.
Proof.
  rewrite publish_alert_builds. eexists. split; [reflexivity|].
  destruct (_last_sensor_gps st) as [[[lat lon] alt]|]; reflexivity.
Qed.

Lemma position_known_kept float_of_str a s visits :
  preserves
    (fun st t =>
       _last_sensor_gps st <> None /\
       Forall (fun alert => has_location alert = true) (published t))
    (main float_of_str a s visits).
Proof.
  assert (Hq : forall e (st : store) t,
             published [e] = [] ->
             _last_sensor_gps st <> None /\
             Forall (fun alert => has_location alert = true) (published t) ->
             _last_sensor_gps st <> None /\
             Forall (fun alert => has_location alert = true)
                    (published (t ++ [e]))).
  { intros e st t He [H1 H2]. split; [exact H1|].
    now rewrite published_app, He, app_nil_r. }
  assert (Hp : forall c b p n src,
             preserves
               (fun st t =>
                  _last_sensor_gps st <> None /\
                  Forall (fun alert => has_location alert = true)
                         (published t))
               (publish_alert c b p n src)).
  { intros c b p n src st t0 [H1 H2].
    destruct (has_location_publish c b p n src st) as [alert [E Hl]].
    rewrite E. cbn [store_of trace_of fst snd]. split; [exact H1|].
    rewrite published_app. apply Forall_app. split; [exact H2|].
    cbn. constructor; [|constructor]. rewrite Hl.
    destruct (_last_sensor_gps st); [reflexivity|congruence]. }
  apply keeps_main with (sub_sock := mon_sub s) (chosen := fun _ => True)
                      (good_th := fun _ => True);
    try solve [intros; apply Hq; [reflexivity|assumption]];
    try solve [intros; apply Hp]; try solve [intros; auto].
  - intros reason st t0 H.
    destruct (_confirm_disabled_reason st) as [old|] eqn:Hf.
    + rewrite (_disable_confirm_set _ _ _ Hf). cbn. now rewrite app_nil_r.
    + rewrite (_disable_confirm_unset _ _ Hf). cbn.
      destruct H as [H1 H2]. split; [exact H1|].
      now rewrite published_app, app_nil_r.
  - intros la lo al st t _ _ [_ H]. split; [discriminate|exact H].
Qed.

Lemma position_unknown_kept float_of_str a s visits :
  mon_sub s = false ->
  preserves
    (fun st t =>
       _last_sensor_gps st = None /\
       Forall (fun alert => has_location alert = false) (published t))
    (main float_of_str a s visits).
Proof.
  intros Hsub.
  assert (Hq : forall e (st : store) t,
             published [e] = [] ->
             _last_sensor_gps st = None /\
             Forall (fun alert => has_location alert = false) (published t) ->
             _last_sensor_gps st = None /\
             Forall (fun alert => has_location alert = false)
                    (published (t ++ [e]))).
  { intros e st t He [H1 H2]. split; [exact H1|].
    now rewrite published_app, He, app_nil_r. }
  assert (Hp : forall c b p n src,
             preserves
               (fun st t =>
                  _last_sensor_gps st = None /\
                  Forall (fun alert => has_location alert = false)
                         (published t))
               (publish_alert c b p n src)).
  { intros c b p n src st t0 [H1 H2].
    destruct (has_location_publish c b p n src st) as [alert [E Hl]].
    rewrite E. cbn [store_of trace_of fst snd]. split; [exact H1|].
    rewrite published_app. apply Forall_app. split; [exact H2|].
    cbn. constructor; [|constructor]. now rewrite Hl, H1. }
  apply keeps_main with (sub_sock := false) (chosen := fun _ => True)
                      (good_th := fun _ => True);
    try solve [intros; apply Hq; [reflexivity|assumption]];
    try solve [intros; apply Hp]; try solve [intros; auto];
    try solve [intros; discriminate].
  intros reason st t0 H.
  destruct (_confirm_disabled_reason st) as [old|] eqn:Hf.
  - rewrite (_disable_confirm_set _ _ _ Hf). cbn. now rewrite app_nil_r.
  - rewrite (_disable_confirm_unset _ _ Hf). cbn.
    destruct H as [H1 H2]. split; [exact H1|].
    now rewrite published_app, app_nil_r.
Qed.

(** The position is never forgotten: from a store that holds one, the store
    holds one at the end of the run, whatever the telemetry says, and every
    alert of the run has a Location part.  When none is known and the
    telemetry socket could not be set up, none is known at the end and no
    alert has a Location part. *)
Theorem position_is_kept_and_reported :
  forall float_of_str a s visits st,
    let r := main float_of_str a s visits st in
    (_last_sensor_gps st <> None ->
     _last_sensor_gps (store_of r) <> None /\
     forall alert,
       In (EvPublish alert) (trace_of r) -> has_location alert = true) /\
    (_last_sensor_gps st = None -> mon_sub s = false ->
     _last_sensor_gps (store_of r) = None /\
     forall alert,
       In (EvPublish alert) (trace_of r) -> has_location alert = false).
Proof.
  intros fos a s visits st r. split.
  - intros Hk.
    destruct (position_known_kept fos a s visits st [])
      as [H1 H2]; [split; [exact Hk|constructor]|].
    split; [exact H1|]. intros alert Hin.
    cbn [app] in H2. rewrite Forall_forall in H2.
    apply H2. now apply in_published.
  - intros Hn Hsub.
    destruct (position_unknown_kept fos a s visits Hsub st [])
      as [H1 H2]; [split; [exact Hn|constructor]|].
    split; [exact H1|]. intros alert Hin.
    cbn [app] in H2. rewrite Forall_forall in H2.
    apply H2. now apply in_published.
Qed.

(** ** The life cycle of the flow graph *)

Lemma life_run_app q t1 t2 :
  life_run q (t1 ++ t2) =
  match life_run q t1 with
  | Some q1 => life_run q1 t2
  | None => None
  end.
Proof.
  revert q. induction t1 as [|e t1 IH]; intros q; simpl; [reflexivity|].
  destruct (life_step q e); [apply IH|reflexivity].
Qed.

Lemma in_phase_event q q' p e st t :
  life_step q e = Some q' ->
  in_phase q p st t -> in_phase q' p st (t ++ [e]).
Proof.
  intros Hs [Hl Hp]. split; [|exact Hp].
  rewrite life_run_app, Hl. cbn. now rewrite Hs.
Qed.

Lemma in_phase_set_tb q (p p' : option InspectorScan -> Prop) o st t :
  p' o -> in_phase q p st t -> in_phase q p' (store_of (set_tb o st)) t.
Proof. intros Ho [Hl _]. split; [exact Hl|exact Ho]. Qed.

(** The statements that make no event of the life cycle and do not write
    [tb] keep the phase. *)

Lemma in_phase_poll float_of_str sub_sock r q p :
  preserves (in_phase q p) (poll_monitor_for_gps float_of_str sub_sock r).
Proof.
  apply keeps_poll. intros la lo al st t _ _ H. exact H.
Qed.

Lemma in_phase_publish c b pal ntsc source q p :
  preserves (in_phase q p) (publish_alert c b pal ntsc source).
Proof.
  intros st t0 H. rewrite publish_alert_builds.
  cbn [store_of trace_of fst snd].
  now apply in_phase_event with (q := q).
Qed.

Lemma in_phase_disable reason q p :
  preserves (in_phase q p) (_disable_confirm reason).
Proof.
  intros st t0 H.
  destruct (_confirm_disabled_reason st) as [old|] eqn:Hf.
  - rewrite (_disable_confirm_set _ _ _ Hf). cbn. now rewrite app_nil_r.
  - rewrite (_disable_confirm_unset _ _ Hf).
    cbn [store_of trace_of fst snd].
    apply in_phase_event with (q := q); [reflexivity|].
    destruct H as [H1 H2]. split; assumption.
Qed.

Lemma in_phase_run_confirm float_of_str hz proc q p :
  preserves (in_phase q p) (run_confirm float_of_str hz proc).
Proof.
  apply (keeps_run_confirm float_of_str (in_phase q p) (fun _ => True))
    with (s := (hz, 0%float)); [| | |exact I].
  - intros s st t _ _ H. now apply in_phase_event with (q := q).
  - intros st t H. now apply in_phase_event with (q := q).
  - intros reason. apply in_phase_disable.
Qed.

Lemma in_phase_warmup probe p :
  preserves (in_phase Running p) (warmup_threshold probe).
Proof.
  apply keeps_warmup_threshold.
  - intros hz st t H. now apply in_phase_event with (q := Running).
  - intros s st t H. now apply in_phase_event with (q := Running).
Qed.

Ltac life_emit q' :=
  lazymatch goal with
  | |- sat (bind (emit _) _) (in_phase ?q0 ?p0) _ =>
      apply sat_emit_then with (P' := in_phase q' p0);
      [intros ? ? ?; apply (in_phase_event q0 q' p0);
       [reflexivity|assumption]|]
  end.

(** A statement that keeps [P] and returns, then the rest. *)
Lemma sat_then_ret {A B} (m : M A) (f : A -> M B)
  (P : store -> list event -> Prop)
  (R : outcome B -> store -> list event -> Prop) :
  preserves P m ->
  (forall st, exists a, result_of (m st) = Ret a) ->
  (forall a, sat (f a) P R) ->
  sat (bind m f) P R.
Proof.
  intros Hm Hret Hf.
  apply sat_bind with (Q := fun r st t => P st t /\ exists a, r = Ret a).
  - apply sat_result; assumption.
  - intros a0. apply sat_pre with (P' := P); [tauto|apply Hf].
  - intros e st t [_ [a0 Ha]]. discriminate.
Qed.

Lemma life_retry_loop th outcome_of p :
  forall attempts,
    sat (retry_loop th outcome_of attempts) (in_phase Idle p) (opened p).
Proof.
  induction attempts as [|k rest IH]; cbn [retry_loop].
  - apply sat_raise. auto.
  - destruct (construct_exn (outcome_of k)) as [e|].
    + life_emit Idle. apply sat_raise. auto.
    + life_emit Idle.
      destruct (start_exn (outcome_of k)) as [[why| | | | |]|];
        try (life_emit Idle; apply sat_raise; now auto).
      * life_emit Idle. life_emit Idle. life_emit Idle. life_emit Idle.
        life_emit Idle. exact IH.
      * life_emit Running. apply sat_ret. auto.
Qed.

Lemma life_open_once th o p :
  sat (open_once th o) (in_phase Idle p) (opened p).
Proof.
  unfold open_once.
  destruct (construct_exn o) as [e|].
  - life_emit Idle. apply sat_raise. auto.
  - life_emit Idle.
    destruct (start_exn o) as [e|].
    + life_emit Idle. apply sat_raise. auto.
    + life_emit Running. apply sat_ret. auto.
Qed.

(** Reopening and keeping the new block in [tb]. *)
Lemma life_reopen th outcome_of :
  sat (t <- start_tb_with_retry th outcome_of ;; set_tb (Some t))
    (in_phase Idle (fun o => o = None))
    (@reopened unit).
Proof.
  apply sat_bind with (Q := opened (fun o => o = None)).
  - apply life_retry_loop.
  - intros t. apply sat_set_tb. intros st t0 H.
    apply in_phase_set_tb with (p := fun o => o = None); [discriminate|].
    exact H.
  - intros e st t H. exact H.
Qed.

Lemma warmup_threshold_returns probe st :
  exists th, result_of (warmup_threshold probe st) = Ret th.
Proof. destruct (warmup_threshold_run probe st) as [H _]. eauto. Qed.

Lemma life_calibrate a s p :
  sat (calibrate a s) (in_phase Idle p)
    (fun r st t =>
       match r with
       | Ret _ => in_phase Running (fun o => o <> None) st t
       | Raise _ => in_phase Idle (fun _ => True) st t
       end).
Proof.
  unfold calibrate.
  apply sat_bind with (Q := opened p).
  - apply life_open_once.
  - intros t.
    apply sat_set_tb_then with (P' := in_phase Running (fun o => o <> None)).
    { intros st t0 H.
      apply in_phase_set_tb with (p := p); [discriminate|exact H]. }
    cbn [WARMUP_SWEEPS Nat.ltb Nat.leb AUTO_THRESHOLD negb andb].
    apply sat_then_ret;
      [apply in_phase_warmup|apply warmup_threshold_returns|].
    intros th. apply sat_then_ret.
    + destruct (debug a); [|apply preserves_ret].
      apply preserves_emit. intros st t0 H.
      now apply in_phase_event with (q := Running).
    + intros st. destruct (debug a); cbn; eauto.
    + intros _. life_emit Stopping. life_emit Idle.
      apply sat_set_tb_then with (P' := in_phase Idle (fun o => o = None)).
      { intros st t0 H.
        apply in_phase_set_tb with (p := fun o => o <> None);
          [reflexivity|exact H]. }
      life_emit Idle. life_emit Idle.
      apply sat_bind with (Q := opened (fun o => o = None)).
      * apply life_retry_loop.
      * intros t1.
        apply sat_set_tb_then
          with (P' := in_phase Running (fun o => o <> None)).
        { intros st t0 H.
          apply in_phase_set_tb with (p := fun o => o = None);
            [discriminate|exact H]. }
        apply sat_ret. auto.
      * intros e st t0 [H _]. split; [exact H|exact I].
  - intros e st t0 [H _]. split; [exact H|exact I].
Qed.

Lemma publish_alert_returns c b pal ntsc source st :
  exists u, result_of (publish_alert c b pal ntsc source st) = Ret u.
Proof. rewrite publish_alert_builds. cbn. eauto. Qed.

Lemma life_confirm_and_reopen float_of_str a th hz bw i :
  sat (confirm_and_reopen float_of_str a th hz bw i)
    (in_phase Idle (fun o => o = None)) (@reopened unit).
Proof.
  unfold confirm_and_reopen.
  apply sat_then; [apply in_phase_run_confirm| |auto].
  intros r. apply sat_then; [| |auto].
  - destruct r as [|pal ntsc].
    + apply preserves_emit. intros st t0 H.
      now apply in_phase_event with (q := Idle).
    + apply preserves_bind.
      { apply preserves_emit. intros st t0 H.
        now apply in_phase_event with (q := Idle). }
      intros _. apply preserves_bind.
      { destruct (zmq a); [apply in_phase_publish|apply preserves_ret]. }
      intros _. destruct (debug a); [|apply preserves_ret].
      apply preserves_emit. intros st t0 H.
      now apply in_phase_event with (q := Idle).
  - intros _. life_emit Idle. apply life_reopen.
Qed.

Lemma life_on_report float_of_str a th mhz signals i :
  sat (on_report float_of_str a th mhz signals i)
    (in_phase Running (fun o => o <> None)) (@reopened unit).
Proof.
  unfold on_report. destruct signals as [|s0 others].
  - apply sat_emit. intros st t H.
    now apply in_phase_event with (q := Running).
  - life_emit Running.
    apply sat_then_ret.
    + destruct (zmq a); [apply in_phase_publish|apply preserves_ret].
    + intros st. destruct (zmq a);
        [apply publish_alert_returns|cbn; eauto].
    + intros _. life_emit Stopping. life_emit Idle.
      apply sat_set_tb_then with (P' := in_phase Idle (fun o => o = None)).
      { intros st t0 H.
        apply in_phase_set_tb with (p := fun o => o <> None);
          [reflexivity|exact H]. }
      life_emit Idle. life_emit Idle.
      apply life_confirm_and_reopen.
Qed.

Lemma reopened_scanning {A} (r : outcome A) st t :
  reopened r st t -> scanning_or_released r st t.
Proof. destruct r; cbn; auto. Qed.

Lemma life_visit float_of_str a sub_sock th mhz i :
  sat (visit float_of_str a sub_sock th mhz i)
    (in_phase Running (fun o => o <> None)) (@scanning_or_released unit).
Proof.
  unfold visit.
  apply sat_then; [apply in_phase_poll| |intros e st t H; now left].
  intros _. life_emit Running. life_emit Running. life_emit Running.
  apply sat_post with (R' := @reopened unit);
    [apply reopened_scanning|apply life_on_report].
Qed.

Lemma life_scan_loop float_of_str a sub_sock th :
  forall visits k,
    sat (scan_loop float_of_str a sub_sock th k visits)
      (in_phase Running (fun o => o <> None)) (@scanning_or_released unit).
Proof.
  induction visits as [|i rest IH]; intros k; cbn [scan_loop].
  - apply sat_ret. auto.
  - apply sat_bind with (Q := @scanning_or_released unit).
    + apply life_visit.
    + intros u. exact (IH (S k)).
    + auto.
Qed.

Lemma life_release_on_exit (e : exn) :
  sat release_on_exit (@scanning_or_released unit (Raise e))
    (fun _ st t => life_run Idle t = Some Idle).
Proof.
  intros st t0 H. unfold release_on_exit, bind, get, emit, ret.
  destruct H as [[Hl Hp]|[Hl Hp]].
  - destruct (tb st) as [t|]; [|congruence].
    cbn. rewrite life_run_app, Hl. reflexivity.
  - rewrite Hp. cbn. now rewrite app_nil_r.
Qed.

Lemma life_main float_of_str a s visits :
  sat (main float_of_str a s visits) (in_phase Idle (fun _ => True))
    (fun r st t =>
       life_run Idle t = Some (match r with Ret _ => Running | Raise _ => Idle end)).
Proof.
  unfold main.
  apply sat_bind
    with (Q := fun r st t =>
                 match r with
                 | Ret _ => in_phase Running (fun o => o <> None) st t
                 | Raise _ => in_phase Idle (fun _ => True) st t
                 end).
  - apply life_calibrate.
  - intros th.
    apply sat_finally with (Q := @scanning_or_released unit).
    + apply life_scan_loop.
    + intros u st t [H _]. exact H.
    + intros e. apply sat_post with (R' := fun _ st t => life_run Idle t = Some Idle);
        [|apply life_release_on_exit].
      intros [u|e'] st t H; exact H.
  - intros e st t [H _]. exact H.
Qed.

(** In every run the radio follows its life cycle: each event of the run is
    one the phase allows when it happens.  So a top block is built and
    started only while none runs, the radio is tuned only while one runs,
    and a running block is stopped and then waited for.  When the run ends
    in an exception no block is left running; while it goes on, one runs. *)
Theorem radio_follows_its_life_cycle :
  forall float_of_str a s visits st,
    let r := main float_of_str a s visits st in
    life_run Idle (trace_of r)
      = Some (match result_of r with Ret _ => Running | Raise _ => Idle end) /\
    (forall before e after,
        trace_of r = before ++ e :: after ->
        exists q q',
          life_run Idle before = Some q /\ life_step q e = Some q') /\
    (forall before hz after,
        trace_of r = before ++ EvSetCenter hz :: after ->
        life_run Idle before = Some Running) /\
    (forall before ok after,
        trace_of r = before ++ EvStart ok :: after ->
        life_run Idle before = Some Idle).
Proof.
  intros fos a s visits st r.
  assert (H : life_run Idle (trace_of r)
              = Some (match result_of r with
                      | Ret _ => Running
                      | Raise _ => Idle
                      end)).
  { apply (life_main fos a s visits st []). split; [reflexivity|exact I]. }
  assert (Hstep : forall before e after,
             trace_of r = before ++ e :: after ->
             exists q q',
               life_run Idle before = Some q /\ life_step q e = Some q').
  { intros before e after E. rewrite E, life_run_app in H.
    destruct (life_run Idle before) as [q|]; [|discriminate].
    cbn [life_run] in H.
    destruct (life_step q e) as [q'|] eqn:Hs; [|discriminate].
    eauto. }
  split; [exact H|]. split; [exact Hstep|]. split.
  - intros before hz after E.
    destruct (Hstep _ _ _ E) as [q [q' [Hq Hs]]].
    rewrite Hq. destruct q; cbn in Hs; congruence.
  - intros before ok after E.
    destruct (Hstep _ _ _ E) as [q [q' [Hq Hs]]].
    rewrite Hq. destruct q; cbn in Hs; congruence.
Qed.

(** ** The order in which the radio is tuned *)

Lemma tuned_app t1 t2 : tuned (t1 ++ t2) = tuned t1 ++ tuned t2.
Proof. unfold tuned. apply flat_map_app. Qed.

Lemma tuned_tune_and_wait l :
  tuned (flat_map tune_and_wait l) = map center_hz_of l.
Proof.
  induction l as [|mhz l IH]; [reflexivity|].
  cbn [flat_map map]. rewrite tuned_app, IH. reflexivity.
Qed.

(** An event that is not a tuning keeps the frequencies tuned so far. *)
Lemma tuned_other X e (st : store) t :
  tuned [e] = [] -> tuned t = X -> tuned (t ++ [e]) = X.
Proof. intros He H. now rewrite tuned_app, He, app_nil_r. Qed.

Lemma tuned_disable X reason :
  preserves (fun _ t => tuned t = X) (_disable_confirm reason).
Proof.
  intros st t0 H.
  destruct (_confirm_disabled_reason st) as [old|] eqn:Hf.
  - rewrite (_disable_confirm_set _ _ _ Hf). cbn. now rewrite app_nil_r.
  - rewrite (_disable_confirm_unset _ _ Hf). cbn.
    now rewrite tuned_app, H, app_nil_r.
Qed.

Lemma tuned_publish X c b pal ntsc source :
  preserves (fun _ t => tuned t = X) (publish_alert c b pal ntsc source).
Proof.
  intros st t0 H. rewrite publish_alert_builds. cbn.
  now rewrite tuned_app, H, app_nil_r.
Qed.

Ltac tuned_kept :=
  try solve [intros; apply tuned_other; [assumption|reflexivity|assumption]];
  try solve [intros; apply tuned_disable];
  try solve [intros; apply tuned_publish];
  try solve [intros; auto].

Lemma tuned_on_report float_of_str a th mhz signals i X :
  preserves (fun _ t => tuned t = X)
    (on_report float_of_str a th mhz signals i).
Proof.
  apply keeps_on_report with (chosen := fun _ => True)
                      (good_th := fun _ => True); tuned_kept.
Qed.

Lemma tuned_open_once th o X :
  preserves (fun _ t => tuned t = X) (open_once th o).
Proof. apply keeps_open_once with (good_th := fun _ => True); tuned_kept. Qed.

Lemma tuned_after_warmup a s th X :
  preserves (fun _ t => tuned t = X)
    ((if debug a then emit (EvPrint (DebugWarmup th)) else ret tt) ;;
     emit EvStop ;;
     emit EvWait ;;
     set_tb None ;;
     emit EvGcCollect ;;
     emit (EvSleep COOLDOWN_S) ;;
     t <- start_tb_with_retry th (warmup_reopen s) ;;
     set_tb (Some t) ;;
     ret th).
Proof. apply keeps_after_warmup with (good_th := fun _ => True); tuned_kept. Qed.

Lemma tuned_release_on_exit X :
  preserves (fun _ t => tuned t = X) release_on_exit.
Proof. apply keeps_release_on_exit; tuned_kept. Qed.

Lemma tuned_poll float_of_str sub_sock r X :
  preserves (fun _ t => tuned t = X)
    (poll_monitor_for_gps float_of_str sub_sock r).
Proof. apply keeps_poll; tuned_kept. Qed.

Lemma tuned_warmup probe (st : store) t0 :
  tuned t0 = [] ->
  tuned (t0 ++ trace_of (warmup_threshold probe st)) = warmup_plan.
Proof.
  intros H0. rewrite tuned_app, H0. cbn [app].
  assert (Ht : trace_of (warmup_threshold probe st) =
               flat_map tune_and_wait
                 (List.concat (repeat ALL_CENTERS_MHZ WARMUP_SWEEPS))).
  { unfold warmup_threshold, bind.
    pose proof (warmup_sweeps_trace probe WARMUP_SWEEPS 0 [] st) as H.
    destruct (warmup_sweeps probe WARMUP_SWEEPS 0 [] st)
      as [[[ms|e] st1] t1]; cbn [trace_of snd] in *.
    - destruct ms as [|m ms]; [cbn; now rewrite app_nil_r|].
      destruct (median (m :: ms)); cbn; now rewrite app_nil_r.
    - exact H. }
  rewrite Ht. apply tuned_tune_and_wait.
Qed.

(** After the start-up the radio has been tuned to the frequencies of the
    warm-up, or to none if the first open raised. *)
Lemma tuned_calibrate a s :
  sat (calibrate a s) (fun _ t => tuned t = [])
    (fun r _ t =>
       match r with
       | Ret _ => tuned t = warmup_plan
       | Raise _ => tuned t = [] \/ tuned t = warmup_plan
       end).
Proof.
  unfold calibrate.
  apply sat_then; [apply tuned_open_once| |now left].
  intros t.
  apply sat_set_tb_then with (P' := fun _ t => tuned t = []); [auto|].
  cbn [WARMUP_SWEEPS Nat.ltb Nat.leb AUTO_THRESHOLD negb andb].
  apply sat_bind
    with (Q := fun (r : outcome float) (_ : store) t => tuned t = warmup_plan).
  - intros st t0 H. now apply tuned_warmup.
  - intros th.
    apply sat_post with (R' := fun _ _ t => tuned t = warmup_plan);
      [|apply tuned_after_warmup].
    intros [x|e] st t0 H; [exact H|now right].
  - intros e st t0 H. now right.
Qed.

Lemma tuned_visit float_of_str a sub_sock th mhz i X :
  sat (visit float_of_str a sub_sock th mhz i) (fun _ t => tuned t = X)
    (fun r _ t =>
       match r with
       | Ret _ => tuned t = X ++ [center_hz_of mhz]
       | Raise _ => tuned t = X \/ tuned t = X ++ [center_hz_of mhz]
       end).
Proof.
  unfold visit.
  apply sat_then; [apply tuned_poll| |now left].
  intros _.
  apply sat_emit_then
    with (P' := fun _ t => tuned t = X ++ [center_hz_of mhz]).
  { intros st t0 H. now rewrite tuned_app, H. }
  apply sat_emit_then
    with (P' := fun _ t => tuned t = X ++ [center_hz_of mhz]).
  { intros st t0 H. now apply tuned_other. }
  apply sat_emit_then
    with (P' := fun _ t => tuned t = X ++ [center_hz_of mhz]).
  { intros st t0 H. now apply tuned_other. }
  apply sat_post
    with (R' := fun _ _ t => tuned t = X ++ [center_hz_of mhz]);
    [|apply tuned_on_report].
  intros [x|e] st t0 H; [exact H|now right].
Qed.

Lemma scan_plan_cons k n :
  center_hz_of (channel k) :: scan_plan (S k) n = scan_plan k (S n).
Proof. reflexivity. Qed.

Lemma tuned_scan_loop float_of_str a sub_sock th :
  forall visits k X,
    sat (scan_loop float_of_str a sub_sock th k visits)
      (fun _ t => tuned t = X)
      (fun r _ t =>
         exists n,
           n <= List.length visits /\
           tuned t = X ++ scan_plan k n /\
           (forall u, r = Ret u -> n = List.length visits)).
Proof.
  induction visits as [|i rest IH]; intros k X; cbn [scan_loop].
  - apply sat_ret. intros st t H. exists 0.
    split; [reflexivity|]. split; [now rewrite app_nil_r|reflexivity].
  - eapply sat_bind; [apply tuned_visit| |].
    + intros u.
      apply sat_post
        with (R' := fun r _ t =>
                      exists n,
                        n <= List.length rest /\
                        tuned t = (X ++ [center_hz_of (channel k)])
                                  ++ scan_plan (S k) n /\
                        (forall u, r = Ret u -> n = List.length rest));
        [|apply IH].
      intros r st t [n [Hn [Ht Hr]]]. exists (S n).
      split; [cbn; lia|]. split.
      * rewrite Ht, <- app_assoc. reflexivity.
      * intros u' E. cbn. f_equal. now apply (Hr u').
    + intros e st t [H|H].
      * exists 0. split; [lia|]. split; [now rewrite app_nil_r|].
        discriminate.
      * exists 1. split; [cbn; lia|]. split; [exact H|discriminate].
Qed.

(** The radio is tuned once at each stop of the warm-up and once at each
    visit of the scan loop, to the channels of the plan in ascending order,
    starting again after the last, and at no other time: a run that goes
    through its visits has tuned to the frequencies of the warm-up and then
    to those of the visits; a run that ends in an exception has tuned to the
    first of them, up to the visit that raised, or to none if the first
    open failed. *)
Theorem radio_is_tuned_in_plan_order :
  forall float_of_str a s visits st,
    let r := main float_of_str a s visits st in
    exists n,
      n <= List.length visits /\
      (tuned (trace_of r) = [] \/
       tuned (trace_of r) = warmup_plan ++ scan_plan 0 n) /\
      (result_of r = Ret tt ->
       n = List.length visits /\
       tuned (trace_of r) = warmup_plan ++ scan_plan 0 n).
Proof.
  intros fos a s visits st r.
  assert (H : sat (main fos a s visits) (fun _ t => tuned t = [])
                (fun r _ t =>
                   exists n,
                     n <= List.length visits /\
                     (tuned t = [] \/ tuned t = warmup_plan ++ scan_plan 0 n) /\
                     (r = Ret tt ->
                      n = List.length visits /\
                      tuned t = warmup_plan ++ scan_plan 0 n))).
  { unfold main. eapply sat_bind; [apply tuned_calibrate| |].
    - intros th.
      apply sat_finally
        with (Q := fun r _ t =>
                     exists n,
                       n <= List.length visits /\
                       tuned t = warmup_plan ++ scan_plan 0 n /\
                       (forall u, r = Ret u -> n = List.length visits)).
      + apply tuned_scan_loop.
      + intros [] st0 t [n [Hn [Ht Hr]]]. exists n.
        split; [exact Hn|]. split; [now right|].
        intros _. split; [now apply (Hr tt)|exact Ht].
      + intros e st0 t0 [n [Hn [Ht _]]].
        pose proof (tuned_release_on_exit _ st0 t0 Ht) as Hk.
        cbv beta in Hk.
        destruct (result_of (release_on_exit st0)); exists n;
          (split; [exact Hn|]); (split; [now right|discriminate]).
    - intros e st0 t [H|H]; exists 0; (split; [lia|]).
      + split; [now left|discriminate].
      + split; [right; now rewrite app_nil_r|discriminate]. }
  specialize (H st [] eq_refl). exact H.
Qed.

(** ** The confirm alert follows the energy alert *)

Lemma snoc_eq_app_cons {A} (l : list A) x before y after :
  l ++ [x] = before ++ y :: after ->
  (after = [] /\ before = l /\ y = x) \/
  (exists after', after = after' ++ [x] /\ l = before ++ y :: after').
Proof.
  intros H. destruct after as [|z after' _] using rev_ind.
  - left. apply app_inj_tail in H. destruct H as [H1 H2]. auto.
  - right. exists after'.
    change (before ++ y :: after' ++ [z])
      with (before ++ (y :: after') ++ [z]) in H.
    rewrite app_assoc in H. apply app_inj_tail in H.
    destruct H as [H1 H2]. subst. auto.
Qed.

Lemma confirm_follows_energy_nil : confirm_follows_energy [].
Proof.
  intros before alert after c b p n H. destruct before; discriminate.
Qed.

Lemma confirm_follows_energy_energy alerts alert c b :
  signal_infos alert = [("energy"%string, c, b, 0.0%float, 0.0%float)] ->
  confirm_follows_energy alerts ->
  confirm_follows_energy (alerts ++ [alert]).
Proof.
  intros Hsi H before x after c' b' p n E Hx.
  apply snoc_eq_app_cons in E.
  destruct E as [[_ [_ ->]]|[after' [_ E]]].
  - rewrite Hsi in Hx. discriminate.
  - now apply (H before x after' c' b' p n).
Qed.

Lemma confirm_follows_energy_confirm s alerts alert pal ntsc :
  signal_infos alert = [("confirm"%string, fst s, snd s, pal, ntsc)] ->
  energy_is_last s alerts ->
  confirm_follows_energy alerts ->
  confirm_follows_energy (alerts ++ [alert]).
Proof.
  intros Hsi Hlast H before x after c' b' p n E Hx.
  apply snoc_eq_app_cons in E.
  destruct E as [[_ [-> ->]]|[after' [_ E]]].
  - rewrite Hsi in Hx. inversion Hx; subst. exact Hlast.
  - now apply (H before x after' c' b' p n).
Qed.

Lemma in_order_other e (st : store) t :
  published [e] = [] -> in_order st t -> in_order st (t ++ [e]).
Proof.
  unfold in_order. intros He H. now rewrite published_app, He, app_nil_r.
Qed.

Lemma awaiting_other s e (st : store) t :
  published [e] = [] -> awaiting s st t -> awaiting s st (t ++ [e]).
Proof.
  unfold awaiting. intros He H. now rewrite published_app, He, app_nil_r.
Qed.

Lemma in_order_disable reason :
  preserves in_order (_disable_confirm reason).
Proof.
  intros st t0 H.
  destruct (_confirm_disabled_reason st) as [old|] eqn:Hf.
  - rewrite (_disable_confirm_set _ _ _ Hf). cbn. now rewrite app_nil_r.
  - rewrite (_disable_confirm_unset _ _ Hf). cbn.
    now apply in_order_other.
Qed.

Lemma awaiting_disable s reason :
  preserves (awaiting s) (_disable_confirm reason).
Proof.
  intros st t0 H.
  destruct (_confirm_disabled_reason st) as [old|] eqn:Hf.
  - rewrite (_disable_confirm_set _ _ _ Hf). cbn. now rewrite app_nil_r.
  - rewrite (_disable_confirm_unset _ _ Hf). cbn.
    now apply awaiting_other.
Qed.

Lemma awaiting_run_confirm float_of_str s hz proc :
  preserves (awaiting s) (run_confirm float_of_str hz proc).
Proof.
  apply (keeps_run_confirm float_of_str (awaiting s) (fun _ => True))
    with (s := (hz, 0%float)); [| | |exact I].
  - intros s' st t _ _ H. now apply awaiting_other.
  - intros st t H. now apply awaiting_other.
  - intros reason. apply awaiting_disable.
Qed.

Lemma in_order_reopen th outcome_of :
  preserves in_order
    (emit (EvSleep COOLDOWN_S) ;;
     t <- start_tb_with_retry th outcome_of ;;
     set_tb (Some t)).
Proof.
  apply preserves_bind.
  { apply preserves_emit. intros st t H. now apply in_order_other. }
  intros _. apply preserves_bind.
  - apply keeps_start_tb_with_retry with (good_th := fun _ => True);
      try solve [intros; now apply in_order_other]. exact I.
  - intros t. intros st t0 H. cbn. now rewrite app_nil_r.
Qed.

Lemma publish_energy_awaits s :
  sat (publish_alert (fst s) (snd s) 0.0 0.0 "energy") in_order
    (fun _ => awaiting s).
Proof.
  intros st t0 H.
  destruct (publish_alert_run (fst s) (snd s) 0.0 0.0 "energy" st)
    as [alert [E Hsi]].
  rewrite E. cbn [result_of store_of trace_of fst snd].
  unfold awaiting. rewrite published_app. cbn [published flat_map app].
  split.
  - now apply confirm_follows_energy_energy with (c := fst s) (b := snd s).
  - exists (published t0), alert. auto.
Qed.

Lemma publish_confirm_in_order s pal ntsc :
  sat (publish_alert (fst s) (snd s) pal ntsc "confirm") (awaiting s)
    (fun _ => in_order).
Proof.
  intros st t0 [H Hlast].
  destruct (publish_alert_run (fst s) (snd s) pal ntsc "confirm" st)
    as [alert [E Hsi]].
  rewrite E. cbn [result_of store_of trace_of fst snd].
  unfold in_order. rewrite published_app. cbn [published flat_map app].
  now apply confirm_follows_energy_confirm with (s := s) (pal := pal)
                                                (ntsc := ntsc).
Qed.

Lemma in_order_confirm_and_reopen float_of_str a th s i :
  zmq a = true ->
  sat (confirm_and_reopen float_of_str a th (fst s) (snd s) i)
    (awaiting s) (fun _ => in_order).
Proof.
  intros Hz. unfold confirm_and_reopen.
  apply sat_then; [apply awaiting_run_confirm| |intros e st t [H _]; exact H].
  intros r.
  apply sat_bind with (Q := fun _ => in_order).
  - destruct r as [|pal ntsc].
    + apply sat_emit. intros st t [H _]. now apply in_order_other.
    + apply sat_emit_then with (P' := awaiting s).
      { intros st t H. now apply awaiting_other. }
      rewrite Hz.
      apply sat_bind with (Q := fun _ => in_order).
      * apply publish_confirm_in_order.
      * intros _. destruct (debug a); [|apply preserves_ret].
        apply preserves_emit. intros st t H. now apply in_order_other.
      * auto.
  - intros _. apply in_order_reopen.
  - auto.
Qed.

Lemma in_order_on_report float_of_str a th mhz signals i :
  zmq a = true ->
  preserves in_order (on_report float_of_str a th mhz signals i).
Proof.
  intros Hz. unfold on_report. destruct signals as [|s0 others].
  - apply preserves_emit. intros st t H. now apply in_order_other.
  - set (best := max_by_bw s0 others).
    apply sat_emit_then with (P' := in_order).
    { intros st t H. now apply in_order_other. }
    rewrite Hz.
    apply sat_bind with (Q := fun _ => awaiting best).
    + apply publish_energy_awaits.
    + intros _.
      apply sat_emit_then with (P' := awaiting best).
      { intros st t H. now apply awaiting_other. }
      apply sat_emit_then with (P' := awaiting best).
      { intros st t H. now apply awaiting_other. }
      apply sat_set_tb_then with (P' := awaiting best); [auto|].
      apply sat_emit_then with (P' := awaiting best).
      { intros st t H. now apply awaiting_other. }
      apply sat_emit_then with (P' := awaiting best).
      { intros st t H. now apply awaiting_other. }
      now apply in_order_confirm_and_reopen.
    + intros e st t [H _]. exact H.
Qed.

Lemma in_order_main float_of_str a s visits :
  zmq a = true ->
  preserves in_order (main float_of_str a s visits).
Proof.
  intros Hz. unfold main.
  apply preserves_bind.
  { apply keeps_calibrate with (good_th := fun _ => True);
      try solve [intros; now apply in_order_other];
      try solve [intros; auto]. }
  intros th. apply preserves_finally.
  - generalize 0 as k.
    induction visits as [|i rest IH]; intros k; cbn [scan_loop].
    + apply preserves_ret.
    + apply preserves_bind; [|intros _; apply IH].
      unfold visit. apply preserves_bind.
      { apply keeps_poll. intros; assumption. }
      intros _.
      apply preserves_bind;
        [apply preserves_emit; intros st t H; now apply in_order_other|].
      intros _.
      apply preserves_bind;
        [apply preserves_emit; intros st t H; now apply in_order_other|].
      intros _.
      apply preserves_bind;
        [apply preserves_emit; intros st t H; now apply in_order_other|].
      intros _. now apply in_order_on_report.
  - apply keeps_release_on_exit;
      intros; now apply in_order_other.
Qed.

(** Among the alerts of a run, a confirm alert comes right after the energy
    alert of the same signal: the alert published just before it is an
    energy alert with the same frequency and bandwidth.  So no two confirm
    alerts follow one another, and none comes first. *)
Theorem confirm_alert_follows_energy_alert :
  forall float_of_str a s visits st before alert after c b pal ntsc,
    published (trace_of (main float_of_str a s visits st))
      = before ++ alert :: after ->
    signal_infos alert = [("confirm"%string, c, b, pal, ntsc)] ->
    exists before' energy,
      before = before' ++ [energy] /\
      signal_infos energy = [("energy"%string, c, b, 0.0%float, 0.0%float)].
Proof.
  intros fos a s visits st before alert after c b pal ntsc E Hsi.
  destruct (zmq a) eqn:Hz.
  - pose proof (in_order_main fos a s visits Hz st []
                  confirm_follows_energy_nil) as H.
    cbn [app] in H. exact (H before alert after c b pal ntsc E Hsi).
  - pose proof (not_publish_kept fos a s visits Hz st [] (Forall_nil _)) as H.
    cbn [app] in H. exfalso.
    assert (Hin : In alert (published (trace_of (main fos a s visits st)))).
    { rewrite E. apply in_or_app. right. now left. }
    apply in_published in Hin. rewrite Forall_forall in H.
    exact (H _ Hin).
Qed.

(** ** The threshold of the detector *)

Lemma built_with_app t1 t2 :
  built_with (t1 ++ t2) = built_with t1 ++ built_with t2.
Proof. unfold built_with. apply flat_map_app. Qed.

Lemma calibrated_from_other th e (st : store) t :
  built_with [e] = [] ->
  calibrated_from th st t -> calibrated_from th st (t ++ [e]).
Proof.
  unfold calibrated_from. intros He H.
  now rewrite built_with_app, He, app_nil_r.
Qed.

Lemma calibrated_from_construct th ok (st : store) t :
  calibrated_from th st t ->
  calibrated_from th st (t ++ [EvConstruct th ok]).
Proof.
  intros [later [H1 H2]]. exists (later ++ [th]).
  rewrite built_with_app, H1. split; [reflexivity|].
  apply Forall_app. split; [exact H2|]. now repeat constructor.
Qed.

Lemma calibrated_from_disable th reason :
  preserves (calibrated_from th) (_disable_confirm reason).
Proof.
  intros st t0 H.
  destruct (_confirm_disabled_reason st) as [old|] eqn:Hf.
  - rewrite (_disable_confirm_set _ _ _ Hf). cbn. now rewrite app_nil_r.
  - rewrite (_disable_confirm_unset _ _ Hf). cbn.
    now apply calibrated_from_other.
Qed.

Lemma calibrated_from_publish th c b pal ntsc source :
  preserves (calibrated_from th) (publish_alert c b pal ntsc source).
Proof.
  intros st t0 H. rewrite publish_alert_builds. cbn.
  now apply calibrated_from_other.
Qed.

Ltac calibrated_kept :=
  try solve [intros; subst; now apply calibrated_from_construct];
  try solve [intros; now apply calibrated_from_other];
  try solve [intros; apply calibrated_from_disable];
  try solve [intros; apply calibrated_from_publish];
  try solve [intros; auto].

Lemma calibrated_from_first_open th o :
  sat (open_once THRESHOLD_DB o) (fun _ t => built_with t = [])
    (fun _ => calibrated_from th).
Proof.
  intros st t0 H. unfold open_once.
  assert (Hc : forall ok rest,
             built_with rest = [] ->
             calibrated_from th st
               (t0 ++ EvConstruct THRESHOLD_DB ok :: rest)).
  { intros ok rest Hr. exists [].
    change (t0 ++ EvConstruct THRESHOLD_DB ok :: rest)
      with (t0 ++ [EvConstruct THRESHOLD_DB ok] ++ rest).
    rewrite !built_with_app, H, Hr. split; [reflexivity|constructor]. }
  destruct (construct_exn o) as [e|]; [now apply Hc|].
  destruct (start_exn o) as [e|]; now apply Hc.
Qed.

Lemma after_warmup_result a s th st x :
  result_of
    (((if debug a then emit (EvPrint (DebugWarmup th)) else ret tt) ;;
      emit EvStop ;;
      emit EvWait ;;
      set_tb None ;;
      emit EvGcCollect ;;
      emit (EvSleep COOLDOWN_S) ;;
      t <- start_tb_with_retry th (warmup_reopen s) ;;
      set_tb (Some t) ;;
      ret th) st) = Ret x ->
  x = th.
Proof.
  destruct (debug a);
    repeat (rewrite result_bind;
            cbn [result_of store_of emit ret set_tb fst snd]);
    match goal with
    | |- context [start_tb_with_retry ?u ?v ?w] =>
        destruct (start_tb_with_retry u v w) as [[[t1|e1] st1] tr1]
    end;
    cbn [result_of store_of emit ret set_tb fst snd];
    repeat (rewrite result_bind;
            cbn [result_of store_of emit ret set_tb fst snd]);
    congruence.
Qed.

Lemma calibrated_from_calibrate a s :
  let th :=
    calibrated_threshold
      (map (warmup_probe s)
           (seq 0 (WARMUP_SWEEPS * List.length ALL_CENTERS_MHZ))) in
  sat (calibrate a s) (fun _ t => built_with t = [])
    (fun r st t => calibrated_from th st t /\ forall x, r = Ret x -> x = th).
Proof.
  intros th. unfold calibrate.
  apply sat_bind with (Q := fun _ => calibrated_from th).
  - apply calibrated_from_first_open.
  - intros t1.
    apply sat_set_tb_then with (P' := calibrated_from th); [auto|].
    cbn [WARMUP_SWEEPS Nat.ltb Nat.leb AUTO_THRESHOLD negb andb].
    apply sat_bind
      with (Q := fun r st t => calibrated_from th st t /\ r = Ret th).
    + apply sat_result.
      * apply keeps_warmup_threshold; calibrated_kept.
      * intros st. apply warmup_threshold_run.
    + intros x.
      apply sat_pre
        with (P' := fun st t => calibrated_from th st t /\ x = th).
      { intros st t [H E]. split; [exact H|]. now inversion E. }
      intros st0 t0 [H ->].
      split.
      * apply (keeps_after_warmup (calibrated_from th) a (eq th));
          calibrated_kept.
      * intros x. apply after_warmup_result.
    + intros e st t [H _]. split; [exact H|discriminate].
  - intros e st t H. split; [exact H|discriminate].
Qed.

(** The calibration takes effect: the first top block of a run is built with
    the default threshold, and every later one, after the warm-up and after
    each confirmation, with the threshold that the warm-up returned. *)
Theorem calibrated_threshold_takes_effect :
  forall float_of_str a s visits st,
    let th :=
      calibrated_threshold
        (map (warmup_probe s)
             (seq 0 (WARMUP_SWEEPS * List.length ALL_CENTERS_MHZ))) in
    exists later,
      built_with (trace_of (main float_of_str a s visits st))
        = THRESHOLD_DB :: later /\
      Forall (eq th) later.
Proof.
  intros fos a s visits st th.
  assert (H : sat (main fos a s visits) (fun _ t => built_with t = [])
                (fun _ => calibrated_from th)).
  { unfold main.
    eapply sat_bind; [apply calibrated_from_calibrate| |].
    - intros x.
      apply sat_pre
        with (P' := fun st t => calibrated_from th st t /\ x = th).
      { intros st0 t [H E]. split; [exact H|]. now apply E. }
      intros st0 t0 [H ->].
      apply preserves_finally; [| |exact H].
      + apply keeps_scan_loop
          with (chosen := fun _ => True) (good_th := eq th);
          calibrated_kept.
      + apply keeps_release_on_exit; calibrated_kept.
    - intros e st0 t [H _]. exact H. }
  exact (H st [] eq_refl).
Qed.

(** * The further properties on the examples *)

(** With the breaker not set and no classifier in the path. *)
Lemma run_confirm_trips_breaker_witness :
  _confirm_disabled_reason scanning_store = None /\
  _confirm_disabled_reason
    (store_of (run_confirm no_numerals 5805.5e6%float FileNotFoundError
                 scanning_store))
  = Some "suscli not found in PATH"%string.
Proof.
  split; [reflexivity|].
  pose proof (run_confirm_trips_breaker no_numerals 5805.5e6%float
                FileNotFoundError scanning_store eq_refl) as T.
  cbv zeta in T.
  destruct T as [_ [_ [_ [_ [_ [_ [T _]]]]]]].
  exact (T eq_refl).
Defined.

(** A radio that is busy twice and then gone: three attempts, two delays,
    and the error of the constructor. *)
Lemma reopen_gives_up_on_other_failures_witness :
  1 <= 3 <= REOPEN_RETRIES /\
  (forall j, 1 <= j < 3 -> start_fails (busy_then_gone j) = true) /\
  gives_up (-88.0)%float (busy_then_gone 3)
    = Some (RuntimeError "no device", [EvConstruct (-88.0)%float false]) /\
  result_of (start_tb_with_retry (-88.0)%float busy_then_gone init_store)
    = Raise (RuntimeError "no device") /\
  attempts_made
    (trace_of (start_tb_with_retry (-88.0)%float busy_then_gone init_store))
    = 3 /\
  reopen_delays
    (trace_of (start_tb_with_retry (-88.0)%float busy_then_gone init_store))
    = 2.
Proof.
  assert (H1 : 1 <= 3 <= REOPEN_RETRIES) by (unfold REOPEN_RETRIES; lia).
  assert (H2 : forall j, 1 <= j < 3 -> start_fails (busy_then_gone j) = true).
  { intros j Hj. destruct j as [|[|[|j]]]; try lia; reflexivity. }
  assert (H3 : gives_up (-88.0)%float (busy_then_gone 3)
               = Some (RuntimeError "no device",
                       [EvConstruct (-88.0)%float false]))
    by reflexivity.
  split; [exact H1|]. split; [exact H2|]. split; [exact H3|].
  pose proof (reopen_gives_up_on_other_failures (-88.0)%float busy_then_gone
                init_store 3 _ _ H1 H2 H3) as T.
  cbv zeta in T.
  destruct T as [Hr [_ [_ [Ha [Hd _]]]]].
  split; [exact Hr|]. split; [exact Ha|exact Hd].
Defined.

(** On the report of the example, the candidate is the second signal and
    the first is narrower. *)
Lemma candidate_is_first_of_the_widest_witness :
  parse_rf_map (Some example_map) (center_hz_of 5805)
    = [(5805.2e6, 4.2e6); (5805.5e6, 6.0e6)]%float /\
  exists before after,
    [(5805.2e6, 4.2e6); (5805.5e6, 6.0e6)]%float
      = before
        ++ max_by_bw (5805.2e6, 4.2e6)%float [(5805.5e6, 6.0e6)%float]
        :: after /\
    (forall s, In s before ->
       (snd s <? snd (max_by_bw (5805.2e6, 4.2e6)%float
                        [(5805.5e6, 6.0e6)%float]))%float = true) /\
    (forall s, In s after ->
       (snd s <=? snd (max_by_bw (5805.2e6, 4.2e6)%float
                         [(5805.5e6, 6.0e6)%float]))%float = true).
Proof.
  assert (H : parse_rf_map (Some example_map) (center_hz_of 5805)
              = [(5805.2e6, 4.2e6); (5805.5e6, 6.0e6)]%float)
    by (vm_compute; reflexivity).
  split; [exact H|].
  exact (candidate_is_first_of_the_widest (Some example_map)
           (center_hz_of 5805) _ _ H).
Defined.

(** The energy alert of the example run. *)
Lemma published_alerts_are_well_formed_witness :
  position_ok init_store /\
  In (EvPublish example_energy_alert) example_trace /\
  alert_ok example_energy_alert.
Proof.
  assert (H1 : position_ok init_store) by exact I.
  assert (H2 : In (EvPublish example_energy_alert) example_trace).
  { apply (nth_error_In example_trace 189). vm_compute. reflexivity. }
  split; [exact H1|]. split; [exact H2|].
  exact (published_alerts_are_well_formed no_numerals example_args
           example_startup [example_visit] init_store example_energy_alert
           H1 H2).
Defined.

(** The two alerts of the example run. *)
Lemma confirm_alert_follows_energy_alert_witness :
  published example_trace
    = [example_energy_alert] ++ example_confirm_alert :: [] /\
  signal_infos example_confirm_alert
    = [("confirm"%string, 4990.5e6, 6.0e6, 0.9, 0.8)%float] /\
  exists before' energy,
    [example_energy_alert] = before' ++ [energy] /\
    signal_infos energy
    = [("energy"%string, 4990.5e6, 6.0e6, 0.0, 0.0)%float].
Proof.
  assert (H1 : published example_trace
               = [example_energy_alert] ++ example_confirm_alert :: [])
    by (vm_compute; reflexivity).
  assert (H2 : signal_infos example_confirm_alert
               = [("confirm"%string, 4990.5e6, 6.0e6, 0.9, 0.8)%float])
    by reflexivity.
  split; [exact H1|]. split; [exact H2|].
  exact (confirm_alert_follows_energy_alert no_numerals example_args
           example_startup [example_visit] init_store _ _ _ _ _ _ _ H1 H2).
Defined.
